(** * infernet-monorepo: a shallow embedding of the client-side libraries

    The development follows the Python sources:
    - [CssMux]        : infernet_ml/utils/css_mux.py
    - [ChainUtils]    : infernet_client/chain_utils.py
    - [FileManager]   : ritual_arweave/file_manager.py
    - [ConfigCreator] : infernet_services/tests/test_library/config_creator.py
    - [Tracker]       : the node's subscription tracker and retry policy

    Part I holds the definitions, Part II the lemmas and theorems. *)

From Stdlib Require Import ZArith String Ascii List Lia Bool.
From stdpp Require Import gmap strings list fin_maps pretty sorting.

#[local] Set Warnings "-register-all".

Local Open Scope Z_scope.
Local Open Scope string_scope.

(* ===================================================================== *)
(** * Part I: definitions *)
(* ===================================================================== *)

(** ** Results of fallible code

    A Python call either returns a value or raises; [E] is the type of
    the exceptions of the module at hand. *)

Inductive result (E A : Type) : Type :=
| Ok (a : A)
| Raise (e : E).
Arguments Ok {E A} a.
Arguments Raise {E A} e.

#[global] Instance result_ret {E} : MRet (result E) := fun _ a => Ok a.
#[global] Instance result_bind {E} : MBind (result E) := fun _ _ k r =>
  match r with
  | Ok a => k a
  | Raise e => Raise e
  end.

(** ** Code that reads and writes a store

    A computation over a store of type [S] returns a result and the
    store it leaves behind; a raised exception keeps the writes made so
    far, as in Python. *)

Definition stateful (S E A : Type) : Type := S -> result E A * S.

#[global] Instance stateful_ret {S E} : MRet (stateful S E) :=
  fun _ a s => (Ok a, s).
#[global] Instance stateful_bind {S E} : MBind (stateful S E) :=
  fun _ _ k m s =>
    match m s with
    | (Ok a, s') => k a s'
    | (Raise e, s') => (Raise e, s')
    end.

Definition raise {S E A} (e : E) : stateful S E A := fun s => (Raise e, s).
Definition get_store {S E} : stateful S E S := fun s => (Ok s, s).
Definition modify_store {S E} (f : S -> S) : stateful S E unit :=
  fun s => (Ok tt, f s).
Definition lift {S E A} (r : result E A) : stateful S E A := fun s => (r, s).

(** [try: body  except Exception: handler] *)
Definition try_except {S E A} (body : stateful S E A)
  (handler : E -> stateful S E A) : stateful S E A :=
  fun s =>
    match body s with
    | (Ok a, s') => (Ok a, s')
    | (Raise e, s') => handler e s'
    end.

(** A computation that leaves the store as it found it. *)
Definition read_only {S E A} (m : stateful S E A) : Prop :=
  forall s, snd (m s) = s.

(** ** Python dictionaries

    A Python [dict] keeps its keys in insertion order; a dictionary
    literal, a lookup table or a JSON object is an association list with
    unique keys, read with [dict_get] and written with [dict_set]. *)

Module PyDict.

Definition pydict (K V : Type) : Type := list (K * V).

Fixpoint dict_get {K V} `{EqDecision K} (d : pydict K V) (k : K) : option V :=
  match d with
  | [] => None
  | (k', v) :: d' => if decide (k' = k) then Some v else dict_get d' k
  end.

(** [k in d] *)
Definition dict_in {K V} `{EqDecision K} (k : K) (d : pydict K V) : bool :=
  match dict_get d k with Some _ => true | None => false end.

(** [d[k] = v]: overwrite in place, or append a new key. *)
Fixpoint dict_set {K V} `{EqDecision K} (d : pydict K V) (k : K) (v : V)
  : pydict K V :=
  match d with
  | [] => [(k, v)]
  | (k', v') :: d' =>
      if decide (k' = k) then (k', v) :: d' else (k', v') :: dict_set d' k v
  end.

(** [{**a, **b}] *)
Definition dict_merge {K V} `{EqDecision K} (a b : pydict K V) : pydict K V :=
  fold_left (fun acc kv => dict_set acc (fst kv) (snd kv)) b a.

End PyDict.
Import PyDict.

(** ** JSON values, as [json.loads] and [requests] produce them *)

Inductive json : Type :=
| JNull
| JBool (b : bool)
| JInt (z : Z)
| JFloat (mantissa exponent : Z)
| JStr (s : string)
| JList (l : list json)
| JDict (d : list (string * json)).

(* ===================================================================== *)
(** ** infernet_ml/utils/css_mux.py *)
(* ===================================================================== *)

Module CssMux.

Inductive Provider : Type := OPENAI | PERPLEXITYAI | GOOSEAI.

#[global] Instance Provider_eq_dec : EqDecision Provider.
Proof. solve_decision. Defined.

Record ConvoMessage : Type := {
  role : string;
  content : string;
}.

(** [Union[CSSCompletionParams, CSSEmbeddingParams]] *)
Inductive CSSParams : Type :=
| CSSCompletionParams (messages : list ConvoMessage)
| CSSEmbeddingParams (input : string).

(** [ApiKeys = Dict[Provider, Optional[str]]] *)
Definition ApiKeys : Type := pydict Provider (option string).

Record CSSRequest : Type := {
  provider : Provider;
  endpoint : string;
  model : string;
  api_keys : ApiKeys;
  params : CSSParams;
  stream : bool;
}.

(** The text of an exception: a literal, or one of the two f-strings of
    the module, kept with the object that is formatted into it. *)
Inductive message : Type :=
| Text (s : string)
| UnsupportedRequest (req : CSSRequest)    (* f"Unsupported request {req}" *)
| ApiKeyNotSpecified (p : Provider).       (* f"{p} API key not specified!" *)

Inductive exn : Type :=
| InfernetMLException (msg : message)
| APIKeyMissingException (msg : message)
| RetryableException (msg : message)
| KeyError
| IndexError
| TypeError
| JSONDecodeError
| RequestException.

(** [d[k]] on a lookup table *)
Definition subscript {K V} `{EqDecision K} (d : pydict K V) (k : K)
  : result exn V :=
  match dict_get d k with
  | Some v => Ok v
  | None => Raise KeyError
  end.

(** [v[k]] for a string key [k] on a parsed JSON value *)
Definition getitem (v : json) (k : string) : result exn json :=
  match v with
  | JDict d => subscript d k
  | _ => Raise TypeError
  end.

(** [v[0]] on a parsed JSON value: the first element of a list, the first
    character of a string; a JSON object has no integer key. *)
Definition getitem0 (v : json) : result exn json :=
  match v with
  | JList (x :: _) => Ok x
  | JList [] => Raise IndexError
  | JStr (String c _) => Ok (JStr (String c EmptyString))
  | JStr EmptyString => Raise IndexError
  | JDict _ => Raise KeyError
  | _ => Raise TypeError
  end.

(** [msg.model_dump()] *)
Definition model_dump (msg : ConvoMessage) : json :=
  JDict [("role", JStr (role msg)); ("content", JStr (content msg))].

Definition open_ai_helper (req : CSSRequest)
  : result exn (string * pydict string json) :=
  match params req with
  | CSSCompletionParams msgs =>
      Ok ("https://api.openai.com/v1/",
          [("model", JStr (model req));
           ("messages", JList (map model_dump msgs))])
  | CSSEmbeddingParams input =>
      Ok ("https://api.openai.com/v1/",
          [("model", JStr (model req)); ("input", JStr input)])
  end.

Definition ppl_ai_helper (req : CSSRequest)
  : result exn (string * pydict string json) :=
  match params req with
  | CSSCompletionParams msgs =>
      Ok ("https://api.perplexity.ai/",
          [("model", JStr (model req));
           ("messages", JList (map model_dump msgs))])
  | _ => Raise (InfernetMLException (UnsupportedRequest req))
  end.

Definition goose_ai_helper (req : CSSRequest)
  : result exn (string * pydict string json) :=
  match params req with
  | CSSCompletionParams msgs =>
      if negb (length msgs =? 1)%nat then
        Raise (InfernetMLException
                 (Text "GOOSE AI API only accepts one message from role user!"))
      else
        match msgs with
        | m :: _ =>
            Ok ("https://api.goose.ai/v1/engines/" ++ model req ++ "/",
                [("prompt", JStr (content m))])
        | [] => Raise IndexError
        end
  | _ => Raise (InfernetMLException (UnsupportedRequest req))
  end.

Record EndpointEntry : Type := {
  real_endpoint : string;
  post_process : json -> result exn json;
}.

Record ProviderEntry : Type := {
  input_func : CSSRequest -> result exn (string * pydict string json);
  endpoints : pydict string EndpointEntry;
}.

(** [lambda result: result["choices"][0]["message"]["content"]] *)
Definition chat_post_process (r : json) : result exn json :=
  a ← getitem r "choices";
  b ← getitem0 a;
  c ← getitem b "message";
  getitem c "content".

(** [lambda result: result["data"][0]["embedding"]] *)
Definition embedding_post_process (r : json) : result exn json :=
  a ← getitem r "data";
  b ← getitem0 a;
  getitem b "embedding".

(** [lambda result: result["choices"][0]["text"]] *)
Definition text_post_process (r : json) : result exn json :=
  a ← getitem r "choices";
  b ← getitem0 a;
  getitem b "text".

Definition PROVIDERS : pydict Provider ProviderEntry :=
  [ (OPENAI,
     {| input_func := open_ai_helper;
        endpoints :=
          [ ("completions",
             {| real_endpoint := "chat/completions";
                post_process := chat_post_process |});
            ("embeddings",
             {| real_endpoint := "embeddings";
                post_process := embedding_post_process |}) ] |});
    (PERPLEXITYAI,
     {| input_func := ppl_ai_helper;
        endpoints :=
          [ ("completions",
             {| real_endpoint := "chat/completions";
                post_process := chat_post_process |}) ] |});
    (GOOSEAI,
     {| input_func := goose_ai_helper;
        endpoints :=
          [ ("completions",
             {| real_endpoint := "completions";
                post_process := text_post_process |}) ] |}) ].

(** [req.api_keys.get(req.provider)]: [None] for a missing key and for a
    key stored with the value [None]. *)
Definition api_keys_get (keys : ApiKeys) (p : Provider) : option string :=
  match dict_get keys p with
  | Some (Some k) => Some k
  | _ => None
  end.

Definition validate (req : CSSRequest) : result exn unit :=
  if negb (dict_in (provider req) PROVIDERS) then
    Raise (InfernetMLException (Text "Provider not supported!"))
  else
    match api_keys_get (api_keys req) (provider req) with
    | None =>
        Raise (APIKeyMissingException (ApiKeyNotSpecified (provider req)))
    | Some _ =>
        entry ← subscript PROVIDERS (provider req);
        if negb (dict_in (endpoint req) (endpoints entry)) then
          Raise (InfernetMLException
                   (Text "Endpoint not supported for your provider!"))
        else Ok tt
    end.

(** [f"Bearer {api_key}"] for an [Optional[str]] *)
Definition bearer (api_key : option string) : string :=
  "Bearer " ++ match api_key with Some k => k | None => "None" end.

Definition get_request_configuration
  (req : CSSRequest) (extra_args : pydict string json)
  : result exn (string * pydict string string * pydict string json) :=
  let provider := provider req in
  api_key ← subscript (api_keys req) provider;
  entry ← subscript PROVIDERS provider;
  ep ← subscript (endpoints entry) (endpoint req);
  let real_endpoint := real_endpoint ep in
  '(base_url, proc_input) ← input_func entry req;
  let url := base_url ++ real_endpoint in
  let headers :=
    [("Content-Type", "application/json");
     ("Authorization", bearer api_key)] in
  Ok (url, headers, dict_merge proc_input extra_args).

(** What [requests.post] hands back: the status, the body text and the
    outcome of [result.json()] on that body. *)
Record Response : Type := {
  status_code : Z;
  text : string;
  json_body : option json;
}.

(** [result.json()]: the parsed body, or a decoding error. *)
Definition response_json (r : Response) : result exn json :=
  match json_body r with
  | Some v => Ok v
  | None => Raise JSONDecodeError
  end.

(** The HTTP transport, [requests.post(url, headers=..., json=...)]. *)
Definition transport : Type :=
  string -> pydict string string -> pydict string json -> result exn Response.

(** The [if result.status_code != 200: match req.provider: ...] block.
    The enum has three members, each matched by one of the first two
    cases, so the final [case _] of the source is never selected; a case
    whose inner [if] is false raises nothing and control falls through. *)
Definition check_status (p : Provider) (r : Response) : result exn unit :=
  if negb (status_code r =? 200)%Z then
    match p with
    | OPENAI | GOOSEAI =>
        if ((status_code r =? 429) || (status_code r =? 500))%Z
        then Raise (RetryableException (Text (text r)))
        else Ok tt
    | PERPLEXITYAI =>
        if (status_code r =? 429)%Z
        then Raise (RetryableException (Text (text r)))
        else Ok tt
    end
  else Ok tt.

Definition css_mux (post : transport) (req : CSSRequest)
  (extra_args : option (pydict string json)) : result exn json :=
  '(url, headers, body) ←
     get_request_configuration req
       (match extra_args with Some e => e | None => [] end);
  result ← post url headers body;
  _ ← check_status (provider req) result;
  response ← response_json result;
  entry ← subscript PROVIDERS (provider req);
  ep ← subscript (endpoints entry) (endpoint req);
  post_process ep response.

(** The statuses on which [css_mux] raises [RetryableException]. *)
Definition retried (p : Provider) (status : Z) : Prop :=
  status = 429 \/ (status = 500 /\ (p = OPENAI \/ p = GOOSEAI)).

(** An exception that is not one of the classified failures. *)
Definition unclassified (e : exn) : Prop :=
  match e with
  | KeyError | IndexError | TypeError | JSONDecodeError => True
  | _ => False
  end.

Definition raises_unclassified {A} (r : result exn A) : Prop :=
  match r with
  | Ok _ => True
  | Raise e => unclassified e
  end.

(** The requests whose params the provider's input function accepts. *)
Definition accepted (req : CSSRequest) : Prop :=
  match provider req, params req with
  | OPENAI, _ => True
  | PERPLEXITYAI, CSSCompletionParams _ => True
  | GOOSEAI, CSSCompletionParams [_] => True
  | _, _ => False
  end.

(** Requests and servers for running the model. *)
Definition goose_two_messages : CSSRequest :=
  {| provider := GOOSEAI;
     endpoint := "completions";
     model := "gpt-neo-20b";
     api_keys := [(GOOSEAI, Some "sk-goose")];
     params := CSSCompletionParams
                 [ {| role := "system"; content := "be brief" |};
                   {| role := "user"; content := "hello" |} ];
     stream := false |}.

Definition openai_chat : CSSRequest :=
  {| provider := OPENAI;
     endpoint := "completions";
     model := "gpt-4";
     api_keys := [(OPENAI, Some "sk-openai")];
     params := CSSCompletionParams [ {| role := "user"; content := "hello" |} ];
     stream := false |}.

Definition perplexity_chat : CSSRequest :=
  {| provider := PERPLEXITYAI;
     endpoint := "completions";
     model := "sonar";
     api_keys := [(PERPLEXITYAI, Some "pplx")];
     params := CSSCompletionParams [ {| role := "user"; content := "hello" |} ];
     stream := false |}.

(** A server that answers every request with the given status and body. *)
Definition answering (status : Z) (body_text : string) (parsed : option json)
  : transport :=
  fun _ _ _ =>
    Ok {| status_code := status; text := body_text; json_body := parsed |}.

Definition error_body : json :=
  JDict [("error", JDict [("message", JStr "invalid request")])].

Definition chat_body : json :=
  JDict [("choices",
          JList [JDict [("message", JDict [("content", JStr "hi")])]])].

(** *** What the rest of the module computes *)

(** The endpoints the table lists for a provider. *)
Definition supported (p : Provider) (e : string) : Prop :=
  e = "completions" \/ (p = OPENAI /\ e = "embeddings").

(** [PROVIDERS[req.provider]["input_func"](req)] *)
Definition provider_input (req : CSSRequest)
  : result exn (string * pydict string json) :=
  match provider req with
  | OPENAI => open_ai_helper req
  | PERPLEXITYAI => ppl_ai_helper req
  | GOOSEAI => goose_ai_helper req
  end.

(** *** Streaming *)

(** The exceptions of the streaming path: those of the module, the
    [AttributeError] of a [.get] on a value that is not a dictionary, and
    the [UnicodeDecodeError] of [data.decode()]. *)
Inductive stream_exn : Type :=
| Raised (e : exn)
| AttributeError
| UnicodeDecodeError.

Definition lift_exn {A} (r : result exn A) : result stream_exn A :=
  match r with
  | Ok a => Ok a
  | Raise e => Raise (Raised e)
  end.

(** [lambda result: result["choices"][0]["delta"].get("content", "")] *)
Definition delta_post_process (r : json) : result stream_exn json :=
  a ← lift_exn (getitem r "choices");
  b ← lift_exn (getitem0 a);
  c ← lift_exn (getitem b "delta");
  match c with
  | JDict d => Ok (default (JStr "") (dict_get d "content"))
  | _ => Raise AttributeError
  end.

Definition streaming_post_processing
  : pydict Provider (json -> result stream_exn json) :=
  [ (OPENAI, delta_post_process);
    (PERPLEXITYAI, delta_post_process);
    (GOOSEAI, fun r => lift_exn (text_post_process r)) ].

(** Three functions of Python the streaming path calls on text:
    [bytes.decode] ([None] for bytes that are not UTF-8), [str.strip] and
    [json.loads] ([None] for a decoding error). *)
Record TextLib : Type := {
  decode : list Byte.byte -> option string;
  strip : string -> string;
  loads : string -> option json;
}.

(** [s[n:]] *)
Fixpoint drop_chars (n : nat) (s : string) : string :=
  match n, s with
  | O, _ => s
  | S n', String _ s' => drop_chars n' s'
  | S _, EmptyString => EmptyString
  end.

(** The text after "data:" of a decoded line, stripped; [None] for a line
    that does not start with "data:". *)
Definition payload (lib : TextLib) (decoded : string) : option string :=
  if String.prefix "data:" decoded
  then Some (strip lib (drop_chars 5 decoded))
  else None.

(** The [for data in resp.iter_lines()] loop over the lines of the
    response, as bytes: the chunks yielded, in order, and the exception
    that ended the generator, if one did. Every line is decoded, also one
    that is then skipped. *)
Fixpoint stream_lines (lib : TextLib) (p : Provider)
  (lines : list (list Byte.byte)) : list json * option stream_exn :=
  match lines with
  | [] => ([], None)
  | data :: lines' =>
      match decode lib data with
      | None => ([], Some UnicodeDecodeError)
      | Some decoded =>
          match payload lib decoded with
          | Some rest =>
              if decide (rest = "[DONE]") then stream_lines lib p lines'
              else
                match lift_exn (subscript streaming_post_processing p) with
                | Raise e => ([], Some e)
                | Ok post_processor =>
                    match loads lib rest with
                    | None => ([], Some (Raised JSONDecodeError))
                    | Some parsed =>
                        match post_processor parsed with
                        | Raise e => ([], Some e)
                        | Ok chunk =>
                            let '(chunks, e) := stream_lines lib p lines' in
                            (chunk :: chunks, e)
                        end
                    end
                end
          | None => stream_lines lib p lines'
          end
      end
  end.

(** [extra_args = extra_args or {}; extra_args["stream"] = True]: the
    dictionary handed to [get_request_configuration]. An empty dictionary
    is falsy, so it is replaced like [None]. *)
Definition streaming_extra_args (extra_args : option (pydict string json))
  : pydict string json :=
  dict_set (match extra_args with
            | Some (kv :: e) => kv :: e
            | _ => []
            end) "stream" (JBool true).

(** The caller's dictionary after the generator has run: the assignment
    writes into it when [extra_args or {}] is the caller's own object. *)
Definition caller_extra_args (extra_args : option (pydict string json))
  : option (pydict string json) :=
  match extra_args with
  | Some (kv :: e) => Some (streaming_extra_args extra_args)
  | other => other
  end.

(** The streaming transport: the lines of the response, as the bytes
    [resp.iter_lines()] gives. *)
Definition stream_transport : Type :=
  string -> pydict string string -> pydict string json
  -> result exn (list (list Byte.byte)).

(** [css_streaming_mux], run to the end of the generator: the caller's
    [extra_args] afterwards, the chunks yielded and the exception raised,
    if any. *)
Definition css_streaming_mux (lib : TextLib) (post : stream_transport)
  (req : CSSRequest) (extra_args : option (pydict string json))
  : option (pydict string json) * (list json * option stream_exn) :=
  (caller_extra_args extra_args,
   match get_request_configuration req (streaming_extra_args extra_args) with
   | Raise e => ([], Some (Raised e))
   | Ok (url, headers, body) =>
       match post url headers body with
       | Raise e => ([], Some (Raised e))
       | Ok lines => stream_lines lib (provider req) lines
       end
   end).

(** A text library for running the model: [decode] accepts ASCII bytes,
    [strip] drops leading spaces, [loads] knows two texts. *)
Fixpoint drop_spaces (s : string) : string :=
  match s with
  | String " "%char s' => drop_spaces s'
  | _ => s
  end.

Definition sample_text_lib : TextLib :=
  {| decode := fun data =>
       if forallb (fun b => (Byte.to_N b <? 128)%N) data
       then Some (string_of_list_byte data)
       else None;
     strip := drop_spaces;
     loads := fun s =>
       if decide (s = "hi") then
         Some (JDict [("choices",
                       JList [JDict [("delta",
                                      JDict [("content", JStr "hi")])]])])
       else if decide (s = "end") then
         Some (JDict [("choices", JList [JDict [("delta", JDict [])]])])
       else None |}.

(** A line the generator skips: one that decodes, and either does not
    start with "data:" or is the "[DONE]" marker. *)
Definition skipped (lib : TextLib) (data : list Byte.byte) : bool :=
  match decode lib data with
  | None => false
  | Some decoded =>
      match payload lib decoded with
      | Some rest => if decide (rest = "[DONE]") then true else false
      | None => true
      end
  end.

(** A line from which the generator yields a chunk, unless it raises. *)
Definition carries_chunk (lib : TextLib) (data : list Byte.byte) : bool :=
  negb (skipped lib data).

(** One iteration of the loop of the generator, given what the
    iterations after it yield and raise. *)
Definition stream_step (lib : TextLib) (p : Provider) (data : list Byte.byte)
  (later : list json * option stream_exn) : list json * option stream_exn :=
  match decode lib data with
  | None => ([], Some UnicodeDecodeError)
  | Some decoded =>
      match payload lib decoded with
      | Some rest =>
          if decide (rest = "[DONE]") then later
          else
            match lift_exn (subscript streaming_post_processing p) with
            | Raise e => ([], Some e)
            | Ok post_processor =>
                match loads lib rest with
                | None => ([], Some (Raised JSONDecodeError))
                | Some parsed =>
                    match post_processor parsed with
                    | Raise e => ([], Some e)
                    | Ok chunk => (chunk :: fst later, snd later)
                    end
                end
            end
      | None => later
      end
  end.

(** The bytes of a line of ASCII text, for running the model. *)
Definition ascii_line (s : string) : list Byte.byte := list_byte_of_string s.

End CssMux.

(* ===================================================================== *)
(** ** infernet_client/chain_utils.py *)
(* ===================================================================== *)

Module ChainUtils.

(** The values the attributes of a [Subscription] hold. *)
Inductive pyval : Type :=
| VInt (z : Z)
| VStr (s : string)
| VBool (b : bool).

(** The full_message handed to [encode_typed_data]: a tree of
    dictionaries and lists over integers, strings, booleans and bytes. *)
Inductive tdata : Type :=
| TInt (z : Z)
| TStr (s : string)
| TBool (b : bool)
| TBytes (bs : list Byte.byte)
| TList (l : list tdata)
| TDict (d : list (string * tdata)).

Inductive exn : Type :=
| AttributeError (name : string)
| TypeError
| LibraryError.

(** The functions of eth_abi, web3, hexbytes and eth_account the class
    calls; all of them live outside the repository. *)
Record EthLib : Type := {
  SignableMessage : Type;
  (** [encode(["string"], [s])] *)
  abi_encode_string : string -> list Byte.byte;
  (** [Web3.keccak(b)] *)
  keccak : list Byte.byte -> list Byte.byte;
  (** [HexBytes.hex()] *)
  hex : list Byte.byte -> string;
  (** [HexBytes(s)] *)
  HexBytes : string -> result exn (list Byte.byte);
  encode_typed_data : tdata -> result exn SignableMessage;
}.

(** [sep.join(l)] *)
Fixpoint join (sep : string) (l : list string) : string :=
  match l with
  | [] => ""
  | [x] => x
  | x :: l' => x ++ sep ++ join sep l'
  end.

(** A Python object is its attribute dictionary. *)
Abbreviation object := (gmap string pyval).
Abbreviation method := (stateful (gmap string pyval) exn).

(** [self.name = v] *)
Definition setattr (name : string) (v : pyval) : method unit :=
  modify_store (fun self : object => <[name := v]> self).

(** [self.name] *)
Definition getattr (name : string) : method pyval :=
  fun self : object =>
    match self !! name with
    | Some v => (Ok v, self)
    | None => (Raise (AttributeError name), self)
    end.

(** The arguments of [Subscription.__init__]. *)
Record SubscriptionArgs : Type := {
  owner : string;
  active_at : Z;
  period : Z;
  frequency : Z;
  redundancy : Z;
  containers : list string;
  lazy : bool;
  prover : string;
  payment_amount : Z;
  payment_token : string;
  wallet : string;
}.

(** [Web3.keccak(encode(["string"], [",".join(containers)])).hex()] *)
Definition containers_hash (lib : EthLib) (containers : list string) : string :=
  hex lib (keccak lib (abi_encode_string lib (join "," containers))).

Definition __init__ (lib : EthLib) (a : SubscriptionArgs) : method unit :=
  _ ← setattr "owner" (VStr (owner a));
  _ ← setattr "_active_at" (VInt (active_at a));
  _ ← setattr "_period" (VInt (period a));
  _ ← setattr "_frequency" (VInt (frequency a));
  _ ← setattr "_redundancy" (VInt (redundancy a));
  _ ← setattr "_containers_hash" (VStr (containers_hash lib (containers a)));
  _ ← setattr "_lazy" (VBool (lazy a));
  _ ← setattr "_prover" (VStr (prover a));
  _ ← setattr "_payment_amount" (VInt (payment_amount a));
  _ ← setattr "_payment_token" (VStr (payment_token a));
  setattr "_wallet" (VStr (wallet a)).

(** [Subscription(...)]: a fresh object, initialised by [__init__]. *)
Definition Subscription (lib : EthLib) (a : SubscriptionArgs)
  : result exn unit * object :=
  __init__ lib a ∅.

Definition serialized : method (pydict string pyval) :=
  owner ← getattr "owner";
  active_at ← getattr "_active_at";
  period ← getattr "_period";
  frequency ← getattr "_frequency";
  redundancy ← getattr "_redundancy";
  containers ← getattr "_containers_hash";
  lazy ← getattr "_lazy";
  prover ← getattr "_prover";
  payment_amount ← getattr "_payment_amount";
  payment_token ← getattr "_payment_token";
  wallet ← getattr "_wallet";
  mret [ ("owner", owner);
         ("active_at", active_at);
         ("period", period);
         ("frequency", frequency);
         ("redundancy", redundancy);
         ("containers", containers);
         ("lazy", lazy);
         ("prover", prover);
         ("payment_amount", payment_amount);
         ("payment_token", payment_token);
         ("wallet", wallet) ].

Definition tdata_of (v : pyval) : tdata :=
  match v with
  | VInt z => TInt z
  | VStr s => TStr s
  | VBool b => TBool b
  end.

(** One entry of a type list, [{"name": n, "type": t}]. *)
Definition field (n t : string) : tdata :=
  TDict [("name", TStr n); ("type", TStr t)].

Definition typed_data_types : tdata :=
  TDict
    [ ("EIP712Domain",
       TList [ field "name" "string"; field "version" "string";
               field "chainId" "uint256";
               field "verifyingContract" "address" ]);
      ("DelegateSubscription",
       TList [ field "nonce" "uint32"; field "expiry" "uint32";
               field "sub" "Subscription" ]);
      ("Subscription",
       TList [ field "owner" "address"; field "activeAt" "uint32";
               field "period" "uint32"; field "frequency" "uint32";
               field "redundancy" "uint16"; field "containerId" "bytes32";
               field "lazy" "bool"; field "prover" "address";
               field "paymentAmount" "uint256";
               field "paymentToken" "address"; field "wallet" "address" ]) ].

(** [HexBytes(self._containers_hash)] *)
Definition hexbytes_of (lib : EthLib) (v : pyval)
  : result exn (list Byte.byte) :=
  match v with
  | VStr s => HexBytes lib s
  | _ => Raise TypeError
  end.

Definition get_delegate_subscription_typed_data (lib : EthLib)
  (nonce expiry chain_id : Z) (verifying_contract : string)
  : method (SignableMessage lib) :=
  owner ← getattr "owner";
  active_at ← getattr "_active_at";
  period ← getattr "_period";
  frequency ← getattr "_frequency";
  redundancy ← getattr "_redundancy";
  containers_hash ← getattr "_containers_hash";
  container_id ← lift (hexbytes_of lib containers_hash);
  lazy ← getattr "_lazy";
  prover ← getattr "_prover";
  payment_amount ← getattr "_payment_amount";
  payment_token ← getattr "_payment_token";
  wallet ← getattr "_wallet";
  lift (encode_typed_data lib
    (TDict
      [ ("types", typed_data_types);
        ("primaryType", TStr "DelegateSubscription");
        ("domain",
         TDict [ ("name", TStr "InfernetCoordinator");
                 ("version", TStr "1");
                 ("chainId", TInt chain_id);
                 ("verifyingContract", TStr verifying_contract) ]);
        ("message",
         TDict [ ("nonce", TInt nonce);
                 ("expiry", TInt expiry);
                 ("sub",
                  TDict [ ("owner", tdata_of owner);
                          ("activeAt", tdata_of active_at);
                          ("period", tdata_of period);
                          ("frequency", tdata_of frequency);
                          ("redundancy", tdata_of redundancy);
                          ("containerId", TBytes container_id);
                          ("lazy", tdata_of lazy);
                          ("prover", tdata_of prover);
                          ("paymentAmount", tdata_of payment_amount);
                          ("paymentToken", tdata_of payment_token);
                          ("wallet", tdata_of wallet) ]) ]) ])).

(** A client of a [Subscription]: the calls it can make on the object. *)
Inductive call : Type :=
| CallSerialized
| CallTypedData (nonce expiry chain_id : Z) (verifying_contract : string).

(** What a call returns, when it returns. *)
Inductive returned (lib : EthLib) : Type :=
| RSerialized (d : pydict string pyval)
| RTypedData (m : SignableMessage lib).
Arguments RSerialized {lib} d.
Arguments RTypedData {lib} m.

Definition run_call (lib : EthLib) (c : call) (self : object)
  : result exn (returned lib) * object :=
  match c with
  | CallSerialized =>
      (d ← serialized; mret (RSerialized d)) self
  | CallTypedData n e c v =>
      (m ← get_delegate_subscription_typed_data lib n e c v;
       mret (RTypedData m)) self
  end.

(** A sequence of calls, each on the object the previous one left; an
    exception raised by one call does not stop the client. *)
Fixpoint run_calls (lib : EthLib) (cs : list call) (self : object)
  : list (result exn (returned lib)) * object :=
  match cs with
  | [] => ([], self)
  | c :: cs' =>
      let '(r, self') := run_call lib c self in
      let '(rs, self'') := run_calls lib cs' self' in
      (r :: rs, self'')
  end.

(** The attribute dictionary [__init__] builds. *)
Definition constructed (lib : EthLib) (a : SubscriptionArgs)
  : gmap string pyval :=
  <["_wallet" := VStr (wallet a)]>
  (<["_payment_token" := VStr (payment_token a)]>
  (<["_payment_amount" := VInt (payment_amount a)]>
  (<["_prover" := VStr (prover a)]>
  (<["_lazy" := VBool (lazy a)]>
  (<["_containers_hash" := VStr (containers_hash lib (containers a))]>
  (<["_redundancy" := VInt (redundancy a)]>
  (<["_frequency" := VInt (frequency a)]>
  (<["_period" := VInt (period a)]>
  (<["_active_at" := VInt (active_at a)]>
  (<["owner" := VStr (owner a)]> ∅)))))))))).

(** [s] has no comma. *)
Fixpoint no_comma (s : string) : bool :=
  match s with
  | EmptyString => true
  | String c s' => negb (Ascii.eqb c ","%char) && no_comma s'
  end.

(** A container ID that is not empty and has no comma. *)
Definition plain_id (s : string) : Prop := s <> "" /\ no_comma s = true.

(** What follows the first ID in a joined string. *)
Definition join_tail (l : list string) : string :=
  match l with
  | [] => ""
  | _ => "," ++ join "," l
  end.

(** Constructor arguments with frequency 0 and redundancy 0. *)
Definition zero_frequency_args : SubscriptionArgs :=
  {| owner := "0x0000000000000000000000000000000000000001";
     active_at := 0;
     period := 0;
     frequency := 0;
     redundancy := 0;
     containers := ["echo"];
     lazy := false;
     prover := "0x0000000000000000000000000000000000000000";
     payment_amount := 0;
     payment_token := "0x0000000000000000000000000000000000000000";
     wallet := "0x0000000000000000000000000000000000000001" |}.

(** A stand-in for the external libraries, for running the model. *)
Definition sample_lib : EthLib :=
  {| SignableMessage := tdata;
     abi_encode_string := fun s =>
       map Ascii.byte_of_ascii (list_ascii_of_string s);
     keccak := fun bs => bs;
     hex := fun bs => string_of_list_ascii (map Ascii.ascii_of_byte bs);
     HexBytes := fun s => Ok (map Ascii.byte_of_ascii (list_ascii_of_string s));
     encode_typed_data := fun m => Ok m |}.

(** The EIP-712 message of a subscription built from the arguments [a],
    with the bytes [container_id] for its fingerprint. *)
Definition delegate_subscription_message (a : SubscriptionArgs)
  (container_id : list Byte.byte) (nonce expiry chain_id : Z)
  (verifying_contract : string) : tdata :=
  TDict
    [ ("types", typed_data_types);
      ("primaryType", TStr "DelegateSubscription");
      ("domain",
       TDict [ ("name", TStr "InfernetCoordinator");
               ("version", TStr "1");
               ("chainId", TInt chain_id);
               ("verifyingContract", TStr verifying_contract) ]);
      ("message",
       TDict [ ("nonce", TInt nonce);
               ("expiry", TInt expiry);
               ("sub",
                TDict [ ("owner", TStr (owner a));
                        ("activeAt", TInt (active_at a));
                        ("period", TInt (period a));
                        ("frequency", TInt (frequency a));
                        ("redundancy", TInt (redundancy a));
                        ("containerId", TBytes container_id);
                        ("lazy", TBool (lazy a));
                        ("prover", TStr (prover a));
                        ("paymentAmount", TInt (payment_amount a));
                        ("paymentToken", TStr (payment_token a));
                        ("wallet", TStr (wallet a)) ]) ]) ].

End ChainUtils.

(* ===================================================================== *)
(** ** ritual_arweave/file_manager.py *)
(* ===================================================================== *)

Module FileManager.

Inductive exn : Type :=
| FileNotFoundError
| KeyError
| TypeError
| ValueError
| PeerError.

(** The Arweave peer ([ar.Peer]) and [ar.utils.b64dec]: the network side
    of the file manager. *)
Record Peer : Type := {
  (** [peer.data(txid)] *)
  data : string -> result exn (list Byte.byte);
  (** [peer.tx_offset(txid)], a dictionary with "size" and "offset" *)
  tx_offset : string -> result exn (pydict string Z);
  (** [peer.tx_data(txid)] *)
  tx_data : string -> result exn (list Byte.byte);
  (** [peer.chunk(offset)], a dictionary with the base64 text in "chunk" *)
  chunk : Z -> result exn (pydict string string);
  b64dec : string -> result exn (list Byte.byte);
  (** [peer.graphql(query)] *)
  graphql : string -> result exn json;
}.

(** What the file manager takes from ritual_arweave.utils and os.path;
    the module utils.py is not among the sources, so its constant and
    helpers are parameters. *)
Record Utils : Type := {
  MAX_NODE_BYTES : Z;
  (** the SHA-256 hex digest of a file's content *)
  sha256_hexdigest : list Byte.byte -> string;
  (** [get_tags_dict(tags)] *)
  get_tags_dict : json -> result exn (pydict string string);
  (** [os.path.abspath(path)] *)
  abspath : string -> string;
  (** the built-in [int(v)] on a value of the GraphQL answer *)
  int : json -> result exn Z;
}.

(** The calls made on the peer and on the local file system, in order. *)
Inductive event : Type :=
| EvData (txid : string)
| EvTxOffset (txid : string)
| EvTxData (txid : string)
| EvChunk (offset : Z)
| EvGraphql (query : string)
| EvExists (path : string)
| EvGetsize (path : string)
| EvDigest (path : string)
| EvLog (line : string).

(** The world a call runs in: the regular files of the local file
    system, by path, and the trace of calls made so far. *)
Record world : Type := {
  files : gmap string (list Byte.byte);
  trace : list event;
}.

Abbreviation io := (stateful world exn).

Definition emit (e : event) : io unit :=
  modify_store (fun w => {| files := files w; trace := trace w ++ [e] |}).

(** A call on the peer, recorded in the trace. *)
Definition peer_call {A} (e : event) (r : result exn A) : io A :=
  _ ← emit e; lift r.

(** [d[k]] *)
Definition subscript {V} (d : pydict string V) (k : string) : result exn V :=
  match dict_get d k with
  | Some v => Ok v
  | None => Raise KeyError
  end.

(** [open(pathname, "wb")]: the file is created or truncated. *)
Definition open_wb (pathname : string) : io unit :=
  modify_store (fun w =>
    {| files := <[pathname := []]> (files w); trace := trace w |}).

(** [binary_file.write(data)]: append to the open file. *)
Definition write (pathname : string) (data : list Byte.byte) : io unit :=
  modify_store (fun w =>
    {| files :=
         <[pathname := app (default [] (files w !! pathname)) data]> (files w);
       trace := trace w |}).

(** [b64dec(self.peer.chunk(offset)["chunk"])] *)
Definition fetch_chunk (peer : Peer) (offset : Z)
  : result exn (list Byte.byte) :=
  d ← chunk peer offset;
  chunkData ← subscript d "chunk";
  b64dec peer chunkData.

(** The [while loaded_bytes < size] loop of [download]. Python gives no
    bound on the number of iterations, so the loop runs on fuel: [None]
    is returned when the fuel runs out before the loop exits. *)
Fixpoint chunk_loop (peer : Peer) (pathname : string)
  (startOffset size : Z) (fuel : nat) (loaded_bytes : Z) : io (option Z) :=
  if (loaded_bytes <? size)%Z then
    match fuel with
    | O => mret None
    | S fuel' =>
        chunkDataDec ← peer_call (EvChunk (startOffset + loaded_bytes))
                         (fetch_chunk peer (startOffset + loaded_bytes));
        _ ← write pathname chunkDataDec;
        chunk_loop peer pathname startOffset size fuel'
          (loaded_bytes + Z.of_nat (length chunkDataDec))
    end
  else mret (Some loaded_bytes).

Definition direct_failed_line (txid : string) : string :=
  "failed to download transaction data for " ++ txid ++ " directly."
  ++ " Will try downloading in chunks.".

(** [FileManager.download]; [None] when the chunk loop ran out of fuel. *)
Definition download (peer : Peer) (utils : Utils) (fuel : nat)
  (pathname txid : string) : io (option string) :=
  let loaded_bytes := 0 in
  _ ← open_wb pathname;
  direct ← try_except
    (data ← peer_call (EvData txid) (data peer txid);
     _ ← write pathname data;
     mret (Some (abspath utils pathname)))
    (fun _ => _ ← emit (EvLog (direct_failed_line txid)); mret None);
  match direct with
  | Some path => mret (Some path)
  | None =>
      chunk_offset ← peer_call (EvTxOffset txid) (tx_offset peer txid);
      size ← lift (subscript chunk_offset "size");
      offset ← lift (subscript chunk_offset "offset");
      let startOffset := offset - size + 1 in
      if (size <? MAX_NODE_BYTES utils)%Z then
        data ← peer_call (EvTxData txid) (tx_data peer txid);
        _ ← write pathname data;
        mret (Some (abspath utils pathname))
      else
        done ← chunk_loop peer pathname startOffset size fuel loaded_bytes;
        match done with
        | Some _ => mret (Some (abspath utils pathname))
        | None => mret None
        end
  end.

(** The GraphQL query of [file_exists], the transaction id in place of
    the [%s] of the template. *)
Definition nl : string := String "010"%char "".
Definition dquote : string := String "034"%char "".

Definition query_str (txid : string) : string :=
  nl ++
  "                query {" ++ nl ++
  "                    transaction(" ++ nl ++
  "                    id: " ++ dquote ++ txid ++ dquote ++ nl ++
  "                    )" ++ nl ++
  "                    {" ++ nl ++
  "                        owner{" ++ nl ++
  "                            address" ++ nl ++
  "                        }" ++ nl ++
  "                        data{" ++ nl ++
  "                            size" ++ nl ++
  "                            type" ++ nl ++
  "                        }" ++ nl ++
  "                        tags{" ++ nl ++
  "                            name" ++ nl ++
  "                            value" ++ nl ++
  "                        }" ++ nl ++
  "                    }" ++ nl ++
  "                }" ++ nl ++
  "            ".

(** [v[k]] on the GraphQL answer *)
Definition getitem (v : json) (k : string) : result exn json :=
  match v with
  | JDict d => subscript d k
  | _ => Raise TypeError
  end.

(** [os.path.exists(path)] *)
Definition os_path_exists (path : string) : io bool :=
  _ ← emit (EvExists path);
  w ← get_store;
  mret (match files w !! path with Some _ => true | None => false end).

(** [os.path.getsize(path)] *)
Definition os_path_getsize (path : string) : io Z :=
  _ ← emit (EvGetsize path);
  w ← get_store;
  match files w !! path with
  | Some content => mret (Z.of_nat (length content))
  | None => raise FileNotFoundError
  end.

(** [int(res["data"]["transaction"]["data"]["size"])] *)
Definition tx_file_size_of (utils : Utils) (res : json) : result exn Z :=
  a ← getitem res "data";
  b ← getitem a "transaction";
  c ← getitem b "data";
  d ← getitem c "size";
  int utils d.

(** [get_tags_dict(res["data"]["transaction"]["tags"])] *)
Definition tx_tags_of (utils : Utils) (res : json)
  : result exn (pydict string string) :=
  a ← getitem res "data";
  b ← getitem a "transaction";
  c ← getitem b "tags";
  get_tags_dict utils c.

(** [get_sha256_digest(path)] of ritual_arweave.utils: the digest of the
    content of the file at [path]. *)
Definition get_sha256_digest (utils : Utils) (path : string) : io string :=
  _ ← emit (EvDigest path);
  w ← get_store;
  match files w !! path with
  | Some content => mret (sha256_hexdigest utils content)
  | None => raise FileNotFoundError
  end.

(** [str(b)] for a [bool] *)
Definition str_bool (b : bool) : string := if b then "True" else "False".

(** The line [_log] writes: the three flags as they stand at the call. *)
Definition log_line (file_path : string)
  (local_file_exists size_matches digest_matches : bool) : string :=
  "file_path=" ++ file_path
  ++ " local_file_exists=" ++ str_bool local_file_exists ++ " "
  ++ "size_matches=" ++ str_bool size_matches
  ++ " digest_matches=" ++ str_bool digest_matches.

(** [tx_tags.get("File-SHA256") == digest] *)
Definition tag_matches (tx_tags : pydict string string) (digest : string)
  : bool :=
  bool_decide (dict_get tx_tags "File-SHA256" = Some digest).

Definition file_exists (peer : Peer) (utils : Utils)
  (file_path txid : string) : io bool :=
  res ← peer_call (EvGraphql (query_str txid))
          (graphql peer (query_str txid));
  tx_file_size ← lift (tx_file_size_of utils res);
  tx_tags ← lift (tx_tags_of utils res);
  let _log := fun le sm dm => emit (EvLog (log_line file_path le sm dm)) in
  local_file_exists ← os_path_exists file_path;
  if negb local_file_exists then
    _ ← _log local_file_exists false false;
    mret false
  else
    file_size ← os_path_getsize file_path;
    let size_matches := (tx_file_size =? file_size)%Z in
    if negb size_matches then
      _ ← _log local_file_exists size_matches false;
      mret false
    else
      digest ← get_sha256_digest utils file_path;
      let digest_matches := tag_matches tx_tags digest in
      _ ← _log local_file_exists size_matches digest_matches;
      mret digest_matches.

(** A peer whose direct download fails and that serves a three-byte
    transaction in chunks of two bytes, for running the model. *)
Definition sample_peer : Peer :=
  {| data := fun _ => Raise PeerError;
     tx_offset := fun _ => Ok [("size", 3); ("offset", 10)];
     tx_data := fun _ => Ok [Byte.x41; Byte.x42];
     chunk := fun _ => Ok [("chunk", "QUI=")];
     b64dec := fun _ => Ok [Byte.x41; Byte.x42];
     graphql := fun _ =>
       Ok (JDict
             [("data",
               JDict
                 [("transaction",
                   JDict
                     [ ("data", JDict [("size", JStr "2")]);
                       ("tags",
                        JList
                          [JDict
                             [ ("name", JStr "File-SHA256");
                               ("value", JStr "digest-of-2-bytes") ]])
                     ])])]) |}.

Definition sample_utils : Utils :=
  {| MAX_NODE_BYTES := 2;
     sha256_hexdigest := fun bs =>
       if (length bs =? 2)%nat then "digest-of-2-bytes" else "other-digest";
     get_tags_dict := fun _ => Ok [("File-SHA256", "digest-of-2-bytes")];
     abspath := fun p => "/data/" ++ p;
     int := fun v =>
       match v with
       | JInt z => Ok z
       | JStr "2" => Ok 2
       | _ => Raise ValueError
       end |}.

Definition sample_world : world :=
  {| files := {[ "model.bin" := [Byte.x41; Byte.x42] ]}; trace := [] |}.

(** The three checks of [file_exists]: the local file exists, its size is
    the transaction's data size, and its SHA-256 digest is the
    transaction's File-SHA256 tag. *)
Definition checks_hold (utils : Utils) (fs : gmap string (list Byte.byte))
  (file_path : string) (tx_file_size : Z) (tx_tags : pydict string string)
  : Prop :=
  exists content,
    fs !! file_path = Some content
    /\ tx_file_size = Z.of_nat (length content)
    /\ dict_get tx_tags "File-SHA256" = Some (sha256_hexdigest utils content).

(** A run of the chunk loop from [loaded_bytes]: the chunks it fetches,
    each at [startOffset] plus the bytes loaded before it, until
    [loaded_bytes] reaches [size]. *)
Inductive chunk_run (peer : Peer) (startOffset size : Z)
  : Z -> list (list Byte.byte) -> Prop :=
| chunk_run_exit loaded_bytes :
    size <= loaded_bytes ->
    chunk_run peer startOffset size loaded_bytes []
| chunk_run_fetch loaded_bytes c cs :
    loaded_bytes < size ->
    fetch_chunk peer (startOffset + loaded_bytes) = Ok c ->
    chunk_run peer startOffset size (loaded_bytes + Z.of_nat (length c)) cs ->
    chunk_run peer startOffset size loaded_bytes (c :: cs).

(** The offsets at which a sequence of chunks is fetched. *)
Fixpoint chunk_offsets (offset : Z) (chunks : list (list Byte.byte)) : list Z :=
  match chunks with
  | [] => []
  | c :: cs => offset :: chunk_offsets (offset + Z.of_nat (length c)) cs
  end.

(** A peer that serves the two bytes of a transaction directly, and a
    peer whose chunks are all empty, for running the model. *)
Definition direct_peer : Peer :=
  {| data := fun _ => Ok [Byte.x41; Byte.x42];
     tx_offset := tx_offset sample_peer;
     tx_data := tx_data sample_peer;
     chunk := chunk sample_peer;
     b64dec := b64dec sample_peer;
     graphql := graphql sample_peer |}.

Definition empty_chunk_peer : Peer :=
  {| data := fun _ => Raise PeerError;
     tx_offset := fun _ => Ok [("size", 3); ("offset", 10)];
     tx_data := fun _ => Raise PeerError;
     chunk := fun _ => Ok [("chunk", "")];
     b64dec := fun _ => Ok [];
     graphql := fun _ => Ok (JDict [("data", JDict [("transaction", JNull)])]) |}.

(** [m] writes no file but the one at [pathname], and does not remove
    that one. *)
Definition writes_only {A} (pathname : string) (m : stateful world exn A)
  : Prop :=
  forall w,
    (is_Some (files w !! pathname) -> is_Some (files (snd (m w)) !! pathname))
    /\ (forall p, p <> pathname -> files (snd (m w)) !! p = files w !! p).

(** The calls [file_exists] makes on the local file between the query
    and the line it logs: [os.path.exists], then [os.path.getsize] when
    the file exists, then the digest when the size matches. *)
Definition checks_made (file_path : string)
  (local_file_exists size_matches : bool) : list event :=
  (EvExists file_path
   :: (if local_file_exists then [EvGetsize file_path] else [])
   ++ (if size_matches then [EvDigest file_path] else []))%list.

(** A peer that answers nothing. *)
Definition failing_peer : Peer :=
  {| data := fun _ => Raise PeerError;
     tx_offset := fun _ => Raise PeerError;
     tx_data := fun _ => Raise PeerError;
     chunk := fun _ => Raise PeerError;
     b64dec := fun _ => Raise ValueError;
     graphql := fun _ => Raise PeerError |}.

(** The answer [res] of the GraphQL query holds a transaction with the
    data size [tx_file_size] and the tags [tx_tags], at the places where
    [file_exists] reads them: the size is
    [int(res["data"]["transaction"]["data"]["size"])] and the tags are
    [get_tags_dict(res["data"]["transaction"]["tags"])]. *)
Definition holds_transaction (utils : Utils) (res : json)
  (tx_file_size : Z) (tx_tags : pydict string string) : Prop :=
  exists top d tx dd sz tags,
    res = JDict top
    /\ dict_get top "data" = Some (JDict d)
    /\ dict_get d "transaction" = Some (JDict tx)
    /\ dict_get tx "data" = Some (JDict dd)
    /\ dict_get dd "size" = Some sz
    /\ int utils sz = Ok tx_file_size
    /\ dict_get tx "tags" = Some tags
    /\ get_tags_dict utils tags = Ok tx_tags.

(** The answer [res] holds no transaction: ["data"]["transaction"] is
    null, as it is for an id the gateway does not know. *)
Definition no_transaction (res : json) : Prop :=
  exists top d,
    res = JDict top
    /\ dict_get top "data" = Some (JDict d)
    /\ dict_get d "transaction" = Some JNull.

(** The chunk the peer serves at [offset] decodes to [bs]:
    [b64dec(peer.chunk(offset)["chunk"])] is [bs]. *)
Definition decodes_to (peer : Peer) (offset : Z) (bs : list Byte.byte)
  : Prop :=
  exists d chunkData,
    chunk peer offset = Ok d
    /\ dict_get d "chunk" = Some chunkData
    /\ b64dec peer chunkData = Ok bs.

(** The values of [loaded_bytes] at which the chunk loop fetches a chunk:
    0 when the size is positive, and then what is loaded after each chunk
    fetched, while that is less than [size]. *)
Inductive fetches (peer : Peer) (startOffset size : Z) : Z -> Prop :=
| fetches_first :
    0 < size -> fetches peer startOffset size 0
| fetches_next loaded_bytes bs :
    fetches peer startOffset size loaded_bytes ->
    decodes_to peer (startOffset + loaded_bytes) bs ->
    loaded_bytes + Z.of_nat (length bs) < size ->
    fetches peer startOffset size (loaded_bytes + Z.of_nat (length bs)).

(** A peer whose direct download fails and that serves the three bytes of
    a transaction in two chunks, at the offsets 8 and 10 and nowhere
    else, for running the model. *)
Definition chunked_peer : Peer :=
  {| data := fun _ => Raise PeerError;
     tx_offset := fun _ => Ok [("size", 3); ("offset", 10)];
     tx_data := fun _ => Raise PeerError;
     chunk := fun offset =>
       if (offset =? 8)%Z then Ok [("chunk", "QUI=")]
       else if (offset =? 10)%Z then Ok [("chunk", "Qw==")]
       else Raise PeerError;
     b64dec := fun chunkData =>
       if decide (chunkData = "QUI=") then Ok [Byte.x41; Byte.x42]
       else if decide (chunkData = "Qw==") then Ok [Byte.x43]
       else Raise ValueError;
     graphql := fun _ => Raise PeerError |}.

End FileManager.

(* ===================================================================== *)
(** ** infernet_services/tests/test_library/config_creator.py *)
(* ===================================================================== *)

Module ConfigCreator.

(** Python values: scalars are held in place, dictionaries and lists are
    objects of the heap, held by reference. *)
Inductive value : Type :=
| VNone
| VBool (b : bool)
| VInt (z : Z)
| VFloat (mantissa exponent : Z)
| VStr (s : string)
| VRef (l : nat).

Inductive obj : Type :=
| ODict (d : pydict string value)
| OList (l : list value).

Inductive exn : Type :=
| KeyError
| TypeError.

Record heap : Type := {
  cells : gmap nat obj;
  next : nat;
}.

Definition empty_heap : heap := {| cells := ∅; next := 0%nat |}.

Abbreviation py := (stateful heap exn).

(** A dictionary or list display allocates a new object. *)
Definition alloc (o : obj) : py value :=
  fun h =>
    (Ok (VRef (next h)),
     {| cells := <[next h := o]> (cells h); next := S (next h) |}).

Definition deref (v : value) : py (nat * obj) :=
  fun h =>
    match v with
    | VRef l =>
        match cells h !! l with
        | Some o => (Ok (l, o), h)
        | None => (Raise TypeError, h)
        end
    | _ => (Raise TypeError, h)
    end.

Definition store (l : nat) (o : obj) : py unit :=
  modify_store (fun h => {| cells := <[l := o]> (cells h); next := next h |}).

(** [v[k]] *)
Definition getitem (v : value) (k : string) : py value :=
  '(_, o) ← deref v;
  match o with
  | ODict d =>
      match dict_get d k with
      | Some x => mret x
      | None => raise KeyError
      end
  | OList _ => raise TypeError
  end.

(** [v[k] = x]: the dictionary [v] refers to is updated in place. *)
Definition setitem (v : value) (k : string) (x : value) : py unit :=
  '(l, o) ← deref v;
  match o with
  | ODict d => store l (ODict (dict_set d k x))
  | OList _ => raise TypeError
  end.

(** [v.append(x)]: the list [v] refers to is updated in place. *)
Definition append (v x : value) : py unit :=
  '(l, o) ← deref v;
  match o with
  | OList xs => store l (OList (xs ++ [x])%list)
  | ODict _ => raise TypeError
  end.

(** [v.copy()] on a dictionary: a new dictionary with the same keys and
    the same values, so a value that is a reference is shared. *)
Definition copy (v : value) : py value :=
  '(_, o) ← deref v;
  match o with
  | ODict d => alloc (ODict d)
  | OList _ => raise TypeError
  end.

(** The module-level [base_config = {...}]. *)
Definition base_config_init : py value :=
  server ← alloc (ODict [("port", VInt 4000)]);
  allowed_sim_errors ← alloc (OList [VStr "reverting"]);
  wallet ← alloc (ODict [ ("max_gas_limit", VInt 4000000);
                          ("private_key", VStr "");
                          ("allowed_sim_errors", allowed_sim_errors) ]);
  chain ← alloc (ODict [ ("enabled", VBool true);
                         ("trail_head_blocks", VInt 0);
                         ("rpc_url", VStr "");
                         ("coordinator_address", VStr "");
                         ("wallet", wallet) ]);
  docker ← alloc (ODict [ ("username", VStr "your-username");
                          ("password", VStr "") ]);
  redis ← alloc (ODict [("host", VStr "redis"); ("port", VInt 6379)]);
  containers ← alloc (OList []);
  alloc (ODict [ ("log_path", VStr "infernet_node.log");
                 ("server", server);
                 ("chain", chain);
                 ("startup_wait", VFloat 10 (-1));
                 ("docker", docker);
                 ("redis", redis);
                 ("forward_stats", VBool true);
                 ("containers", containers) ]).

Record ServiceConfig : Type := {
  name : string;
  image_id : string;
  env_vars : value;
  port : Z;
}.

(** [for x in l: body(x)] *)
Fixpoint for_each {A} (l : list A) (body : A -> py unit) : py unit :=
  match l with
  | [] => mret tt
  | x :: l' => _ ← body x; for_each l' body
  end.

(** The body of the loop of [get_config], for the configuration [cfg]. *)
Definition add_container (cfg : value) (service : ServiceConfig) : py unit :=
  containers ← getitem cfg "containers";
  allowed_delegate_addresses ← alloc (OList []);
  allowed_addresses ← alloc (OList []);
  allowed_ips ← alloc (OList []);
  entry ← alloc (ODict
    [ ("id", VStr (name service));
      ("image", VStr (image_id service));
      ("env", env_vars service);
      ("port", VInt (port service));
      ("allowed_delegate_addresses", allowed_delegate_addresses);
      ("allowed_addresses", allowed_addresses);
      ("allowed_ips", allowed_ips);
      ("command", VStr "--bind=0.0.0.0:3000 --workers=2");
      ("external", VBool true) ]);
  append containers entry.

Definition get_config (base_config : value) (services : list ServiceConfig)
  (private_key coordinator_address payment_address rpc_url : string)
  : py value :=
  cfg ← copy base_config;
  _ ← for_each services (add_container cfg);
  chain ← getitem cfg "chain";
  wallet ← getitem chain "wallet";
  _ ← setitem wallet "private_key" (VStr private_key);
  chain ← getitem cfg "chain";
  wallet ← getitem chain "wallet";
  _ ← setitem wallet "payment_address" (VStr payment_address);
  chain ← getitem cfg "chain";
  _ ← setitem chain "coordinator_address" (VStr coordinator_address);
  chain ← getitem cfg "chain";
  _ ← setitem chain "rpc_url" (VStr rpc_url);
  mret cfg.

(** The tree a value stands for in a heap, as [json.dumps] walks it;
    [None] when the walk is deeper than [depth]. *)
Fixpoint dump (depth : nat) (h : heap) (v : value) : option json :=
  match depth with
  | O => None
  | S depth' =>
      match v with
      | VNone => Some JNull
      | VBool b => Some (JBool b)
      | VInt z => Some (JInt z)
      | VFloat m e => Some (JFloat m e)
      | VStr s => Some (JStr s)
      | VRef l =>
          match cells h !! l with
          | Some (OList xs) => JList <$> mapM (dump depth' h) xs
          | Some (ODict d) =>
              JDict <$>
                mapM (fun kv => pair (fst kv) <$> dump depth' h (snd kv)) d
          | None => None
          end
      end
  end.

(** [len(v["containers"])] in a heap *)
Definition containers_len (h : heap) (v : value) : option nat :=
  match fst (getitem v "containers" h) with
  | Ok (VRef l) =>
      match cells h !! l with
      | Some (OList xs) => Some (length xs)
      | _ => None
      end
  | _ => None
  end.

(** The heap and the [base_config] object after the module is loaded. *)
Definition loaded : result exn value * heap := base_config_init empty_heap.

(** The objects of [base_config] that [get_config] reaches, as the
    module allocates them: the dictionary itself at 7, its "containers"
    list at 6, its "chain" dictionary at 3 and the "wallet" dictionary of
    that at 2; [xs] is the content of the list. *)
Definition base_shape (h : heap) (xs : list value) : Prop :=
  (8 <= next h)%nat
  /\ exists dbase dchain dwallet,
       cells h !! 7%nat = Some (ODict dbase)
       /\ dict_get dbase "containers" = Some (VRef 6)
       /\ dict_get dbase "chain" = Some (VRef 3)
       /\ cells h !! 3%nat = Some (ODict dchain)
       /\ dict_get dchain "wallet" = Some (VRef 2)
       /\ cells h !! 2%nat = Some (ODict dwallet)
       /\ cells h !! 6%nat = Some (OList xs).

(** *** Reading a configuration in a heap *)

(** [v[k1][k2]...] *)
Fixpoint read (v : value) (path : list string) : py value :=
  match path with
  | [] => mret v
  | key :: path' => x ← getitem v key; read x path'
  end.

(** The list object [v["containers"]] holds, in a heap. *)
Definition containers_of (h : heap) (v : value) : option (list value) :=
  match fst (getitem v "containers" h) with
  | Ok (VRef l) =>
      match cells h !! l with
      | Some (OList xs) => Some xs
      | _ => None
      end
  | _ => None
  end.

(** The dictionary [add_container] appends for a service, with its three
    list objects at [a], [b] and [c]. *)
Definition container_entry (service : ServiceConfig) (a b c : nat) : obj :=
  ODict
    [ ("id", VStr (name service));
      ("image", VStr (image_id service));
      ("env", env_vars service);
      ("port", VInt (port service));
      ("allowed_delegate_addresses", VRef a);
      ("allowed_addresses", VRef b);
      ("allowed_ips", VRef c);
      ("command", VStr "--bind=0.0.0.0:3000 --workers=2");
      ("external", VBool true) ].

(** The four objects of an entry of the "containers" list: the
    dictionary, and the lists it holds under "allowed_delegate_addresses",
    "allowed_addresses" and "allowed_ips". *)
Record entry_refs : Type := {
  entry_ref : nat;
  delegate_addresses_ref : nat;
  addresses_ref : nat;
  ips_ref : nat;
}.

Definition objects_of (r : entry_refs) : list nat :=
  [entry_ref r; delegate_addresses_ref r; addresses_ref r; ips_ref r].

(** The value the "containers" list holds for an entry. *)
Definition entry_value (r : entry_refs) : value := VRef (entry_ref r).

(** In the heap [h], the objects [r] are the entry of [service]: its
    dictionary, and three empty lists. *)
Definition holds_entry (h : heap) (service : ServiceConfig) (r : entry_refs)
  : Prop :=
  cells h !! entry_ref r
  = Some (container_entry service (delegate_addresses_ref r)
            (addresses_ref r) (ips_ref r))
  /\ cells h !! delegate_addresses_ref r = Some (OList [])
  /\ cells h !! addresses_ref r = Some (OList [])
  /\ cells h !! ips_ref r = Some (OList []).

(** In the heap [h], [ys] refer to the entries of [services], in order;
    the objects of the entries were allocated at or after [lo], and no
    object belongs to two entries or stands under two keys. *)
Definition entries_at (lo : nat) (h : heap) (services : list ServiceConfig)
  (ys : list value) : Prop :=
  exists refs,
    ys = map entry_value refs
    /\ Forall2 (holds_entry h) services refs
    /\ List.NoDup (flat_map objects_of refs)
    /\ Forall (fun l => (lo <= l < next h)%nat) (flat_map objects_of refs).

(** The heap after a call of [get_config] that returned [cfg]: [cfg] is
    a dictionary of its own, allocated at or after 8, with the keys and
    values of [base_config]; the "containers" list, the "chain"
    dictionary and its "wallet" dictionary are those of [base_config],
    and hold the containers [xs] and the four settings of the call. *)
Definition configured (h : heap) (cfg : value) (xs : list value)
  (private_key coordinator_address payment_address rpc_url : string)
  : Prop :=
  exists lcfg dbase dchain dwallet,
    cfg = VRef lcfg
    /\ (8 <= lcfg < next h)%nat
    /\ cells h !! lcfg = Some (ODict dbase)
    /\ cells h !! 7%nat = Some (ODict dbase)
    /\ dict_get dbase "containers" = Some (VRef 6)
    /\ dict_get dbase "chain" = Some (VRef 3)
    /\ cells h !! 3%nat = Some (ODict dchain)
    /\ dict_get dchain "wallet" = Some (VRef 2)
    /\ dict_get dchain "rpc_url" = Some (VStr rpc_url)
    /\ dict_get dchain "coordinator_address" = Some (VStr coordinator_address)
    /\ cells h !! 2%nat = Some (ODict dwallet)
    /\ dict_get dwallet "private_key" = Some (VStr private_key)
    /\ dict_get dwallet "payment_address" = Some (VStr payment_address)
    /\ cells h !! 6%nat = Some (OList xs).

(** A service without environment variables, for running the model. *)
Definition echo_service : ServiceConfig :=
  {| name := "echo";
     image_id := "ritualnetwork/echo:latest";
     env_vars := VNone;
     port := 3000 |}.

End ConfigCreator.

(* ===================================================================== *)
(** ** config_creator.py: the configuration file and its path *)
(* ===================================================================== *)

Module ConfigFile.

Inductive exn : Type :=
| KeyError
| TypeError
| ValueError (msg : string)
| OSError
| JSONDecodeError.

(** [v[k]] on a value read by [json.load] *)
Definition getitem (v : json) (k : string) : result exn json :=
  match v with
  | JDict d =>
      match dict_get d k with
      | Some x => Ok x
      | None => Raise KeyError
      end
  | _ => Raise TypeError
  end.

(** The values [for container in v] runs through: the elements of a
    list, the keys of a dictionary, the characters of a string; other
    values are not iterable. *)
Definition iterate (v : json) : result exn (list json) :=
  match v with
  | JList l => Ok l
  | JDict d => Ok (map (fun kv => JStr (fst kv)) d)
  | JStr s =>
      Ok (map (fun c => JStr (String c EmptyString)) (list_ascii_of_string s))
  | _ => Raise TypeError
  end.

(** [v == service_name], for a string [service_name] *)
Definition equals_str (v : json) (s : string) : bool :=
  match v with
  | JStr t => bool_decide (t = s)
  | _ => false
  end.

Definition not_found_message (service_name : string) : string :=
  "Service " ++ service_name ++ " not found in config file".

(** The loop of [get_service_port] and the [raise] after it; [int] is
    the built-in conversion. *)
Fixpoint find_port (int : json -> result exn Z) (containers : list json)
  (service_name : string) : result exn Z :=
  match containers with
  | [] => Raise (ValueError (not_found_message service_name))
  | container :: containers' =>
      id ← getitem container "id";
      if equals_str id service_name then
        port ← getitem container "port";
        int port
      else find_port int containers' service_name
  end.

(** [get_service_port]; [config_file] is the outcome of opening the file
    at [config_path()] and of [json.load] on it. *)
Definition get_service_port (int : json -> result exn Z)
  (config_file : result exn json) (service_name : string) : result exn Z :=
  cfg ← config_file;
  containers ← getitem cfg "containers";
  containers ← iterate containers;
  find_port int containers service_name.

(** In the configuration [container] is a dictionary whose "id" is not
    [service_name]. *)
Definition other_service (service_name : string) (container : json) : Prop :=
  exists id,
    getitem container "id" = Ok id /\ equals_str id service_name = false.

(** *** Paths

    [os.path.abspath] gives a normalised absolute path: such a path is
    the list of its components below the root, the root being the empty
    list. On these paths [dirname] drops the last component and leaves
    the root as it is, and [basename] is the last component, the empty
    string for the root. *)
Definition dirname (p : list string) : list string := List.removelast p.

Definition basename (p : list string) : string := List.last p "".

(** [os.path.join(p, c1, c2, ...)] for relative components *)
Definition join (p : list string) (cs : list string) : list string :=
  (p ++ cs)%list.

(** [needle in hay] *)
Fixpoint contains (needle hay : string) : bool :=
  String.prefix needle hay
  || match hay with
     | EmptyString => false
     | String _ hay' => contains needle hay'
     end.

(** The [while "infernet-monorepo" not in basename(top_level_dir)] loop
    of [monorepo_dir]. Python gives no bound on the number of
    iterations, so the loop runs on fuel: [None] is returned when the
    fuel runs out before the loop exits. *)
Fixpoint climb (fuel : nat) (top_level_dir : list string)
  : option (list string) :=
  if contains "infernet-monorepo" (basename top_level_dir)
  then Some top_level_dir
  else
    match fuel with
    | O => None
    | S fuel' => climb fuel' (dirname top_level_dir)
    end.

(** [monorepo_dir()], for the absolute path [file] of the module. *)
Definition monorepo_dir (fuel : nat) (file : list string)
  : option (list string) :=
  climb fuel (dirname (dirname file)).

Definition infernet_services_dir (fuel : nat) (file : list string)
  : option (list string) :=
  d ← monorepo_dir fuel file; Some (join d ["infernet_services"]).

Definition config_path (fuel : nat) (file : list string)
  : option (list string) :=
  d ← infernet_services_dir fuel file; Some (join d ["deploy"; "config.json"]).

(** A configuration file with two entries for the same service, and the
    path of the module in a checkout, for running the model. *)
Definition two_echo_entries : json :=
  JDict
    [ ("log_path", JStr "infernet_node.log");
      ("containers",
       JList [ JDict [("id", JStr "torch"); ("port", JInt 3001)];
               JDict [("id", JStr "echo"); ("port", JInt 3000)];
               JDict [("id", JStr "echo"); ("port", JInt 3002)] ]) ].

Definition int_of_json (v : json) : result exn Z :=
  match v with
  | JInt z => Ok z
  | JBool b => Ok (if b then 1 else 0)
  | _ => Raise TypeError
  end.

Definition module_file : list string :=
  [ "home"; "ci"; "infernet-monorepo"; "infernet_services"; "tests";
    "test_library"; "config_creator.py" ].

End ConfigFile.

(* ===================================================================== *)
(** ** The node: subscription tracker, retry policy and node loop *)
(* ===================================================================== *)

Module Tracker.

(** Modelled from the spec: the node's SubscriptionTracker, RetryPolicy
    and NodeLoop are not among the sources (only the tests that watch the
    node's log are). The definitions of this module follow sections 3,
    4.1, 4.2, 4.5 and 6 of the specification. *)
Inductive Status : Type := PENDING | IN_FLIGHT | FULFILLED | EXHAUSTED.

#[global] Instance Status_eq_dec : EqDecision Status.
Proof. solve_decision. Defined.

Inductive Outcome : Type :=
| Success
| RetryableFailure (reason : string)
| FatalFailure (reason : string).

Inductive exn : Type :=
| DuplicateSubscriptionError
| InvalidTransitionError
| NotFoundError.

(** The identifier of a subscription: the id the coordinator assigned to
    a directly created subscription, or the nonce of a delegated one. *)
Inductive SubscriptionId : Type :=
| OnChainId (id : nat)
| DelegatedNonce (nonce : nat).

#[global] Instance SubscriptionId_eq_dec : EqDecision SubscriptionId.
Proof. solve_decision. Defined.

#[global] Instance SubscriptionId_countable : Countable SubscriptionId.
Proof.
  refine (inj_countable'
    (fun i => match i with OnChainId n => inl n | DelegatedNonce n => inr n end)
    (fun s => match s with inl n => OnChainId n | inr n => DelegatedNonce n end)
    _).
  intros []; reflexivity.
Defined.

Record Subscription : Type := {
  id : SubscriptionId;
  active_at : nat;
  period : nat;
  frequency : nat;
  redundancy : nat;
}.

#[global] Instance Subscription_eq_dec : EqDecision Subscription.
Proof. solve_decision. Defined.

Record AttemptState : Type := {
  attempts : nat;
  last_attempt_at : nat;
  status : Status;
}.

(** The state an interval has when this node first observes it due. *)
Definition fresh : AttemptState :=
  {| attempts := 0; last_attempt_at := 0; status := PENDING |}.

Record RetryPolicy : Type := {
  max_attempts : nat;
  backoff : nat -> nat;
}.

(** Modelled from the spec: the SubscriptionTracker's state (sections 3
    and 4.1). The registry holds subscriptions by identifier, and for every
    (subscription, interval) the fulfillment count observed on chain and
    this node's attempt state. *)
Record tracker : Type := {
  subscriptions : gmap SubscriptionId Subscription;
  fulfillment_count : gmap (SubscriptionId * nat) nat;
  states : gmap (SubscriptionId * nat) AttemptState;
}.

Definition empty_tracker : tracker :=
  {| subscriptions := ∅; fulfillment_count := ∅; states := ∅ |}.

Definition state_of (t : tracker) (k : SubscriptionId * nat) : AttemptState :=
  default fresh (states t !! k).

Definition count_of (t : tracker) (k : SubscriptionId * nat) : nat :=
  default 0%nat (fulfillment_count t !! k).

Definition set_state (t : tracker) (k : SubscriptionId * nat)
  (st : AttemptState) : tracker :=
  {| subscriptions := subscriptions t;
     fulfillment_count := fulfillment_count t;
     states := <[k := st]> (states t) |}.

(** Modelled from the spec: [register] (section 4.1) inserts a new
    subscription and fails when the id is known with other fields. *)
Definition register (sub : Subscription) (t : tracker) : result exn tracker :=
  match subscriptions t !! id sub with
  | None =>
      Ok {| subscriptions := <[id sub := sub]> (subscriptions t);
            fulfillment_count := fulfillment_count t;
            states := states t |}
  | Some known =>
      if decide (known = sub) then Ok t else Raise DuplicateSubscriptionError
  end.

(** [due_at = active_at + interval_index * period] *)
Definition due_at (sub : Subscription) (interval_index : nat) : nat :=
  (active_at sub + interval_index * period sub)%nat.

(** Modelled from the spec: the RetryPolicy's eligibility (section 4.2),
    a first attempt at once, a retry from
    [last_attempt_at + backoff(attempts)] on. *)
Definition eligible (policy : RetryPolicy) (st : AttemptState) (now : nat)
  : bool :=
  bool_decide (attempts st = 0%nat)
  || bool_decide (last_attempt_at st + backoff policy (attempts st) <= now)%nat.

(** Modelled from the spec: membership of (sub, interval_index) in
    [due_intervals(now)] (section 4.1): the interval is due, not complete,
    PENDING and eligible. *)
Definition is_due (policy : RetryPolicy) (t : tracker) (sub : Subscription)
  (interval_index now : nat) : bool :=
  bool_decide (interval_index < frequency sub)%nat
  && bool_decide (due_at sub interval_index <= now)%nat
  && bool_decide (count_of t (id sub, interval_index) < redundancy sub)%nat
  && bool_decide (status (state_of t (id sub, interval_index)) = PENDING)
  && eligible policy (state_of t (id sub, interval_index)) now.

(** Modelled from the spec: [record_attempt_start] (sections 4.1 and 5),
    the compare-and-set from PENDING to IN_FLIGHT that counts the attempt
    and stamps it. *)
Definition record_attempt_start (k : SubscriptionId * nat) (now : nat)
  (t : tracker) : result exn tracker :=
  let st := state_of t k in
  match status st with
  | PENDING =>
      Ok (set_state t k {| attempts := S (attempts st);
                           last_attempt_at := now;
                           status := IN_FLIGHT |})
  | _ => Raise InvalidTransitionError
  end.

Definition with_status (st : AttemptState) (s : Status) : AttemptState :=
  {| attempts := attempts st;
     last_attempt_at := last_attempt_at st;
     status := s |}.

(** Modelled from the spec: [record_attempt_result] (section 4.1).
    Success gives FULFILLED; a retryable failure gives PENDING while
    [attempts < max_attempts] and EXHAUSTED otherwise; a fatal failure
    gives EXHAUSTED. The result of an attempt that is no longer in flight
    (the interval was completed on chain meanwhile) is discarded. *)
Definition record_attempt_result (policy : RetryPolicy)
  (k : SubscriptionId * nat) (outcome : Outcome) (t : tracker) : tracker :=
  let st := state_of t k in
  match status st with
  | IN_FLIGHT =>
      match outcome with
      | Success => set_state t k (with_status st FULFILLED)
      | RetryableFailure _ =>
          if bool_decide (attempts st < max_attempts policy)%nat
          then set_state t k (with_status st PENDING)
          else set_state t k (with_status st EXHAUSTED)
      | FatalFailure _ => set_state t k (with_status st EXHAUSTED)
      end
  | _ => t
  end.

(** Modelled from the spec: [observe_chain_fulfillment] (section 4.1). *)
Definition observe_chain_fulfillment (sub : Subscription)
  (interval_index fulfiller_count : nat) (t : tracker) : tracker :=
  let k := (id sub, interval_index) in
  let t' := {| subscriptions := subscriptions t;
               fulfillment_count :=
                 <[k := fulfiller_count]> (fulfillment_count t);
               states := states t |} in
  if bool_decide (redundancy sub <= fulfiller_count)%nat then
    match status (state_of t k) with
    | IN_FLIGHT => set_state t' k (with_status (state_of t k) FULFILLED)
    | _ => t'
    end
  else t'.

(** The identifier as it is printed in the log. *)
Definition show_id (i : SubscriptionId) : string :=
  match i with
  | OnChainId n => pretty n
  | DelegatedNonce n => pretty n
  end.

Definition give_up_message : string :=
  "Subscription has exceeded the maximum number of attempts".

(** Modelled from the spec: the line logged on permanent give-up
    (section 6), the message followed by the identifier. *)
Definition give_up_line (i : SubscriptionId) : string :=
  give_up_message ++ " id=" ++ show_id i.

(** [needle in hay] *)
Fixpoint contains (needle hay : string) : bool :=
  String.prefix needle hay
  || match hay with
     | EmptyString => false
     | String _ hay' => contains needle hay'
     end.

(** [hay] drops its first [n] characters. *)
Fixpoint string_drop (n : nat) (hay : string) : string :=
  match n, hay with
  | O, _ => hay
  | S n', String _ hay' => string_drop n' hay'
  | S _, EmptyString => EmptyString
  end.

(** A line matches the pattern of the tests, the message followed, after
    any text, by the identifier. *)
Definition matches_give_up (ident line : string) : bool :=
  String.prefix give_up_message line
  && contains ident (string_drop (String.length give_up_message) line).

(** The JobRunner together with the on-chain submission: the outcome of
    the n-th attempt on an interval. *)
Definition JobRunner : Type := SubscriptionId -> nat -> nat -> Outcome.

(** The node: its clock, the tracker and the log it has written. *)
Record node : Type := {
  clock : nat;
  trk : tracker;
  log : list string;
}.

(** Modelled from the spec: the NodeLoop's sequence for a due interval
    (section 4.5), [record_attempt_start], the job, then
    [record_attempt_result]; a terminal give-up is logged. An interval
    that another task holds in flight is skipped. *)
Definition attempt (policy : RetryPolicy) (runner : JobRunner)
  (sub : Subscription) (interval_index : nat) (n : node) : node :=
  let k := (id sub, interval_index) in
  match record_attempt_start k (clock n) (trk n) with
  | Raise _ => n
  | Ok t1 =>
      let outcome :=
        runner (id sub) interval_index (attempts (state_of t1 k)) in
      let t2 := record_attempt_result policy k outcome t1 in
      {| clock := clock n;
         trk := t2;
         log := if decide (status (state_of t2 k) = EXHAUSTED)
                then log n ++ [give_up_line (id sub)]
                else log n |}
  end.

(** Modelled from the spec: the tie-break of section 4.2 between
    intervals that are due together, ascending [due_at], then ascending
    subscription identifier, then ascending interval index. The spec
    does not order an on-chain id against a delegation nonce: they are
    compared by number, an id before a nonce of the same number. *)
Definition sort_key (x : Subscription * nat) : list nat :=
  [ due_at (fst x) (snd x);
    match id (fst x) with OnChainId i => i | DelegatedNonce nonce => nonce end;
    match id (fst x) with OnChainId _ => 0 | DelegatedNonce _ => 1 end;
    snd x ]%nat.

Fixpoint lex_le (a b : list nat) : bool :=
  match a, b with
  | [], _ => true
  | _ :: _, [] => false
  | x :: a', y :: b' => (x <? y)%nat || ((x =? y)%nat && lex_le a' b')
  end.

Definition before (x y : Subscription * nat) : Prop :=
  lex_le (sort_key x) (sort_key y) = true.

#[global] Instance before_dec x y : Decision (before x y).
Proof. unfold before. apply _. Defined.

(** Every interval of every registered subscription. *)
Definition candidates (t : tracker) : list (Subscription * nat) :=
  flat_map (fun js => map (pair (snd js)) (seq 0 (frequency (snd js))))
    (map_to_list (subscriptions t)).

(** Modelled from the spec: [due_intervals(now)] (section 4.1), the
    intervals of the registered subscriptions that are due, recomputed
    from the current state at each call, in the order of the
    tie-break. *)
Definition due_intervals (policy : RetryPolicy) (t : tracker) (now : nat)
  : list (Subscription * nat) :=
  merge_sort before
    (List.filter (fun x => is_due policy t (fst x) (snd x) now)
       (candidates t)).

(** Modelled from the spec: one round of the NodeLoop (section 4.5):
    pull [due_intervals], attempt each of them in turn, then sleep for
    the polling interval. *)
Definition tick (policy : RetryPolicy) (runner : JobRunner) (poll : nat)
  (n : node) : node :=
  let n' :=
    fold_left (fun n x => attempt policy runner (fst x) (snd x) n)
      (due_intervals policy (trk n) (clock n)) n in
  {| clock := (clock n' + poll)%nat; trk := trk n'; log := log n' |}.

(** [rounds] rounds of the node loop. *)
Fixpoint node_loop (policy : RetryPolicy) (runner : JobRunner) (poll : nat)
  (rounds : nat) (n : node) : node :=
  match rounds with
  | O => n
  | S r => node_loop policy runner poll r (tick policy runner poll n)
  end.

(** Modelled from the spec: the subscriptions the node has polled are
    registered in turn; one that [register] refuses is skipped
    (section 7). *)
Definition ingest (subs : list Subscription) (t : tracker) : tracker :=
  fold_left (fun t sub =>
               match register sub t with
               | Ok t' => t'
               | Raise _ => t
               end) subs t.

(** A node that starts at time [t0] and has just registered [subs]. *)
Definition start (t0 : nat) (subs : list Subscription) : node :=
  {| clock := t0; trk := ingest subs empty_tracker; log := [] |}.

(** The state after one attempt that fails retryably. *)
Definition failed_once (policy : RetryPolicy) (st : AttemptState) (now : nat)
  : AttemptState :=
  {| attempts := S (attempts st);
     last_attempt_at := now;
     status := if bool_decide (S (attempts st) < max_attempts policy)%nat
               then PENDING else EXHAUSTED |}.

(** The time from which an interval in state [st] is due. *)
Definition deadline (policy : RetryPolicy) (sub : Subscription)
  (interval_index : nat) (st : AttemptState) : nat :=
  Nat.max (due_at sub interval_index)
    (if bool_decide (attempts st = 0%nat) then 0%nat
     else (last_attempt_at st + backoff policy (attempts st))%nat).

(** The intervals of [sub] this node has given up. *)
Definition given_up (t : tracker) (sub : Subscription) : nat :=
  length
    (List.filter
       (fun i => bool_decide (status (state_of t (id sub, i)) = EXHAUSTED))
       (seq 0 (frequency sub))).

(** An interval of a subscription of the registry. *)
Definition tracked (registry : gmap SubscriptionId Subscription)
  (x : Subscription * nat) : Prop :=
  registry !! id (fst x) = Some (fst x) /\ (snd x < frequency (fst x))%nat.

(** The identifier of a subscription as the tests look for it in the
    log: the decimal of the on-chain id of a directly created
    subscription, of the delegation nonce of a delegated one. *)
Definition identifier (sub : Subscription) : string :=
  match id sub with
  | OnChainId i => pretty i
  | DelegatedNonce nonce => pretty nonce
  end.

(** What holds of the node at every round, for a registered subscription
    [sub] whose attempts all fail retryably: the registry is as it was,
    nothing was fulfilled on chain, every interval of [sub] is either
    pending with attempts left or exhausted after [max_attempts]
    attempts, and the log has one matching give-up line for each
    interval given up. *)
Definition retrying (policy : RetryPolicy)
  (registry : gmap SubscriptionId Subscription) (sub : Subscription)
  (n : node) : Prop :=
  subscriptions (trk n) = registry
  /\ (forall i, count_of (trk n) (id sub, i) = 0%nat)
  /\ (forall i,
        (status (state_of (trk n) (id sub, i)) = PENDING
         /\ (attempts (state_of (trk n) (id sub, i)) < max_attempts policy)%nat)
        \/ (status (state_of (trk n) (id sub, i)) = EXHAUSTED
            /\ attempts (state_of (trk n) (id sub, i)) = max_attempts policy))
  /\ List.filter (matches_give_up (identifier sub)) (log n)
     = repeat (give_up_message ++ " id=" ++ identifier sub)
         (given_up (trk n) sub).

End Tracker.

(* ===================================================================== *)
(** * Part II: properties *)
(* ===================================================================== *)

(** ** Dictionaries *)

Section PyDictProperties.
Context {K V : Type} `{EqDecision K}.

Lemma dict_get_set_eq (d : pydict K V) (k : K) (v : V) :
  dict_get (dict_set d k v) k = Some v.
Proof.
  induction d as [|[k0 v0] d IH]; simpl.
  - destruct (decide (k = k)); [ reflexivity | contradiction ].
  - destruct (decide (k0 = k)) as [->|Hne]; simpl.
    + destruct (decide (k = k)); [ reflexivity | contradiction ].
    + destruct (decide (k0 = k)); [ contradiction | exact IH ].
Qed.

Lemma dict_get_set_other (d : pydict K V) (k k' : K) (v : V) :
  k <> k' -> dict_get (dict_set d k v) k' = dict_get d k'.
Proof.
  intros Hne. induction d as [|[k0 v0] d IH]; simpl.
  - destruct (decide (k = k')); [ contradiction | reflexivity ].
  - destruct (decide (k0 = k)) as [->|Hk]; simpl.
    + destruct (decide (k = k')); [ contradiction | reflexivity ].
    + destruct (decide (k0 = k')); [ reflexivity | exact IH ].
Qed.

Lemma dict_get_None (d : pydict K V) (k : K) :
  dict_get d k = None <-> ~ In k (map fst d).
Proof.
  induction d as [|[k0 v0] d IH]; simpl.
  - tauto.
  - destruct (decide (k0 = k)) as [->|Hne].
    + split; [ discriminate | tauto ].
    + rewrite IH. tauto.
Qed.

Lemma dict_set_keys (d : pydict K V) (k : K) (v : V) :
  map fst (dict_set d k v) =
    match dict_get d k with
    | Some _ => map fst d
    | None => (map fst d ++ [k])%list
    end.
Proof.
  induction d as [|[k0 v0] d IH]; simpl; [ reflexivity | ].
  destruct (decide (k0 = k)) as [->|Hne]; simpl; [ reflexivity | ].
  rewrite IH. destruct (dict_get d k); reflexivity.
Qed.

(** Unique keys stay unique under [d[k] = v]. *)
Lemma dict_set_NoDup (d : pydict K V) (k : K) (v : V) :
  List.NoDup (map fst d) -> List.NoDup (map fst (dict_set d k v)).
Proof.
  intros Hd. rewrite dict_set_keys.
  destruct (dict_get d k) eqn:Hk; [ exact Hd | ].
  apply dict_get_None in Hk.
  apply NoDup_ListNoDup, NoDup_app. repeat split.
  - apply NoDup_ListNoDup. exact Hd.
  - intros x Hx Hx'. apply list_elem_of_In in Hx.
    apply list_elem_of_singleton in Hx'. subst x. contradiction.
  - apply NoDup_singleton.
Qed.

(** [{**a, **b}[k]] is [b[k]] where [b] has the key, [a[k]] elsewhere. *)
Lemma dict_get_merge (a b : pydict K V) (k : K) :
  List.NoDup (map fst b) ->
  dict_get (dict_merge a b) k =
    match dict_get b k with
    | Some v => Some v
    | None => dict_get a k
    end.
Proof.
  unfold dict_merge. revert a.
  induction b as [|[k0 v0] b IH]; intros a Hb; simpl; [ reflexivity | ].
  inversion Hb as [|? ? Hnotin Hb']; subst.
  rewrite (IH _ Hb').
  destruct (decide (k0 = k)) as [->|Hne].
  - assert (Hnone : dict_get b k = None) by (apply dict_get_None; exact Hnotin).
    rewrite Hnone. apply dict_get_set_eq.
  - destruct (dict_get b k); [ reflexivity | ].
    apply dict_get_set_other. exact Hne.
Qed.

End PyDictProperties.

(** ** css_mux.py *)

Section CssMuxProperties.
Import CssMux.

Lemma bind_Ok {E A B} (a : A) (k : A -> result E B) : Ok a ≫= k = k a.
Proof. reflexivity. Qed.

Lemma bind_ok {E A B} (r : result E A) (k : A -> result E B) (b : B) :
  r ≫= k = Ok b -> exists a, r = Ok a /\ k a = Ok b.
Proof. destruct r as [a|e]; simpl; [eauto | discriminate]. Qed.

Lemma bind_raise {E A B} (r : result E A) (k : A -> result E B) (e : E) :
  r ≫= k = Raise e -> r = Raise e \/ exists a, r = Ok a /\ k a = Raise e.
Proof. destruct r as [a|e']; simpl; [eauto | intros [= ->]; auto]. Qed.

Lemma getitem_unclassified v k : raises_unclassified (getitem v k).
Proof.
  destruct v; simpl; auto. unfold subscript.
  destruct (dict_get d k); simpl; auto.
Qed.

Lemma getitem0_unclassified v : raises_unclassified (getitem0 v).
Proof.
  destruct v as [| | | |s|l|d]; simpl; auto.
  - destruct s; simpl; auto.
  - destruct l; simpl; auto.
Qed.

Lemma bind_unclassified {A B} (r : result exn A) (k : A -> result exn B) :
  raises_unclassified r -> (forall a, raises_unclassified (k a)) ->
  raises_unclassified (r ≫= k).
Proof. destruct r; simpl; auto. Qed.

Lemma post_process_unclassified p entry e ep v :
  dict_get PROVIDERS p = Some entry ->
  dict_get (endpoints entry) e = Some ep ->
  raises_unclassified (post_process ep v).
Proof.
  intros Hp He.
  assert (Hfun : post_process ep = chat_post_process
                 \/ post_process ep = embedding_post_process
                 \/ post_process ep = text_post_process).
  { destruct p; simpl in Hp; injection Hp as <-; simpl in He;
      repeat (case_decide; [injection He as <-; simpl; auto | ]);
      discriminate. }
  destruct Hfun as [-> | [-> | ->]]; unfold chat_post_process,
    embedding_post_process, text_post_process;
    repeat (apply bind_unclassified; [ | intros ? ]);
    auto using getitem_unclassified, getitem0_unclassified.
Qed.

Lemma validate_ok req :
  validate req = Ok tt ->
  exists key entry ep,
    dict_get (api_keys req) (provider req) = Some (Some key)
    /\ dict_get PROVIDERS (provider req) = Some entry
    /\ dict_get (endpoints entry) (endpoint req) = Some ep.
Proof.
  unfold validate, api_keys_get, dict_in, subscript.
  destruct (dict_get PROVIDERS (provider req)) as [entry|] eqn:Hp;
    simpl; [ | discriminate ].
  destruct (dict_get (api_keys req) (provider req)) as [[key|]|] eqn:Hk;
    simpl; try discriminate.
  destruct (dict_get (endpoints entry) (endpoint req)) as [ep|] eqn:He;
    simpl; [ | discriminate ].
  intros _. eauto 10.
Qed.

Lemma input_func_of p entry :
  dict_get PROVIDERS p = Some entry ->
  input_func entry =
    match p with
    | OPENAI => open_ai_helper
    | PERPLEXITYAI => ppl_ai_helper
    | GOOSEAI => goose_ai_helper
    end.
Proof. destruct p; simpl; intros [= <-]; reflexivity. Qed.

Lemma input_func_accepted req entry :
  dict_get PROVIDERS (provider req) = Some entry ->
  (accepted req -> exists url body, input_func entry req = Ok (url, body))
  /\ (~ accepted req ->
      exists msg, input_func entry req = Raise (InfernetMLException msg)).
Proof.
  intros Hp. rewrite (input_func_of _ _ Hp). unfold accepted.
  unfold open_ai_helper, ppl_ai_helper, goose_ai_helper.
  destruct (provider req); destruct (params req) as [msgs|input];
    try (split; [ eauto | tauto ]); try (split; [ tauto | eauto ]).
  destruct msgs as [|m [|m' msgs]]; simpl;
    try (split; [ eauto | tauto ]); try (split; [ tauto | eauto ]).
Qed.

Example get_request_configuration_openai :
  get_request_configuration openai_chat [("temperature", JInt 0)]
  = Ok ("https://api.openai.com/v1/chat/completions",
        [ ("Content-Type", "application/json");
          ("Authorization", "Bearer sk-openai") ],
        [ ("model", JStr "gpt-4");
          ("messages",
           JList [JDict [("role", JStr "user"); ("content", JStr "hello")]]);
          ("temperature", JInt 0) ]).
Proof. reflexivity. Qed.

Example css_mux_ok :
  css_mux (answering 200 "" (Some chat_body)) openai_chat None
  = Ok (JStr "hi").
Proof. reflexivity. Qed.

Example css_mux_too_many_requests :
  css_mux (answering 429 "slow down" None) perplexity_chat None
  = Raise (RetryableException (Text "slow down")).
Proof. reflexivity. Qed.

(** C10. For a GOOSEAI request, [goose_ai_helper] returns the engine URL
    built from the model name and the body [{"prompt": content}] of the
    sole message when the completion params hold exactly one message; for
    any other number of messages and for embedding params it raises
    [InfernetMLException]. *)
Theorem goose_ai_helper_one_message (req : CSSRequest) :
  match params req with
  | CSSCompletionParams [m] =>
      goose_ai_helper req =
        Ok ("https://api.goose.ai/v1/engines/" ++ model req ++ "/",
            [("prompt", JStr (content m))])
  | CSSCompletionParams msgs =>
      length msgs <> 1%nat
      /\ goose_ai_helper req =
           Raise
             (InfernetMLException
                (Text "GOOSE AI API only accepts one message from role user!"))
  | CSSEmbeddingParams _ =>
      goose_ai_helper req = Raise (InfernetMLException (UnsupportedRequest req))
  end.
Proof.
  unfold goose_ai_helper.
  destruct (params req) as [[|m [|m' msgs]]|input]; simpl; auto.
Qed.

(** C9, as amended. On a request that [validate] accepts, the API-key
    lookup and the provider and endpoint table lookups of
    [get_request_configuration] succeed, and the function returns a
    (url, headers, body) triple exactly when the provider's input function
    accepts the params: any params for OPENAI, completion params for
    PERPLEXITYAI, completion params with exactly one message for GOOSEAI;
    on every other validated request it raises [InfernetMLException]. *)
Theorem validate_then_request_configuration
  (req : CSSRequest) (extra_args : pydict string json) :
  validate req = Ok tt ->
  (accepted req ->
   exists url headers body,
     get_request_configuration req extra_args = Ok (url, headers, body))
  /\ (~ accepted req ->
      exists msg,
        get_request_configuration req extra_args
        = Raise (InfernetMLException msg)).
Proof.
  intros Hv. destruct (validate_ok _ Hv) as (key & entry & ep & Hk & Hp & He).
  destruct (input_func_accepted req entry Hp) as [Hyes Hno].
  unfold get_request_configuration, subscript.
  rewrite Hk, bind_Ok; cbv beta zeta. rewrite Hp, bind_Ok; cbv beta.
  rewrite He, bind_Ok; cbv beta zeta.
  split; intros Ha.
  - destruct (Hyes Ha) as (url & body & ->). simpl. eauto.
  - destruct (Hno Ha) as (msg & ->). simpl. eauto.
Qed.

Lemma validate_then_request_configuration_witness :
  validate goose_two_messages = Ok tt
  /\ ((accepted goose_two_messages ->
       exists url headers body,
         get_request_configuration goose_two_messages []
         = Ok (url, headers, body))
      /\ (~ accepted goose_two_messages ->
          exists msg,
            get_request_configuration goose_two_messages []
            = Raise (InfernetMLException msg))).
Proof.
  split; [ reflexivity | ].
  apply (validate_then_request_configuration goose_two_messages []).
  reflexivity.
Defined.

(** C9, the claim as stated fails: a GOOSEAI completion request with two
    messages passes [validate], and [get_request_configuration] raises. *)
Lemma validate_not_sufficient :
  validate goose_two_messages = Ok tt
  /\ get_request_configuration goose_two_messages []
     = Raise (InfernetMLException
                (Text "GOOSE AI API only accepts one message from role user!")).
Proof. split; reflexivity. Qed.

Lemma check_status_retried p resp :
  status_code resp <> 200 ->
  (retried p (status_code resp) ->
   check_status p resp = Raise (RetryableException (Text (text resp))))
  /\ (~ retried p (status_code resp) -> check_status p resp = Ok tt).
Proof.
  intros H200. unfold check_status, retried.
  destruct (Z.eqb_spec (status_code resp) 200) as [|_]; [ contradiction | ].
  destruct (Z.eqb_spec (status_code resp) 429) as [E429|N429];
    destruct (Z.eqb_spec (status_code resp) 500) as [E500|N500];
    destruct p; simpl; split; intros H; try reflexivity;
    try (exfalso; intuition (discriminate || lia)).
Qed.

Lemma css_mux_after_post post req extra_args url headers body resp :
  get_request_configuration req (default [] extra_args)
  = Ok (url, headers, body) ->
  post url headers body = Ok resp ->
  exists entry ep,
    dict_get PROVIDERS (provider req) = Some entry
    /\ dict_get (endpoints entry) (endpoint req) = Some ep
    /\ css_mux post req extra_args =
       (check_status (provider req) resp ≫= fun _ =>
        response_json resp ≫= post_process ep).
Proof.
  intros Hcfg Hpost.
  assert (Hmux : css_mux post req extra_args =
    (check_status (provider req) resp ≫= fun _ =>
     response_json resp ≫= fun response =>
     subscript PROVIDERS (provider req) ≫= fun entry =>
     subscript (endpoints entry) (endpoint req) ≫= fun ep =>
     post_process ep response)).
  { unfold css_mux. destruct extra_args; simpl in Hcfg |- *;
      rewrite Hcfg, bind_Ok; cbv beta iota zeta; rewrite Hpost; reflexivity. }
  unfold get_request_configuration in Hcfg. cbv zeta in Hcfg.
  apply bind_ok in Hcfg as (key & _ & Hcfg).
  apply bind_ok in Hcfg as (entry & Hp & Hcfg).
  apply bind_ok in Hcfg as (ep & He & _).
  unfold subscript in Hp, He.
  destruct (dict_get PROVIDERS (provider req)) as [entry'|] eqn:Hp';
    [ injection Hp as -> | discriminate ].
  destruct (dict_get (endpoints entry) (endpoint req)) as [ep'|] eqn:He';
    [ injection He as -> | discriminate ].
  exists entry, ep. repeat split; auto.
  rewrite Hmux. unfold subscript. rewrite Hp'.
  destruct (check_status (provider req) resp); [ | reflexivity ].
  destruct (response_json resp); [ | reflexivity ].
  simpl. rewrite He'. reflexivity.
Qed.

(** C2, as amended. When the request was sent and the response has a
    status other than 200, [css_mux] raises [RetryableException], with the
    response text, exactly when the status is 429, or is 500 and the
    provider is OPENAI or GOOSEAI. *)
Theorem css_mux_retryable_statuses
  (post : transport) (req : CSSRequest)
  (extra_args : option (pydict string json))
  (url : string) (headers : pydict string string)
  (body : pydict string json) (resp : Response) :
  get_request_configuration req (default [] extra_args)
  = Ok (url, headers, body) ->
  post url headers body = Ok resp ->
  status_code resp <> 200 ->
  (retried (provider req) (status_code resp) ->
   css_mux post req extra_args = Raise (RetryableException (Text (text resp))))
  /\ ((exists msg,
         css_mux post req extra_args = Raise (RetryableException msg)) ->
      retried (provider req) (status_code resp)).
Proof.
  intros Hcfg Hpost H200.
  destruct (css_mux_after_post _ _ _ _ _ _ _ Hcfg Hpost)
    as (entry & ep & Hp & He & ->).
  destruct (check_status_retried (provider req) resp H200) as [Hyes Hno].
  split.
  - intros Hr. rewrite (Hyes Hr). reflexivity.
  - intros [msg Hraise].
    assert (Hdec : retried (provider req) (status_code resp)
                   \/ ~ retried (provider req) (status_code resp)).
    { unfold retried.
      destruct (Z.eq_dec (status_code resp) 429); [ tauto | ].
      destruct (Z.eq_dec (status_code resp) 500); [ | right; tauto ].
      destruct (provider req); (left; tauto) || (right; intuition congruence). }
    destruct Hdec as [Hr|Hn]; [ exact Hr | exfalso ].
    rewrite (Hno Hn), bind_Ok in Hraise.
    assert (Hu : raises_unclassified (response_json resp ≫= post_process ep)).
    { apply bind_unclassified.
      - unfold response_json. destruct (json_body resp); simpl; auto.
      - intros v. eapply post_process_unclassified; eauto. }
    rewrite Hraise in Hu. exact Hu.
Qed.

Lemma css_mux_retryable_statuses_witness :
  css_mux (answering 500 "overloaded" None) openai_chat None
  = Raise (RetryableException (Text "overloaded")).
Proof.
  refine (proj1 (css_mux_retryable_statuses
            (answering 500 "overloaded" None) openai_chat None
            _ _ _
            {| status_code := 500; text := "overloaded"; json_body := None |}
            eq_refl eq_refl _) _).
  - simpl. lia.
  - right. simpl. auto.
Defined.

(** C2, the claim as stated fails. A 400 answer with an error body makes
    [css_mux] raise [KeyError], not [InfernetMLException]; a 404 answer
    whose body has the shape of a completion is post-processed and
    returned; a 503 answer to OPENAI and a 500 answer to PERPLEXITYAI are
    not raised as [RetryableException]. *)
Lemma css_mux_not_classified :
  css_mux (answering 400 "bad request" (Some error_body)) openai_chat None
  = Raise KeyError
  /\ css_mux (answering 404 "not found" (Some chat_body)) openai_chat None
     = Ok (JStr "hi")
  /\ css_mux (answering 503 "unavailable" None) openai_chat None
     = Raise JSONDecodeError
  /\ css_mux (answering 500 "server error" None) perplexity_chat None
     = Raise JSONDecodeError.
Proof. repeat split; reflexivity. Qed.

(** *** Further properties of css_mux.py *)

(** Reduce a bind whose first computation has returned. *)
Ltac step_ok :=
  rewrite ?bind_Ok; cbv beta iota; rewrite ?bind_Ok; cbv beta iota.

Lemma endpoint_in_table p entry e :
  dict_get PROVIDERS p = Some entry ->
  dict_in e (endpoints entry) = true <-> supported p e.
Proof.
  unfold supported, dict_in.
  destruct p; simpl; intros [= <-]; simpl;
    repeat (destruct (decide (_ = e)) as [<-|?]; simpl);
    split; intros; try reflexivity; try discriminate;
    try tauto; intuition congruence.
Qed.

(** X1. [validate] checks the API key before the endpoint. A request
    whose key for its provider is missing or [None] raises
    [APIKeyMissingException], whatever its endpoint; with a key, the
    request passes exactly when the endpoint is "completions", or
    "embeddings" for OPENAI, and raises [InfernetMLException] otherwise.
    "Provider not supported!" is never raised. *)
Theorem validate_outcome (req : CSSRequest) :
  match dict_get (api_keys req) (provider req) with
  | Some (Some _) =>
      (supported (provider req) (endpoint req) -> validate req = Ok tt)
      /\ (~ supported (provider req) (endpoint req) ->
          validate req =
            Raise (InfernetMLException
                     (Text "Endpoint not supported for your provider!")))
  | _ =>
      validate req =
        Raise (APIKeyMissingException (ApiKeyNotSpecified (provider req)))
  end.
Proof.
  unfold validate, api_keys_get.
  assert (Hin : dict_in (provider req) PROVIDERS = true)
    by (destruct (provider req); reflexivity).
  rewrite Hin. simpl negb. cbv iota.
  destruct (dict_get (api_keys req) (provider req)) as [[key|]|];
    try reflexivity.
  unfold subscript.
  destruct (dict_get PROVIDERS (provider req)) as [entry|] eqn:Hp;
    [ | destruct (provider req); discriminate ].
  step_ok.
  pose proof (endpoint_in_table _ _ (endpoint req) Hp) as Hsup.
  destruct (dict_in (endpoint req) (endpoints entry)); simpl; split.
  - reflexivity.
  - intros Hn. exfalso. apply Hn, Hsup. reflexivity.
  - intros Hs. apply Hsup in Hs. discriminate.
  - reflexivity.
Qed.

Lemma provider_input_of req entry :
  dict_get PROVIDERS (provider req) = Some entry ->
  input_func entry req = provider_input req.
Proof.
  intros Hp. rewrite (input_func_of _ _ Hp). unfold provider_input.
  destruct (provider req); reflexivity.
Qed.

Lemma request_configuration_ok req extra_args url headers body :
  get_request_configuration req extra_args = Ok (url, headers, body) ->
  exists key entry ep base proc_input,
    dict_get (api_keys req) (provider req) = Some key
    /\ dict_get PROVIDERS (provider req) = Some entry
    /\ dict_get (endpoints entry) (endpoint req) = Some ep
    /\ provider_input req = Ok (base, proc_input)
    /\ url = base ++ real_endpoint ep
    /\ headers = [ ("Content-Type", "application/json");
                   ("Authorization", bearer key) ]
    /\ body = dict_merge proc_input extra_args.
Proof.
  unfold get_request_configuration, subscript. cbv zeta.
  destruct (dict_get (api_keys req) (provider req)) as [key|] eqn:Hk;
    [ step_ok | discriminate ].
  destruct (dict_get PROVIDERS (provider req)) as [entry|] eqn:Hp;
    [ step_ok | discriminate ].
  destruct (dict_get (endpoints entry) (endpoint req)) as [ep|] eqn:He;
    [ step_ok | discriminate ].
  rewrite (provider_input_of _ _ Hp).
  destruct (provider_input req) as [[base proc_input]|e] eqn:Hin;
    [ step_ok | discriminate ].
  intros [= <- <- <-]. exists key, entry, ep, base, proc_input.
  repeat split; auto.
Qed.

(** X2. In the body [get_request_configuration] returns, a key of
    [extra_args] has the value [extra_args] gives it, also where the
    provider's input function set the same key ("model", "messages",
    "input", "prompt"); a key [extra_args] does not have keeps the value
    of the input function. *)
Theorem request_body_prefers_extra_args
  (req : CSSRequest) (extra_args : pydict string json)
  (url : string) (headers : pydict string string)
  (body : pydict string json) :
  List.NoDup (map fst extra_args) ->
  get_request_configuration req extra_args = Ok (url, headers, body) ->
  exists base proc_input,
    provider_input req = Ok (base, proc_input)
    /\ forall key,
         dict_get body key =
           match dict_get extra_args key with
           | Some v => Some v
           | None => dict_get proc_input key
           end.
Proof.
  intros Hkeys Hcfg.
  destruct (request_configuration_ok _ _ _ _ _ Hcfg)
    as (key & entry & ep & base & proc_input & _ & _ & _ & Hin & _ & _ & ->).
  exists base, proc_input. split; [ exact Hin | ].
  intros k. apply dict_get_merge. exact Hkeys.
Qed.

Lemma request_body_prefers_extra_args_witness :
  List.NoDup (map fst [("model", JStr "gpt-3.5-turbo")])
  /\ exists base proc_input,
       provider_input openai_chat = Ok (base, proc_input)
       /\ forall key,
            dict_get
              [ ("model", JStr "gpt-3.5-turbo");
                ("messages",
                 JList [JDict [ ("role", JStr "user");
                                ("content", JStr "hello") ]]) ] key =
              match dict_get [("model", JStr "gpt-3.5-turbo")] key with
              | Some v => Some v
              | None => dict_get proc_input key
              end.
Proof.
  assert (Hkeys : List.NoDup (map fst [("model", JStr "gpt-3.5-turbo")])).
  { repeat constructor. simpl. tauto. }
  split; [ exact Hkeys | ].
  exact (request_body_prefers_extra_args openai_chat
           [("model", JStr "gpt-3.5-turbo")] _ _ _ Hkeys eq_refl).
Defined.

(** X3. [get_request_configuration] does not check the API key itself.
    With no entry for the provider in [api_keys] it raises [KeyError];
    with an entry, also one that holds [None], a request with a supported
    endpoint and accepted params gets the headers Content-Type and
    Authorization, the latter "Bearer " followed by the key, or by the
    text "None" for the key [None]. *)
Theorem request_configuration_api_key
  (req : CSSRequest) (extra_args : pydict string json) :
  match dict_get (api_keys req) (provider req) with
  | None => get_request_configuration req extra_args = Raise KeyError
  | Some key =>
      supported (provider req) (endpoint req) -> accepted req ->
      exists url body,
        get_request_configuration req extra_args =
          Ok (url,
              [ ("Content-Type", "application/json");
                ("Authorization",
                 "Bearer " ++ match key with Some k => k | None => "None" end) ],
              body)
  end.
Proof.
  unfold get_request_configuration, subscript. cbv zeta.
  destruct (dict_get (api_keys req) (provider req)) as [key|];
    [ step_ok | reflexivity ].
  intros Hsup Hacc.
  destruct (dict_get PROVIDERS (provider req)) as [entry|] eqn:Hp;
    [ step_ok
    | destruct (provider req); discriminate ].
  apply (endpoint_in_table _ _ _ Hp) in Hsup. unfold dict_in in Hsup.
  destruct (dict_get (endpoints entry) (endpoint req)) as [ep|];
    [ step_ok | discriminate ].
  destruct (proj1 (input_func_accepted req entry Hp) Hacc)
    as (base & proc_input & ->).
  step_ok. eauto.
Qed.

(** X4. Once the request was sent and answered, [css_mux] raises neither
    [InfernetMLException] nor [APIKeyMissingException]: what it raises is
    [RetryableException] with the response text, on a status other than
    200 that is retried, or an exception of the JSON decoding and
    subscripting ([JSONDecodeError], [KeyError], [IndexError],
    [TypeError]). *)
Theorem css_mux_raises_after_post
  (post : transport) (req : CSSRequest)
  (extra_args : option (pydict string json))
  (url : string) (headers : pydict string string)
  (body : pydict string json) (resp : Response) (e : exn) :
  get_request_configuration req (default [] extra_args)
  = Ok (url, headers, body) ->
  post url headers body = Ok resp ->
  css_mux post req extra_args = Raise e ->
  (e = RetryableException (Text (text resp))
   /\ status_code resp <> 200
   /\ retried (provider req) (status_code resp))
  \/ unclassified e.
Proof.
  intros Hcfg Hpost Hraise.
  destruct (css_mux_after_post _ _ _ _ _ _ _ Hcfg Hpost)
    as (entry & ep & Hp & He & Hmux).
  rewrite Hmux in Hraise. clear Hmux.
  assert (Hu : raises_unclassified (response_json resp ≫= post_process ep)).
  { apply bind_unclassified.
    - unfold response_json. destruct (json_body resp); simpl; auto.
    - intros v. eapply post_process_unclassified; eauto. }
  destruct (Z.eq_dec (status_code resp) 200) as [H200|H200].
  - assert (Hcheck : check_status (provider req) resp = Ok tt).
    { unfold check_status. rewrite H200. reflexivity. }
    rewrite Hcheck, bind_Ok in Hraise. rewrite Hraise in Hu. right. exact Hu.
  - destruct (check_status_retried (provider req) resp H200) as [Hyes Hno].
    destruct (check_status (provider req) resp) as [[]|e'] eqn:Hcheck.
    + rewrite bind_Ok in Hraise. rewrite Hraise in Hu. right. exact Hu.
    + simpl in Hraise. injection Hraise as ->. left.
      assert (Hdec : retried (provider req) (status_code resp)
                     \/ ~ retried (provider req) (status_code resp)).
      { unfold retried.
        destruct (Z.eq_dec (status_code resp) 429); [ tauto | ].
        destruct (Z.eq_dec (status_code resp) 500); [ | right; tauto ].
        destruct (provider req);
          (left; tauto) || (right; intuition congruence). }
      destruct Hdec as [Hr|Hn].
      * specialize (Hyes Hr).
        assert (He' : e = RetryableException (Text (text resp)))
          by congruence.
        auto.
      * specialize (Hno Hn). congruence.
Qed.

Lemma css_mux_raises_after_post_witness :
  css_mux (answering 400 "bad request" (Some error_body)) openai_chat None
  = Raise KeyError
  /\ ((KeyError = RetryableException (Text "bad request")
       /\ 400 <> 200
       /\ retried OPENAI 400)
      \/ unclassified KeyError).
Proof.
  split; [ reflexivity | ].
  exact (css_mux_raises_after_post
           (answering 400 "bad request" (Some error_body)) openai_chat None
           _ _ _
           {| status_code := 400; text := "bad request";
              json_body := Some error_body |}
           KeyError eq_refl eq_refl eq_refl).
Defined.


Lemma streaming_extra_args_keys extra_args :
  (forall e, extra_args = Some e -> List.NoDup (map fst e)) ->
  List.NoDup (map fst (streaming_extra_args extra_args)).
Proof.
  intros Hkeys. unfold streaming_extra_args. apply dict_set_NoDup.
  destruct extra_args as [[|kv e]|];
    [ constructor | apply (Hkeys (kv :: e)); reflexivity | constructor ].
Qed.

(** X5. [css_streaming_mux] always asks for a stream: whatever the caller
    passes in [extra_args], also "stream": False, the body it builds has
    "stream" set to [True]; and a non-empty [extra_args] dictionary of the
    caller is itself written to, so that after the generator has run it
    holds "stream": True and its other keys as before. *)
Theorem streaming_forces_stream_flag
  (req : CSSRequest) (extra_args : option (pydict string json))
  (url : string) (headers : pydict string string)
  (body : pydict string json) :
  (forall e, extra_args = Some e -> List.NoDup (map fst e)) ->
  get_request_configuration req (streaming_extra_args extra_args)
  = Ok (url, headers, body) ->
  dict_get body "stream" = Some (JBool true)
  /\ (forall lib post kv e,
        extra_args = Some (kv :: e) ->
        exists d,
          fst (css_streaming_mux lib post req extra_args) = Some d
          /\ dict_get d "stream" = Some (JBool true)
          /\ forall key, key <> "stream" ->
               dict_get d key = dict_get (kv :: e) key).
Proof.
  intros Hkeys Hcfg. split.
  - destruct (request_configuration_ok _ _ _ _ _ Hcfg)
      as (key & entry & ep & base & proc_input & _ & _ & _ & _ & _ & _ & ->).
    rewrite dict_get_merge by (apply streaming_extra_args_keys; exact Hkeys).
    unfold streaming_extra_args. rewrite dict_get_set_eq. reflexivity.
  - intros lib post kv e ->.
    exists (dict_set (kv :: e) "stream" (JBool true)).
    split; [ reflexivity | ]. split.
    + apply dict_get_set_eq.
    + intros key Hne. apply dict_get_set_other. congruence.
Qed.

Lemma streaming_forces_stream_flag_witness :
  dict_get
    [ ("model", JStr "gpt-4");
      ("messages",
       JList [JDict [("role", JStr "user"); ("content", JStr "hello")]]);
      ("stream", JBool true) ] "stream" = Some (JBool true)
  /\ (forall lib post kv e,
        Some [("stream", JBool false)] = Some (kv :: e) ->
        exists d,
          fst (css_streaming_mux lib post openai_chat
                 (Some [("stream", JBool false)])) = Some d
          /\ dict_get d "stream" = Some (JBool true)
          /\ forall key, key <> "stream" ->
               dict_get d key = dict_get (kv :: e) key).
Proof.
  refine (streaming_forces_stream_flag openai_chat
            (Some [("stream", JBool false)]) _ _ _ _ eq_refl).
  intros e [= <-]. repeat constructor. simpl. tauto.
Defined.

Lemma stream_lines_cons lib p data lines :
  stream_lines lib p (data :: lines)
  = stream_step lib p data (stream_lines lib p lines).
Proof.
  unfold stream_step. cbn [stream_lines].
  destruct (decode lib data) as [decoded|]; [ | reflexivity ].
  destruct (payload lib decoded) as [rest|]; [ | reflexivity ].
  destruct (decide (rest = "[DONE]")); [ reflexivity | ].
  destruct (lift_exn (subscript streaming_post_processing p))
    as [post_processor|e]; [ | reflexivity ].
  destruct (loads lib rest) as [parsed|]; [ | reflexivity ].
  destruct (post_processor parsed); [ | reflexivity ].
  destruct (stream_lines lib p lines). reflexivity.
Qed.

Lemma stream_step_skip lib p data later :
  skipped lib data = true -> stream_step lib p data later = later.
Proof.
  unfold skipped, stream_step.
  destruct (decode lib data) as [decoded|]; [ | discriminate ].
  destruct (payload lib decoded) as [rest|]; [ | reflexivity ].
  destruct (decide (rest = "[DONE]")); [ reflexivity | discriminate ].
Qed.

Lemma stream_step_chunk lib p data later :
  skipped lib data = false ->
  (length (fst (stream_step lib p data later)) <= S (length (fst later)))%nat
  /\ (snd (stream_step lib p data later) = None ->
      snd later = None
      /\ length (fst (stream_step lib p data later)) = S (length (fst later))).
Proof.
  unfold skipped, stream_step.
  destruct (decode lib data) as [decoded|];
    [ | simpl; split; [ lia | discriminate ] ].
  destruct (payload lib decoded) as [rest|]; [ | discriminate ].
  destruct (decide (rest = "[DONE]")); [ discriminate | ]. intros _.
  destruct (lift_exn (subscript streaming_post_processing p))
    as [post_processor|e]; [ | simpl; split; [ lia | discriminate ] ].
  destruct (loads lib rest) as [parsed|];
    [ | simpl; split; [ lia | discriminate ] ].
  destruct (post_processor parsed);
    [ | simpl; split; [ lia | discriminate ] ].
  simpl. split; [ lia | auto ].
Qed.

(** X6. The generator of [css_streaming_mux] decodes every line of the
    response and yields from "data:" lines only. A line that decodes and
    does not start with "data:", and a "data:" line whose stripped rest
    is "[DONE]", can be dropped from the response without changing what
    is yielded or raised; a line that does not decode cannot, it ends the
    generator with [UnicodeDecodeError] wherever it stands, with the
    chunks yielded before it. At most one chunk is yielded per line that
    is not skipped, and exactly one when nothing is raised. *)
Theorem stream_lines_skips
  (lib : TextLib) (p : Provider) (lines : list (list Byte.byte)) :
  stream_lines lib p lines
  = stream_lines lib p (List.filter (carries_chunk lib) lines)
  /\ (forall before data after,
        lines = (before ++ data :: after)%list ->
        decode lib data = None ->
        snd (stream_lines lib p before) = None ->
        stream_lines lib p lines
        = (fst (stream_lines lib p before), Some UnicodeDecodeError))
  /\ (length (fst (stream_lines lib p lines))
      <= length (List.filter (carries_chunk lib) lines))%nat
  /\ (snd (stream_lines lib p lines) = None ->
      length (fst (stream_lines lib p lines))
      = length (List.filter (carries_chunk lib) lines)).
Proof.
  split; [ | split ].
  - induction lines as [|data lines IH]; [ reflexivity | ].
    cbn [List.filter]. rewrite stream_lines_cons.
    change (carries_chunk lib data) with (negb (skipped lib data)).
    destruct (skipped lib data) eqn:Hs; cbn [negb].
    + rewrite (stream_step_skip lib p data _ Hs). exact IH.
    + rewrite stream_lines_cons, <- IH. reflexivity.
  - intros before data after -> Hdec.
    induction before as [|line before IH]; intros Hnone.
    + cbn [app stream_lines]. rewrite Hdec. reflexivity.
    + cbn [app]. rewrite !stream_lines_cons.
      rewrite stream_lines_cons in Hnone.
      revert Hnone. unfold stream_step.
      destruct (decode lib line) as [decoded|]; [ | discriminate ].
      destruct (payload lib decoded) as [rest|];
        [ | intros Hnone; rewrite (IH Hnone); reflexivity ].
      destruct (decide (rest = "[DONE]"));
        [ intros Hnone; rewrite (IH Hnone); reflexivity | ].
      destruct (lift_exn (subscript streaming_post_processing p))
        as [post_processor|e]; [ | discriminate ].
      destruct (loads lib rest) as [parsed|]; [ | discriminate ].
      destruct (post_processor parsed) as [chunk|e]; [ | discriminate ].
      cbn [fst snd]. intros Hnone. rewrite (IH Hnone). reflexivity.
  - induction lines as [|data lines [IH1 IH2]]; [ simpl; auto | ].
    cbn [List.filter]. rewrite stream_lines_cons.
    change (carries_chunk lib data) with (negb (skipped lib data)).
    destruct (skipped lib data) eqn:Hs; cbn [negb].
    + rewrite (stream_step_skip lib p data _ Hs). split; assumption.
    + destruct (stream_step_chunk lib p data (stream_lines lib p lines) Hs)
        as [Hle Hnone].
      cbn [length]. split; [ lia | ].
      intros He. destruct (Hnone He) as [He' ->]. rewrite (IH2 He').
      reflexivity.
Qed.

Example streaming_two_chunks :
  css_streaming_mux sample_text_lib
    (fun _ _ _ =>
       Ok (map ascii_line
             [ ": keep-alive"; "data: hi"; ""; "data: end"; "data: [DONE]" ]))
    openai_chat None
  = (None, ([JStr "hi"; JStr ""], None)).
Proof. reflexivity. Qed.

Example streaming_stops_at_bad_json :
  css_streaming_mux sample_text_lib
    (fun _ _ _ => Ok (map ascii_line [ "data: hi"; "data: {"; "data: hi" ]))
    openai_chat (Some [])
  = (Some [], ([JStr "hi"], Some (Raised JSONDecodeError))).
Proof. reflexivity. Qed.

Example streaming_stops_at_bad_bytes :
  css_streaming_mux sample_text_lib
    (fun _ _ _ =>
       Ok [ ascii_line "data: hi"; [Byte.xff; Byte.xfe];
            ascii_line "data: hi" ])
    openai_chat None
  = (None, ([JStr "hi"], Some UnicodeDecodeError)).
Proof. reflexivity. Qed.


End CssMuxProperties.

(** ** chain_utils.py *)

Section ChainUtilsProperties.
Import ChainUtils.

Lemma read_only_ret {S E A} (a : A) : read_only (mret a : stateful S E A).
Proof. intros s. reflexivity. Qed.

Lemma read_only_lift {S E A} (r : result E A) :
  read_only (lift r : stateful S E A).
Proof. intros s. reflexivity. Qed.

Lemma read_only_bind {S E A B} (m : stateful S E A) (k : A -> stateful S E B) :
  read_only m -> (forall a, read_only (k a)) -> read_only (m ≫= k).
Proof.
  intros Hm Hk s. unfold mbind, stateful_bind.
  specialize (Hm s). destruct (m s) as [[a|e] s']; simpl in Hm; subst s'.
  - apply Hk.
  - reflexivity.
Qed.

Lemma read_only_getattr name : read_only (getattr name).
Proof. intros self. unfold getattr. destruct (self !! name); reflexivity. Qed.

Lemma read_only_serialized : read_only serialized.
Proof.
  unfold serialized.
  repeat (apply read_only_bind; [ apply read_only_getattr | intros ? ]).
  apply read_only_ret.
Qed.

Lemma read_only_typed_data lib nonce expiry chain_id verifying_contract :
  read_only (get_delegate_subscription_typed_data lib nonce expiry chain_id
               verifying_contract).
Proof.
  unfold get_delegate_subscription_typed_data.
  repeat (apply read_only_bind;
          [ first [ apply read_only_getattr | apply read_only_lift ]
          | intros ? ]).
  apply read_only_lift.
Qed.

Lemma run_call_frame lib c self : snd (run_call lib c self) = self.
Proof.
  destruct c; unfold run_call.
  - apply (read_only_bind serialized); [ apply read_only_serialized | ].
    intros d. apply read_only_ret.
  - apply (read_only_bind (get_delegate_subscription_typed_data lib _ _ _ _));
      [ apply read_only_typed_data | ].
    intros m. apply read_only_ret.
Qed.

Lemma run_calls_frame lib cs self : snd (run_calls lib cs self) = self.
Proof.
  revert self. induction cs as [|c cs IH]; intros self; simpl;
    [ reflexivity | ].
  pose proof (run_call_frame lib c self) as Hc.
  destruct (run_call lib c self) as [r self']. simpl in Hc. subst self'.
  specialize (IH self). destruct (run_calls lib cs self) as [rs self''].
  exact IH.
Qed.

Lemma Subscription_constructed lib a :
  Subscription lib a = (Ok tt, constructed lib a).
Proof. reflexivity. Qed.

Lemma serialized_constructed lib a :
  fst (serialized (constructed lib a)) =
    Ok [ ("owner", VStr (owner a));
         ("active_at", VInt (active_at a));
         ("period", VInt (period a));
         ("frequency", VInt (frequency a));
         ("redundancy", VInt (redundancy a));
         ("containers", VStr (containers_hash lib (containers a)));
         ("lazy", VBool (lazy a));
         ("prover", VStr (prover a));
         ("payment_amount", VInt (payment_amount a));
         ("payment_token", VStr (payment_token a));
         ("wallet", VStr (wallet a)) ].
Proof.
  unfold serialized, constructed, getattr, mbind, stateful_bind.
  repeat (rewrite ?lookup_insert_eq, ?lookup_insert_ne by done; simpl).
  reflexivity.
Qed.

Example join_three : join "," ["echo"; "torch"; "onnx"] = "echo,torch,onnx".
Proof. reflexivity. Qed.

Example join_none : join "," [] = "".
Proof. reflexivity. Qed.

(** C5. A Subscription is not changed by its readers: after any sequence
    of calls to [serialized] and [get_delegate_subscription_typed_data]
    the object is the one [__init__] built, with every attribute at the
    value given at construction, and [serialized] returns the dictionary
    of those values (the fingerprint under the key "containers"). *)
Theorem Subscription_immutable
  (lib : EthLib) (a : SubscriptionArgs) (cs : list call) :
  let self := snd (Subscription lib a) in
  let self' := snd (run_calls lib cs self) in
  self' = self
  /\ self' = constructed lib a
  /\ fst (serialized self') =
       Ok [ ("owner", VStr (owner a));
            ("active_at", VInt (active_at a));
            ("period", VInt (period a));
            ("frequency", VInt (frequency a));
            ("redundancy", VInt (redundancy a));
            ("containers", VStr (containers_hash lib (containers a)));
            ("lazy", VBool (lazy a));
            ("prover", VStr (prover a));
            ("payment_amount", VInt (payment_amount a));
            ("payment_token", VStr (payment_token a));
            ("wallet", VStr (wallet a)) ].
Proof.
  cbv zeta. rewrite run_calls_frame, Subscription_constructed. simpl.
  split; [ reflexivity | ]. split; [ reflexivity | ].
  apply serialized_constructed.
Qed.

Lemma constructed_frequency_redundancy lib a :
  constructed lib a !! "_frequency" = Some (VInt (frequency a))
  /\ constructed lib a !! "_redundancy" = Some (VInt (redundancy a)).
Proof.
  unfold constructed.
  split; repeat (rewrite ?lookup_insert_eq, ?lookup_insert_ne by done);
    reflexivity.
Qed.

(** C3, as amended. The constructor rejects no argument and stores
    [frequency] and [redundancy] as they are given: the constructed
    object has frequency and redundancy at least 1 exactly when the
    arguments have. *)
Theorem Subscription_keeps_frequency_redundancy
  (lib : EthLib) (a : SubscriptionArgs) :
  exists self,
    Subscription lib a = (Ok tt, self)
    /\ self !! "_frequency" = Some (VInt (frequency a))
    /\ self !! "_redundancy" = Some (VInt (redundancy a)).
Proof.
  exists (constructed lib a). split; [ apply Subscription_constructed | ].
  apply constructed_frequency_redundancy.
Qed.

(** C3, the claim as stated fails: with frequency 0 and redundancy 0 the
    constructor returns an object that holds 0 in both attributes. *)
Lemma Subscription_accepts_zero :
  (frequency zero_frequency_args = 0 /\ redundancy zero_frequency_args = 0)
  /\ (forall lib, exists self,
        Subscription lib zero_frequency_args = (Ok tt, self)
        /\ self !! "_frequency" = Some (VInt 0)
        /\ self !! "_redundancy" = Some (VInt 0)).
Proof.
  split; [ split; reflexivity | ]. intros lib.
  exists (constructed lib zero_frequency_args).
  split; [ apply Subscription_constructed | ].
  apply (constructed_frequency_redundancy lib zero_frequency_args).
Qed.

Lemma append_String c x r : String c x ++ r = String c (x ++ r).
Proof. reflexivity. Qed.

Lemma append_empty_l r : "" ++ r = r.
Proof. reflexivity. Qed.

Lemma append_empty_r x : x ++ "" = x.
Proof.
  induction x as [|c x IH]; [ reflexivity | ].
  rewrite append_String. congruence.
Qed.

Lemma join_cons x l : join "," (x :: l) = x ++ join_tail l.
Proof.
  destruct l as [|y l]; simpl.
  - symmetry. apply append_empty_r.
  - reflexivity.
Qed.

Lemma join_tail_shape l :
  join_tail l = "" \/ exists t, join_tail l = String ","%char t.
Proof. destruct l; simpl; eauto. Qed.

Lemma no_comma_prefix_unique x y r1 r2 :
  no_comma x = true -> no_comma y = true ->
  (r1 = "" \/ exists t, r1 = String ","%char t) ->
  (r2 = "" \/ exists t, r2 = String ","%char t) ->
  x ++ r1 = y ++ r2 -> x = y /\ r1 = r2.
Proof.
  revert y. induction x as [|c x IH]; intros [|c' y] Hx Hy H1 H2 Heq;
    rewrite ?append_String, ?append_empty_l in Heq; simpl in *.
  - auto.
  - exfalso. subst r1. destruct H1 as [H1 | [t H1]]; [ discriminate | ].
    injection H1 as -> _. simpl in Hy. discriminate.
  - exfalso. subst r2. destruct H2 as [H2 | [t H2]]; [ discriminate | ].
    injection H2 as -> _. simpl in Hx. discriminate.
  - injection Heq as -> Heq.
    apply andb_prop in Hx as [_ Hx]. apply andb_prop in Hy as [_ Hy].
    destruct (IH y Hx Hy H1 H2 Heq) as [-> ->]. auto.
Qed.

Lemma join_injective cs1 cs2 :
  Forall plain_id cs1 -> Forall plain_id cs2 ->
  join "," cs1 = join "," cs2 -> cs1 = cs2.
Proof.
  intros H1. revert cs2. induction H1 as [|x l1 [Hx Hcx] H1 IH];
    intros cs2 H2 Heq; destruct H2 as [|y l2 [Hy Hcy] H2].
  - reflexivity.
  - exfalso. rewrite join_cons in Heq. destruct y; [ auto | discriminate ].
  - exfalso. rewrite join_cons in Heq. destruct x; [ auto | discriminate ].
  - rewrite !join_cons in Heq.
    destruct (no_comma_prefix_unique x y _ _ Hcx Hcy
                (join_tail_shape l1) (join_tail_shape l2) Heq) as [-> Ht].
    f_equal. destruct l1 as [|x1 l1], l2 as [|y2 l2]; simpl in Ht;
      try discriminate; [ reflexivity | ].
    injection Ht as Ht. apply IH; assumption.
Qed.

(** C4, as amended. The fingerprint is computed from the comma-joined IDs
    alone, and on lists of non-empty, comma-free container IDs the joined
    string identifies the list: two such lists with equal fingerprints
    are the same list, unless the external hash collides on their two
    distinct joined strings. *)
Theorem containers_hash_identifies_plain_lists
  (lib : EthLib) (cs1 cs2 : list string) :
  Forall plain_id cs1 -> Forall plain_id cs2 ->
  containers_hash lib cs1 = containers_hash lib cs2 ->
  cs1 = cs2
  \/ (join "," cs1 <> join "," cs2
      /\ hex lib (keccak lib (abi_encode_string lib (join "," cs1)))
         = hex lib (keccak lib (abi_encode_string lib (join "," cs2)))).
Proof.
  intros H1 H2 Hh.
  destruct (decide (join "," cs1 = join "," cs2)) as [Heq|Hne].
  - left. apply join_injective; assumption.
  - right. split; [ exact Hne | exact Hh ].
Qed.

Lemma containers_hash_identifies_plain_lists_witness :
  Forall plain_id ["echo"; "torch"]
  /\ (["echo"; "torch"] = ["echo"; "torch"]
      \/ (join "," ["echo"; "torch"] <> join "," ["echo"; "torch"]
          /\ hex sample_lib (keccak sample_lib
               (abi_encode_string sample_lib (join "," ["echo"; "torch"])))
             = hex sample_lib (keccak sample_lib
                 (abi_encode_string sample_lib (join "," ["echo"; "torch"]))))).
Proof.
  assert (Hp : Forall plain_id ["echo"; "torch"]).
  { repeat constructor; discriminate. }
  split; [ exact Hp | ].
  exact (containers_hash_identifies_plain_lists sample_lib
           ["echo"; "torch"] ["echo"; "torch"] Hp Hp eq_refl).
Defined.

(** C4, the claim as stated fails: the one-element list ["a,b"] and the
    two-element list ["a"; "b"] are distinct and have the same joined
    string, hence the same fingerprint whatever the hash. *)
Lemma containers_hash_not_injective :
  ["a,b"] <> ["a"; "b"] :> list string
  /\ join "," ["a,b"] = join "," ["a"; "b"]
  /\ (forall lib, containers_hash lib ["a,b"] = containers_hash lib ["a"; "b"]).
Proof. repeat split; discriminate || reflexivity. Qed.

(** *** Further properties of chain_utils.py *)

(** X7. On a constructed Subscription,
    [get_delegate_subscription_typed_data] raises no [AttributeError] and
    no [TypeError] of its own: it is [HexBytes] of the fingerprint
    followed by [encode_typed_data] on the message that carries the
    constructor's values (the private attributes under their EIP-712
    names) with the given nonce, expiry, chain id and verifying contract;
    it fails only where one of those two library calls fails. *)
Theorem typed_data_of_constructed
  (lib : EthLib) (a : SubscriptionArgs)
  (nonce expiry chain_id : Z) (verifying_contract : string) :
  fst (get_delegate_subscription_typed_data lib nonce expiry chain_id
         verifying_contract (snd (Subscription lib a)))
  = (container_id ← HexBytes lib (containers_hash lib (containers a));
     encode_typed_data lib
       (delegate_subscription_message a container_id nonce expiry chain_id
          verifying_contract)).
Proof.
  rewrite Subscription_constructed. cbn [snd].
  unfold get_delegate_subscription_typed_data, constructed, getattr,
    hexbytes_of, lift, mbind at 1 2 3 4 5 6 7 8 9 10 11 12, stateful_bind.
  repeat (rewrite ?lookup_insert_eq, ?lookup_insert_ne by done; cbn iota beta).
  destruct (HexBytes lib (containers_hash lib (containers a))) as [cid|e];
    cbn; [ | reflexivity ].
  repeat (rewrite ?lookup_insert_eq, ?lookup_insert_ne by done; cbn iota beta).
  reflexivity.
Qed.


End ChainUtilsProperties.

(** ** file_manager.py *)

(** Run the monadic steps whose outcome is known. *)
Ltac run_io :=
  cbv beta iota zeta delta
    [mbind stateful_bind mret stateful_ret lift get_store modify_store
     raise try_except FileManager.emit FileManager.peer_call
     FileManager.open_wb FileManager.write];
  simpl.

Section FileManagerProperties.
Import FileManager.

Variables (peer : Peer) (utils : Utils).

(** What [file_exists] returns and logs, by the state of the local file. *)
Lemma file_exists_run file_path txid w res tx_file_size tx_tags :
  graphql peer (query_str txid) = Ok res ->
  tx_file_size_of utils res = Ok tx_file_size ->
  tx_tags_of utils res = Ok tx_tags ->
  file_exists peer utils file_path txid w =
    match files w !! file_path with
    | None =>
        (Ok false,
         {| files := files w;
            trace := (trace w ++
              [ EvGraphql (query_str txid); EvExists file_path;
                EvLog (log_line file_path false false false) ])%list |})
    | Some content =>
        if (tx_file_size =? Z.of_nat (length content))%Z then
          (Ok (tag_matches tx_tags (sha256_hexdigest utils content)),
           {| files := files w;
              trace := (trace w ++
                [ EvGraphql (query_str txid); EvExists file_path;
                  EvGetsize file_path; EvDigest file_path;
                  EvLog (log_line file_path true true
                           (tag_matches tx_tags
                              (sha256_hexdigest utils content))) ])%list |})
        else
          (Ok false,
           {| files := files w;
              trace := (trace w ++
                [ EvGraphql (query_str txid); EvExists file_path;
                  EvGetsize file_path;
                  EvLog (log_line file_path true false false) ])%list |})
    end.
Proof.
  intros Hq Hsize Htags.
  unfold file_exists, os_path_exists, os_path_getsize, get_sha256_digest.
  run_io. rewrite Hq, Hsize, Htags. run_io.
  destruct (files w !! file_path) as [content|] eqn:Hfile;
    repeat (progress (rewrite ?Hfile; run_io)).
  - destruct (tx_file_size =? Z.of_nat (length content))%Z eqn:Heq;
      repeat (progress (rewrite ?Hfile; run_io));
      rewrite <- !app_assoc; reflexivity.
  - rewrite <- !app_assoc. reflexivity.
Qed.

(** The size and the tags [file_exists] reads from an answer that holds
    a transaction. *)
Lemma holds_transaction_read res tx_file_size tx_tags :
  holds_transaction utils res tx_file_size tx_tags ->
  tx_file_size_of utils res = Ok tx_file_size
  /\ tx_tags_of utils res = Ok tx_tags.
Proof.
  intros (top & d & tx & dd & sz & tags & -> & Hd & Htx & Hdd & Hsz & Hint
          & Htags & Hdict).
  unfold tx_file_size_of, tx_tags_of, getitem, subscript.
  rewrite Hd, !bind_Ok, Htx, !bind_Ok, Hdd, Htags, !bind_Ok, Hsz, !bind_Ok.
  split; assumption.
Qed.

(** An answer without a transaction makes the reading of the size raise
    [TypeError]: [None["data"]]. *)
Lemma no_transaction_read res :
  no_transaction res -> tx_file_size_of utils res = Raise TypeError.
Proof.
  intros (top & d & -> & Hd & Htx).
  unfold tx_file_size_of, getitem, subscript.
  rewrite Hd, !bind_Ok, Htx, !bind_Ok. reflexivity.
Qed.

(** C6. [file_exists] first sends the query, which names the transaction,
    and reads the transaction's size and tags from the answer: when the
    query raises, or the reading does (as on an answer that holds no
    transaction), the call raises with nothing but the query made,
    whatever the state of the local file. When the answer holds a
    transaction with its size and tags, the call returns without
    raising and leaves the files alone; it returns [True] exactly when
    the local file exists, its size is the transaction's data size and
    its digest is the File-SHA256 tag; when the file is missing neither
    the size nor the digest is read, and when the size differs the
    digest is not read. *)
Theorem file_exists_checks (file_path txid : string) (w : world) :
  let asked :=
    {| files := files w;
       trace := (trace w ++ [EvGraphql (query_str txid)])%list |} in
  (exists before after,
     query_str txid
     = before ++ "transaction(" ++ nl ++ "                    id: "
       ++ dquote ++ txid ++ dquote ++ after)
  /\ (forall e,
        graphql peer (query_str txid) = Raise e ->
        file_exists peer utils file_path txid w = (Raise e, asked))
  /\ (forall res e,
        graphql peer (query_str txid) = Ok res ->
        tx_file_size_of utils res = Raise e
        \/ (exists tx_file_size,
              tx_file_size_of utils res = Ok tx_file_size
              /\ tx_tags_of utils res = Raise e) ->
        file_exists peer utils file_path txid w = (Raise e, asked))
  /\ (forall res,
        graphql peer (query_str txid) = Ok res ->
        no_transaction res ->
        file_exists peer utils file_path txid w = (Raise TypeError, asked))
  /\ (forall res tx_file_size tx_tags,
        graphql peer (query_str txid) = Ok res ->
        holds_transaction utils res tx_file_size tx_tags ->
        exists b w',
          file_exists peer utils file_path txid w = (Ok b, w')
          /\ files w' = files w
          /\ (b = true
              <-> checks_hold utils (files w) file_path tx_file_size tx_tags)
          /\ (files w !! file_path = None ->
              trace w' = (trace w ++
                [ EvGraphql (query_str txid); EvExists file_path;
                  EvLog (log_line file_path false false false) ])%list)
          /\ (forall content,
                files w !! file_path = Some content ->
                tx_file_size <> Z.of_nat (length content) ->
                trace w' = (trace w ++
                  [ EvGraphql (query_str txid); EvExists file_path;
                    EvGetsize file_path;
                    EvLog (log_line file_path true false false) ])%list)
          /\ (forall content,
                files w !! file_path = Some content ->
                tx_file_size = Z.of_nat (length content) ->
                trace w' = (trace w ++
                  [ EvGraphql (query_str txid); EvExists file_path;
                    EvGetsize file_path; EvDigest file_path;
                    EvLog (log_line file_path true true b) ])%list)).
Proof.
  cbv zeta. split; [ | split; [ | split; [ | split ] ] ].
  - exists (nl ++ "                query {" ++ nl ++ "                    "),
      (nl ++
       "                    )" ++ nl ++
       "                    {" ++ nl ++
       "                        owner{" ++ nl ++
       "                            address" ++ nl ++
       "                        }" ++ nl ++
       "                        data{" ++ nl ++
       "                            size" ++ nl ++
       "                            type" ++ nl ++
       "                        }" ++ nl ++
       "                        tags{" ++ nl ++
       "                            name" ++ nl ++
       "                            value" ++ nl ++
       "                        }" ++ nl ++
       "                    }" ++ nl ++
       "                }" ++ nl ++
       "            ").
    reflexivity.
  - intros e Hq. unfold file_exists. run_io. rewrite Hq. reflexivity.
  - intros res e Hq [Hsize | (tx_file_size & Hsize & Htags)];
      unfold file_exists; run_io; rewrite Hq; run_io; rewrite Hsize;
      [ reflexivity | ].
    run_io. rewrite Htags. reflexivity.
  - intros res Hq Hnone. unfold file_exists. run_io. rewrite Hq. run_io.
    rewrite (no_transaction_read res Hnone). reflexivity.
  - intros res tx_file_size tx_tags Hq Hres.
    destruct (holds_transaction_read _ _ _ Hres) as [Hsize Htags].
    rewrite (file_exists_run _ _ _ _ _ _ Hq Hsize Htags).
    unfold checks_hold.
    destruct (files w !! file_path) as [content|] eqn:Hfile.
    + destruct (Z.eqb_spec tx_file_size (Z.of_nat (length content)))
        as [Heq|Hne].
      * eexists _, _. split; [ reflexivity | ]. cbn [files trace].
        split; [ reflexivity | ]. split; [ | split; [ | split ] ].
        -- unfold tag_matches. rewrite bool_decide_eq_true. split.
           ++ intros Htag. eauto.
           ++ intros (c & [= <-] & _ & Htag). exact Htag.
        -- discriminate.
        -- intros c [= <-] Hne. contradiction.
        -- intros c _ _. reflexivity.
      * eexists _, _. split; [ reflexivity | ]. cbn [files trace].
        split; [ reflexivity | ]. split; [ | split; [ | split ] ].
        -- split; [ discriminate | ].
           intros (c & [= <-] & Hsz & _). contradiction.
        -- discriminate.
        -- intros c _ _. reflexivity.
        -- intros c [= <-] Heq. contradiction.
    + eexists _, _. split; [ reflexivity | ]. cbn [files trace].
      split; [ reflexivity | ]. split; [ | split; [ | split ] ].
      * split; [ discriminate | ]. intros (c & Hc & _). discriminate.
      * intros _. reflexivity.
      * discriminate.
      * discriminate.
Qed.

Lemma chunk_loop_exit pathname startOffset size fuel loaded_bytes w :
  size <= loaded_bytes ->
  chunk_loop peer pathname startOffset size fuel loaded_bytes w
  = (Ok (Some loaded_bytes), w).
Proof.
  intros Hge. destruct fuel; simpl;
    destruct (Z.ltb_spec loaded_bytes size); try lia; reflexivity.
Qed.

Lemma chunk_run_total startOffset size loaded_bytes chunks :
  chunk_run peer startOffset size loaded_bytes chunks ->
  size <= loaded_bytes + Z.of_nat (length (concat chunks)).
Proof.
  induction 1 as [loaded Hge | loaded c cs Hlt Hc Hrun IH]; simpl.
  - lia.
  - rewrite length_app. lia.
Qed.

(** What [fetch_chunk] returns where the chunk decodes. *)
Lemma fetch_chunk_decodes offset bs :
  decodes_to peer offset bs -> fetch_chunk peer offset = Ok bs.
Proof.
  intros (d & chunkData & Hchunk & Hkey & Hdec).
  unfold fetch_chunk, subscript. rewrite Hchunk, bind_Ok, Hkey, bind_Ok.
  exact Hdec.
Qed.

(** The chunk loop exits within [size - loaded_bytes] iterations when
    each chunk it fetches decodes to a non-empty byte string. *)
Lemma chunk_loop_fetches pathname startOffset size :
  (forall loaded_bytes,
     fetches peer startOffset size loaded_bytes ->
     exists bs,
       decodes_to peer (startOffset + loaded_bytes) bs /\ bs <> []) ->
  forall fuel loaded_bytes w old,
    files w !! pathname = Some old ->
    (loaded_bytes < size -> fetches peer startOffset size loaded_bytes) ->
    (Z.to_nat (size - loaded_bytes) <= fuel)%nat ->
    exists chunks w',
      chunk_loop peer pathname startOffset size fuel loaded_bytes w
      = (Ok (Some (loaded_bytes + Z.of_nat (length (concat chunks)))), w')
      /\ Forall2 (decodes_to peer)
           (chunk_offsets (startOffset + loaded_bytes) chunks) chunks
      /\ Forall (fun c => c <> []) chunks
      /\ size <= loaded_bytes + Z.of_nat (length (concat chunks))
      /\ files w' = <[pathname := (old ++ concat chunks)%list]> (files w)
      /\ trace w' = (trace w ++
           map EvChunk (chunk_offsets (startOffset + loaded_bytes) chunks))%list.
Proof.
  intros Hchunks fuel.
  induction fuel as [|fuel IH]; intros loaded_bytes w old Hold Hreach Hfuel.
  - assert (Hge : size <= loaded_bytes) by lia.
    exists [], w. rewrite chunk_loop_exit by exact Hge. simpl.
    rewrite Z.add_0_r, !app_nil_r, insert_id by exact Hold.
    repeat split; auto.
  - destruct (Z.ltb_spec loaded_bytes size) as [Hlt|Hge].
    + destruct (Hchunks loaded_bytes (Hreach Hlt)) as (bs & Hbs & Hne).
      assert (Hlen : (1 <= length bs)%nat).
      { destruct bs; [ contradiction | simpl; lia ]. }
      set (w1 :=
             {| files := <[pathname := (old ++ bs)%list]> (files w);
                trace :=
                  (trace w ++ [EvChunk (startOffset + loaded_bytes)])%list |}).
      destruct (IH (loaded_bytes + Z.of_nat (length bs)) w1 (old ++ bs)%list)
        as (chunks & w' & Hrun & Hdec & Hnonempty & Htotal & Hfiles & Htrace).
      { subst w1. simpl. apply lookup_insert_eq. }
      { intros Hmore. apply (fetches_next _ _ _ _ _ (Hreach Hlt) Hbs Hmore). }
      { lia. }
      exists (bs :: chunks), w'. simpl.
      destruct (Z.ltb_spec loaded_bytes size) as [_|]; [ | lia ].
      run_io. rewrite (fetch_chunk_decodes _ _ Hbs). run_io.
      rewrite Hold. simpl. fold w1. rewrite Hrun.
      rewrite Z.add_assoc in Hdec, Htrace.
      split; [ | split; [ | split; [ | split; [ | split ] ] ] ].
      * rewrite length_app. do 3 f_equal. lia.
      * constructor; assumption.
      * constructor; assumption.
      * rewrite length_app. lia.
      * rewrite Hfiles. subst w1. simpl.
        rewrite insert_insert_eq, app_assoc. reflexivity.
      * rewrite Htrace. subst w1. simpl. rewrite <- app_assoc.
        reflexivity.
    + exists [], w. rewrite chunk_loop_exit by exact Hge. simpl.
      rewrite Z.add_0_r, !app_nil_r, insert_id by exact Hold.
      repeat split; auto.
Qed.

Example chunk_loop_out_of_fuel :
  fst (chunk_loop FileManager.sample_peer "model.bin" 8 3 1 0
         FileManager.sample_world)
  = Ok None.
Proof. reflexivity. Qed.

(** C7. When the direct download fails, [download] asks for the
    transaction's offset and size. Below MAX_NODE_BYTES it makes a single
    [tx_data] call, writes what that returns and returns the absolute
    path, or raises what that call raises. Otherwise it runs the chunk
    loop: the first chunk is fetched at [offset - size + 1] and each
    further one at that start plus the bytes loaded so far. If every
    chunk the loop fetches decodes to a non-empty byte string, the loop
    exits within [size] iterations, the file then holds the decoded
    chunks, at least [size] bytes, and the call returns the absolute
    path. *)
Theorem download_after_direct_failure
  (pathname txid : string) (w : world) (e : exn)
  (chunk_offset : pydict string Z) (size offset : Z) :
  data peer txid = Raise e ->
  tx_offset peer txid = Ok chunk_offset ->
  dict_get chunk_offset "size" = Some size ->
  dict_get chunk_offset "offset" = Some offset ->
  (size < MAX_NODE_BYTES utils ->
   forall fuel,
     exists w',
       trace w' = (trace w ++
         [ EvData txid; EvLog (direct_failed_line txid);
           EvTxOffset txid; EvTxData txid ])%list
       /\ match tx_data peer txid with
          | Ok bytes =>
              download peer utils fuel pathname txid w
              = (Ok (Some (abspath utils pathname)), w')
              /\ files w' !! pathname = Some bytes
          | Raise e' =>
              download peer utils fuel pathname txid w = (Raise e', w')
          end)
  /\ (MAX_NODE_BYTES utils <= size ->
      (forall loaded_bytes,
         fetches peer (offset - size + 1) size loaded_bytes ->
         exists bs,
           decodes_to peer (offset - size + 1 + loaded_bytes) bs
           /\ bs <> []) ->
      forall fuel, (Z.to_nat size <= fuel)%nat ->
      exists chunks w',
        download peer utils fuel pathname txid w
        = (Ok (Some (abspath utils pathname)), w')
        /\ Forall2 (decodes_to peer)
             (chunk_offsets (offset - size + 1) chunks) chunks
        /\ files w' !! pathname = Some (concat chunks)
        /\ size <= Z.of_nat (length (concat chunks))
        /\ trace w' = (trace w ++
             [ EvData txid; EvLog (direct_failed_line txid); EvTxOffset txid ]
             ++ map EvChunk (chunk_offsets (offset - size + 1) chunks))%list).
Proof.
  intros Hdata Hoff Hsize Hoffset. split.
  - intros Hsmall fuel.
    unfold download, subscript. run_io. rewrite Hdata. run_io.
    rewrite Hoff. run_io. rewrite Hsize. run_io. rewrite Hoffset. run_io.
    destruct (Z.ltb_spec size (MAX_NODE_BYTES utils)) as [_|]; [ | lia ].
    run_io. destruct (tx_data peer txid) as [bytes|e']; run_io.
    + eexists. split; [ | split; [ reflexivity | ] ]; simpl.
      * rewrite <- !app_assoc. reflexivity.
      * rewrite !lookup_insert_eq. reflexivity.
    + eexists. split; [ | reflexivity ]. simpl.
      rewrite <- !app_assoc. reflexivity.
  - intros Hbig Hchunks fuel Hfuel.
    set (w1 := {| files := <[pathname := []]> (files w);
                  trace := (trace w ++
                    [ EvData txid; EvLog (direct_failed_line txid);
                      EvTxOffset txid ])%list |}).
    destruct (chunk_loop_fetches pathname (offset - size + 1) size Hchunks
                fuel 0 w1 [])
      as (chunks & w' & Hrun & Hdec & _ & Htotal & Hfiles & Htrace).
    { subst w1. simpl. apply lookup_insert_eq. }
    { intros Hpos. constructor. exact Hpos. }
    { rewrite Z.sub_0_r. exact Hfuel. }
    rewrite Z.add_0_r in Hdec, Htrace.
    exists chunks, w'.
    unfold download, subscript. run_io. rewrite Hdata. run_io.
    rewrite Hoff. run_io. rewrite Hsize. run_io. rewrite Hoffset. run_io.
    destruct (Z.ltb_spec size (MAX_NODE_BYTES utils)) as [|_]; [ lia | ].
    run_io. rewrite <- !app_assoc. simpl. fold w1. rewrite Hrun.
    split; [ reflexivity | ]. split; [ exact Hdec | ].
    split; [ | split ].
    + rewrite Hfiles. apply lookup_insert_eq.
    + lia.
    + rewrite Htrace. subst w1. simpl. rewrite <- app_assoc.
      reflexivity.
Qed.

(** *** Further properties of file_manager.py *)

Lemma writes_only_ret {A} pathname (a : A) :
  writes_only pathname (mret a : stateful world exn A).
Proof. intros w. simpl. auto. Qed.

Lemma writes_only_lift {A} pathname (r : result exn A) :
  writes_only pathname (lift r : stateful world exn A).
Proof. intros w. simpl. auto. Qed.

Lemma writes_only_emit pathname e : writes_only pathname (emit e).
Proof. intros w. simpl. auto. Qed.

Lemma writes_only_write pathname bytes :
  writes_only pathname (write pathname bytes).
Proof.
  intros w. simpl. split.
  - intros _. rewrite lookup_insert_eq. eauto.
  - intros p Hp. apply lookup_insert_ne. congruence.
Qed.

Lemma writes_only_bind {A B} pathname
  (m : stateful world exn A) (k : A -> stateful world exn B) :
  writes_only pathname m -> (forall a, writes_only pathname (k a)) ->
  writes_only pathname (m ≫= k).
Proof.
  intros Hm Hk w. unfold mbind, stateful_bind.
  destruct (Hm w) as [Hm1 Hm2]. destruct (m w) as [[a|e] w1]; simpl in *.
  - destruct (Hk a w1) as [Hk1 Hk2]. split.
    + intros Hs. apply Hk1, Hm1, Hs.
    + intros p Hp. rewrite Hk2, Hm2 by exact Hp. reflexivity.
  - auto.
Qed.

Lemma writes_only_try {A} pathname
  (body : stateful world exn A) (handler : exn -> stateful world exn A) :
  writes_only pathname body -> (forall e, writes_only pathname (handler e)) ->
  writes_only pathname (try_except body handler).
Proof.
  intros Hb Hh w. unfold try_except.
  destruct (Hb w) as [Hb1 Hb2]. destruct (body w) as [[a|e] w1]; simpl in *.
  - auto.
  - destruct (Hh e w1) as [Hh1 Hh2]. split.
    + intros Hs. apply Hh1, Hb1, Hs.
    + intros p Hp. rewrite Hh2, Hb2 by exact Hp. reflexivity.
Qed.

Lemma writes_only_peer_call {A} pathname e (r : result exn A) :
  writes_only pathname (peer_call e r).
Proof.
  unfold peer_call. apply writes_only_bind.
  - apply writes_only_emit.
  - intros _. apply writes_only_lift.
Qed.

Lemma writes_only_chunk_loop pathname startOffset size fuel :
  forall loaded_bytes,
    writes_only pathname
      (chunk_loop peer pathname startOffset size fuel loaded_bytes).
Proof.
  induction fuel as [|fuel IH]; intros loaded_bytes; simpl;
    destruct (loaded_bytes <? size)%Z; try apply writes_only_ret.
  apply writes_only_bind; [ apply writes_only_peer_call | intros bs ].
  apply writes_only_bind; [ apply writes_only_write | intros _ ].
  apply IH.
Qed.

Lemma writes_only_download_body pathname txid fuel :
  writes_only pathname
    (direct ← try_except
       (data ← peer_call (EvData txid) (data peer txid);
        _ ← write pathname data;
        mret (Some (abspath utils pathname)))
       (fun _ => _ ← emit (EvLog (direct_failed_line txid)); mret None);
     match direct with
     | Some path => mret (Some path)
     | None =>
         chunk_offset ← peer_call (EvTxOffset txid) (tx_offset peer txid);
         size ← lift (subscript chunk_offset "size");
         offset ← lift (subscript chunk_offset "offset");
         if (size <? MAX_NODE_BYTES utils)%Z then
           data ← peer_call (EvTxData txid) (tx_data peer txid);
           _ ← write pathname data;
           mret (Some (abspath utils pathname))
         else
           done ← chunk_loop peer pathname (offset - size + 1) size fuel 0;
           match done with
           | Some _ => mret (Some (abspath utils pathname))
           | None => mret None
           end
     end).
Proof.
  apply writes_only_bind.
  - apply writes_only_try.
    + apply writes_only_bind; [ apply writes_only_peer_call | intros bs ].
      apply writes_only_bind; [ apply writes_only_write | intros _ ].
      apply writes_only_ret.
    + intros _. apply writes_only_bind; [ apply writes_only_emit | intros _ ].
      apply writes_only_ret.
  - intros [path|]; [ apply writes_only_ret | ].
    apply writes_only_bind; [ apply writes_only_peer_call | intros d ].
    apply writes_only_bind; [ apply writes_only_lift | intros size ].
    apply writes_only_bind; [ apply writes_only_lift | intros offset ].
    destruct (size <? MAX_NODE_BYTES utils)%Z.
    + apply writes_only_bind; [ apply writes_only_peer_call | intros bs ].
      apply writes_only_bind; [ apply writes_only_write | intros _ ].
      apply writes_only_ret.
    + apply writes_only_bind; [ apply writes_only_chunk_loop | intros done ].
      destruct done; apply writes_only_ret.
Qed.


(** X9. When the direct download succeeds, [download] makes that one call
    on the peer, replaces whatever the file held by the data received,
    and returns the absolute path. *)
Theorem download_direct
  (fuel : nat) (pathname txid : string) (w : world)
  (bytes : list Byte.byte) :
  data peer txid = Ok bytes ->
  download peer utils fuel pathname txid w
  = (Ok (Some (abspath utils pathname)),
     {| files := <[pathname := bytes]> (files w);
        trace := (trace w ++ [EvData txid])%list |}).
Proof.
  intros Hdata. unfold download. run_io. rewrite Hdata. run_io.
  rewrite lookup_insert_eq. simpl. rewrite insert_insert_eq. reflexivity.
Qed.

(** X10. When the direct download and the offset lookup both fail,
    [download] raises the error of the lookup and leaves an empty file at
    [pathname]: what the file held before the call is lost. *)
Theorem download_failure_truncates
  (fuel : nat) (pathname txid : string) (w : world) (e e' : exn) :
  data peer txid = Raise e ->
  tx_offset peer txid = Raise e' ->
  download peer utils fuel pathname txid w
  = (Raise e',
     {| files := <[pathname := []]> (files w);
        trace := (trace w ++
          [ EvData txid; EvLog (direct_failed_line txid);
            EvTxOffset txid ])%list |}).
Proof.
  intros Hdata Hoff. unfold download. run_io. rewrite Hdata. run_io.
  rewrite Hoff. run_io. rewrite <- !app_assoc. reflexivity.
Qed.


Lemma chunk_run_last startOffset size cs : forall loaded_bytes c,
  chunk_run peer startOffset size loaded_bytes (cs ++ [c]) ->
  loaded_bytes + Z.of_nat (length (concat cs)) < size.
Proof.
  induction cs as [|c0 cs IH]; intros loaded_bytes c Hrun; simpl in *.
  - inversion Hrun; subst. lia.
  - inversion Hrun as [|? ? ? Hlt Hc Hrest]; subst.
    apply IH in Hrest. rewrite length_app. lia.
Qed.

Lemma chunk_loop_returns pathname startOffset size fuel :
  forall loaded_bytes w old total w',
    chunk_loop peer pathname startOffset size fuel loaded_bytes w
    = (Ok (Some total), w') ->
    files w !! pathname = Some old ->
    exists chunks,
      chunk_run peer startOffset size loaded_bytes chunks
      /\ total = loaded_bytes + Z.of_nat (length (concat chunks))
      /\ files w' !! pathname = Some (old ++ concat chunks)%list.
Proof.
  induction fuel as [|fuel IH]; intros loaded_bytes w old total w' Hrun Hold;
    simpl in Hrun;
    destruct (Z.ltb_spec loaded_bytes size) as [Hlt|Hge].
  - discriminate.
  - injection Hrun as <- <-. exists []. simpl.
    rewrite Z.add_0_r, app_nil_r. repeat split; auto. constructor. exact Hge.
  - revert Hrun. run_io.
    destruct (fetch_chunk peer (startOffset + loaded_bytes)) as [bs|e] eqn:Hbs;
      run_io; [ | discriminate ].
    rewrite Hold. simpl. intros Hrun.
    apply IH with (old := (old ++ bs)%list) in Hrun;
      [ | simpl; apply lookup_insert_eq ].
    destruct Hrun as (chunks & Hcr & -> & Hfile).
    exists (bs :: chunks). simpl. rewrite length_app.
    split; [ constructor; assumption | ].
    split; [ lia | ]. rewrite Hfile, <- app_assoc. reflexivity.
  - injection Hrun as <- <-. exists []. simpl.
    rewrite Z.add_0_r, app_nil_r. repeat split; auto. constructor. exact Hge.
Qed.

(** X11. When the chunk loop of [download] exits, the file holds what it
    held before followed by the chunks fetched, each fetched at the start
    offset plus the bytes loaded before it; the bytes loaded are at least
    [size], and without the last chunk they were fewer than [size]: the
    loop stops at the first chunk that reaches the size, and may write
    more than [size] bytes. *)
Theorem chunk_loop_stops_at_size
  (pathname : string) (startOffset size : Z) (fuel : nat)
  (loaded_bytes : Z) (w w' : world) (old : list Byte.byte) (total : Z) :
  chunk_loop peer pathname startOffset size fuel loaded_bytes w
  = (Ok (Some total), w') ->
  files w !! pathname = Some old ->
  exists chunks,
    chunk_run peer startOffset size loaded_bytes chunks
    /\ files w' !! pathname = Some (old ++ concat chunks)%list
    /\ total = loaded_bytes + Z.of_nat (length (concat chunks))
    /\ size <= total
    /\ (forall cs c, chunks = (cs ++ [c])%list ->
          loaded_bytes + Z.of_nat (length (concat cs)) < size).
Proof.
  intros Hrun Hold.
  destruct (chunk_loop_returns _ _ _ _ _ _ _ _ _ Hrun Hold)
    as (chunks & Hcr & -> & Hfile).
  exists chunks. repeat split; auto.
  - apply (chunk_run_total _ _ _ _ Hcr).
  - intros cs c ->. apply (chunk_run_last _ _ _ _ _ Hcr).
Qed.

Lemma chunk_loop_spins pathname startOffset size loaded_bytes :
  (forall offset, fetch_chunk peer offset = Ok []) ->
  loaded_bytes < size ->
  forall fuel w,
    fst (chunk_loop peer pathname startOffset size fuel loaded_bytes w)
    = Ok None.
Proof.
  intros Hempty Hlt fuel.
  induction fuel as [|fuel IH]; intros w; simpl;
    destruct (Z.ltb_spec loaded_bytes size); try lia; [ reflexivity | ].
  run_io. rewrite Hempty. run_io. rewrite Z.add_0_r. apply IH.
Qed.

(** X12. The chunk loop makes no progress on an empty chunk: when the
    direct download fails, the transaction is not below MAX_NODE_BYTES,
    its size is positive and every chunk decodes to the empty byte
    string, the loop fetches the same offset again and again and
    [download] does not return, however many iterations it is given. *)
Theorem download_spins_on_empty_chunks
  (pathname txid : string) (w : world) (e : exn)
  (chunk_offset : pydict string Z) (size offset : Z) :
  data peer txid = Raise e ->
  tx_offset peer txid = Ok chunk_offset ->
  dict_get chunk_offset "size" = Some size ->
  dict_get chunk_offset "offset" = Some offset ->
  MAX_NODE_BYTES utils <= size ->
  0 < size ->
  (forall o, fetch_chunk peer o = Ok []) ->
  forall fuel, fst (download peer utils fuel pathname txid w) = Ok None.
Proof.
  intros Hdata Hoff Hsize Hoffset Hbig Hpos Hempty fuel.
  unfold download, subscript. run_io. rewrite Hdata. run_io.
  rewrite Hoff. run_io. rewrite Hsize. run_io. rewrite Hoffset. run_io.
  destruct (Z.ltb_spec size (MAX_NODE_BYTES utils)) as [|_]; [ lia | ].
  run_io.
  match goal with
  | |- context [chunk_loop ?p ?n ?s ?z ?f ?l ?w0] =>
      pose proof (chunk_loop_spins n s z l Hempty Hpos f w0) as Hspin;
      destruct (chunk_loop p n s z f l w0) as [r w1]
  end.
  simpl in Hspin. subst r. reflexivity.
Qed.

(** X13. Every call of [file_exists] that gets the transaction's size and
    tags logs exactly one line, as its last step, and the value returned
    is the conjunction of the three flags in that line. The checks are
    made in order and stop at the first that fails: the size of the file
    is read only when the file exists, and its digest only when the size
    matches, so the flags after a failed check are logged as [False]
    without being computed. *)
Theorem file_exists_logs_flags
  (file_path txid : string) (w : world) (res : json)
  (tx_file_size : Z) (tx_tags : pydict string string) :
  graphql peer (query_str txid) = Ok res ->
  tx_file_size_of utils res = Ok tx_file_size ->
  tx_tags_of utils res = Ok tx_tags ->
  exists local_file_exists size_matches digest_matches w',
    file_exists peer utils file_path txid w
    = (Ok (local_file_exists && size_matches && digest_matches), w')
    /\ trace w' = (trace w ++
         EvGraphql (query_str txid)
         :: checks_made file_path local_file_exists size_matches ++
         [ EvLog (log_line file_path local_file_exists size_matches
                    digest_matches) ])%list
    /\ (local_file_exists = true <-> is_Some (files w !! file_path))
    /\ (size_matches = true
        <-> exists content,
              files w !! file_path = Some content
              /\ tx_file_size = Z.of_nat (length content))
    /\ (local_file_exists = false -> size_matches = false)
    /\ (size_matches = false -> digest_matches = false).
Proof.
  intros Hq Hsize Htags.
  rewrite (file_exists_run _ _ _ _ _ _ Hq Hsize Htags).
  destruct (files w !! file_path) as [content|].
  - destruct (Z.eqb_spec tx_file_size (Z.of_nat (length content)))
      as [Heq|Hne].
    + exists true, true, (tag_matches tx_tags (sha256_hexdigest utils content)).
      eexists. split; [ reflexivity | ]. cbn [trace checks_made app].
      split; [ reflexivity | ]. split; [ split; eauto | ].
      split; [ split; eauto | ]. split; discriminate.
    + exists true, false, false.
      eexists. split; [ reflexivity | ]. cbn [trace checks_made app].
      split; [ reflexivity | ]. split; [ split; eauto | ].
      split; [ | split; [ discriminate | reflexivity ] ].
      split; [ discriminate | ]. intros (c & [= <-] & Hc). contradiction.
  - exists false, false, false.
    eexists. split; [ reflexivity | ]. cbn [trace checks_made app].
    split; [ reflexivity | ].
    split; [ split; [ discriminate | intros [c Hc]; discriminate ] | ].
    split; [ | split; reflexivity ].
    split; [ discriminate | ]. intros (c & Hc & _). discriminate.
Qed.

(** X14. [file_exists] asks the peer before it looks at the local file:
    when the query raises, or the answer has no transaction under "data"
    (a null, as for an unknown id), the call raises (in the second case
    [TypeError]) after the query alone, also when the local file does not
    exist; it does not return [False]. *)
Theorem file_exists_raises_before_checks
  (file_path txid : string) (w : world) :
  (forall e,
     graphql peer (query_str txid) = Raise e ->
     file_exists peer utils file_path txid w
     = (Raise e,
        {| files := files w;
           trace := (trace w ++ [EvGraphql (query_str txid)])%list |}))
  /\ (forall res,
        graphql peer (query_str txid) = Ok res ->
        (a ← getitem res "data"; getitem a "transaction") = Ok JNull ->
        file_exists peer utils file_path txid w
        = (Raise TypeError,
           {| files := files w;
              trace := (trace w ++ [EvGraphql (query_str txid)])%list |})).
Proof.
  split.
  - intros e Hq. unfold file_exists. run_io. rewrite Hq. reflexivity.
  - intros res Hq Hnull. unfold file_exists. run_io. rewrite Hq. run_io.
    unfold tx_file_size_of.
    destruct (getitem res "data") as [a|e]; [ | discriminate ].
    rewrite bind_Ok in Hnull. rewrite bind_Ok, Hnull. reflexivity.
Qed.

(** X15. A file written by a direct download passes [file_exists]: when
    the peer serves the data directly and answers the query with a size
    that is the length of the data and a File-SHA256 tag that is its
    digest, [file_exists] on the downloaded file returns [True]. *)
Theorem download_then_file_exists
  (fuel : nat) (pathname txid : string) (w : world)
  (bytes : list Byte.byte) (res : json) (tx_tags : pydict string string) :
  data peer txid = Ok bytes ->
  graphql peer (query_str txid) = Ok res ->
  tx_file_size_of utils res = Ok (Z.of_nat (length bytes)) ->
  tx_tags_of utils res = Ok tx_tags ->
  dict_get tx_tags "File-SHA256" = Some (sha256_hexdigest utils bytes) ->
  fst (file_exists peer utils pathname txid
         (snd (download peer utils fuel pathname txid w)))
  = Ok true.
Proof.
  intros Hdata Hq Hsize Htags Htag.
  assert (Hdl : download peer utils fuel pathname txid w
                = (Ok (Some (abspath utils pathname)),
                   {| files := <[pathname := bytes]> (files w);
                      trace := (trace w ++ [EvData txid])%list |})).
  { unfold download. run_io. rewrite Hdata. run_io.
    rewrite lookup_insert_eq. simpl. rewrite insert_insert_eq. reflexivity. }
  rewrite Hdl. cbn [snd].
  rewrite (file_exists_run _ _ _ _ _ _ Hq Hsize Htags). cbn [files].
  rewrite lookup_insert_eq, Z.eqb_refl. cbn [fst].
  unfold tag_matches. rewrite bool_decide_eq_true_2 by exact Htag.
  reflexivity.
Qed.


End FileManagerProperties.

Section FileManagerWitnesses.
Import FileManager.

Lemma file_exists_checks_witness :
  exists b w',
    file_exists sample_peer sample_utils "model.bin" "tx1" sample_world
    = (Ok b, w')
    /\ files w' = files sample_world
    /\ (b = true <->
        checks_hold sample_utils (files sample_world)
          "model.bin" 2 [("File-SHA256", "digest-of-2-bytes")])
    /\ (files sample_world !! "model.bin" = None ->
        trace w' =
          (trace sample_world ++
           [ EvGraphql (query_str "tx1");
             EvExists "model.bin";
             EvLog
               (log_line "model.bin" false false false) ])%list)
    /\ (forall content,
          files sample_world !! "model.bin" = Some content ->
          2 <> Z.of_nat (length content) ->
          trace w' =
            (trace sample_world ++
             [ EvGraphql (query_str "tx1");
               EvExists "model.bin";
               EvGetsize "model.bin";
               EvLog
                 (log_line "model.bin" true false false) ])%list)
    /\ (forall content,
          files sample_world !! "model.bin" = Some content ->
          2 = Z.of_nat (length content) ->
          trace w' =
            (trace sample_world ++
             [ EvGraphql (query_str "tx1");
               EvExists "model.bin";
               EvGetsize "model.bin";
               EvDigest "model.bin";
               EvLog (log_line "model.bin" true true b) ])%list).
Proof.
  refine (proj2 (proj2 (proj2 (proj2
            (file_exists_checks sample_peer sample_utils "model.bin" "tx1"
               sample_world))))
            _ 2 [("File-SHA256", "digest-of-2-bytes")] eq_refl _).
  do 6 eexists. repeat (split; [ reflexivity | ]). reflexivity.
Defined.

(** The claim of C6 as it is worded fails where the first check fails
    and the transaction is unknown: the file is missing, and the call
    raises instead of returning [False]. *)
Lemma file_exists_raises_for_missing_file :
  files sample_world !! "missing.bin" = None
  /\ fst (file_exists empty_chunk_peer sample_utils "missing.bin" "tx0"
            sample_world)
     = Raise TypeError.
Proof. split; reflexivity. Qed.

(** The chunk loop fetches from [chunked_peer] at 8 and at 10. *)
Lemma chunked_peer_fetches loaded_bytes :
  fetches chunked_peer 8 3 loaded_bytes ->
  loaded_bytes = 0 \/ loaded_bytes = 2.
Proof.
  induction 1 as [Hpos | loaded_bytes bs Hreach IH Hdec Hmore];
    [ left; reflexivity | ].
  destruct Hdec as (d & chunkData & Hchunk & Hkey & Hbs).
  destruct IH as [-> | ->]; vm_compute in Hchunk;
    injection Hchunk as <-; vm_compute in Hkey;
    injection Hkey as <-; vm_compute in Hbs; injection Hbs as <-.
  - right. reflexivity.
  - simpl in Hmore. lia.
Qed.

Lemma download_after_direct_failure_witness :
  exists chunks w',
    download chunked_peer sample_utils 3 "model.bin" "tx1" sample_world
    = (Ok (Some "/data/model.bin"), w')
    /\ Forall2 (decodes_to chunked_peer)
         (chunk_offsets (10 - 3 + 1) chunks) chunks
    /\ files w' !! "model.bin" = Some (concat chunks)
    /\ 3 <= Z.of_nat (length (concat chunks))
    /\ trace w' =
         (trace sample_world ++
          [ EvData "tx1";
            EvLog (direct_failed_line "tx1");
            EvTxOffset "tx1" ]
          ++ map EvChunk
               (chunk_offsets (10 - 3 + 1) chunks))%list.
Proof.
  refine (proj2 (download_after_direct_failure chunked_peer sample_utils
            "model.bin" "tx1" sample_world PeerError
            [("size", 3); ("offset", 10)] 3 10
            eq_refl eq_refl eq_refl eq_refl) _ _ 3%nat _).
  - simpl. lia.
  - intros loaded_bytes Hreach.
    destruct (chunked_peer_fetches loaded_bytes Hreach) as [-> | ->].
    + exists [Byte.x41; Byte.x42]. split; [ | discriminate ].
      exists [("chunk", "QUI=")], "QUI=". repeat split.
    + exists [Byte.x43]. split; [ | discriminate ].
      exists [("chunk", "Qw==")], "Qw==". repeat split.
  - simpl. lia.
Defined.

Example download_in_two_chunks :
  let w' := snd (download chunked_peer sample_utils 3 "model.bin" "tx1"
                   sample_world) in
  files w' !! "model.bin" = Some [Byte.x41; Byte.x42; Byte.x43]
  /\ trace w'
     = [ EvData "tx1"; EvLog (direct_failed_line "tx1"); EvTxOffset "tx1";
         EvChunk 8; EvChunk 10 ].
Proof. split; reflexivity. Qed.

Lemma download_direct_witness :
  download direct_peer sample_utils 0 "model.bin" "tx1" sample_world
  = (Ok (Some "/data/model.bin"),
     {| files := <["model.bin" := [Byte.x41; Byte.x42]]> (files sample_world);
        trace := (trace sample_world ++ [EvData "tx1"])%list |}).
Proof.
  exact (download_direct direct_peer sample_utils 0 "model.bin" "tx1"
           sample_world [Byte.x41; Byte.x42] eq_refl).
Defined.

Lemma download_failure_truncates_witness :
  download failing_peer sample_utils 0 "model.bin" "tx1" sample_world
  = (Raise PeerError,
     {| files := <["model.bin" := []]> (files sample_world);
        trace := (trace sample_world ++
          [ EvData "tx1"; EvLog (direct_failed_line "tx1");
            EvTxOffset "tx1" ])%list |}).
Proof.
  exact (download_failure_truncates failing_peer sample_utils 0 "model.bin"
           "tx1" sample_world PeerError PeerError eq_refl eq_refl).
Defined.

Lemma chunk_loop_stops_at_size_witness :
  exists chunks,
    chunk_run sample_peer 8 3 0 chunks
    /\ files (snd (chunk_loop sample_peer "model.bin" 8 3 2 0 sample_world))
       !! "model.bin" = Some ([Byte.x41; Byte.x42] ++ concat chunks)%list
    /\ 4 = 0 + Z.of_nat (length (concat chunks))
    /\ 3 <= 4
    /\ (forall cs c, chunks = (cs ++ [c])%list ->
          0 + Z.of_nat (length (concat cs)) < 3).
Proof.
  exact (chunk_loop_stops_at_size sample_peer "model.bin" 8 3 2 0
           sample_world
           (snd (chunk_loop sample_peer "model.bin" 8 3 2 0 sample_world))
           [Byte.x41; Byte.x42] 4 eq_refl eq_refl).
Defined.

Lemma download_spins_on_empty_chunks_witness :
  (MAX_NODE_BYTES sample_utils <= 3 /\ 0 < 3)
  /\ forall fuel,
       fst (download empty_chunk_peer sample_utils fuel "model.bin" "tx1"
              sample_world) = Ok None.
Proof.
  assert (Hbig : MAX_NODE_BYTES sample_utils <= 3) by (simpl; lia).
  assert (Hpos : 0 < 3) by lia.
  split; [ split; assumption | ].
  exact (download_spins_on_empty_chunks empty_chunk_peer sample_utils
           "model.bin" "tx1" sample_world PeerError
           [("size", 3); ("offset", 10)] 3 10
           eq_refl eq_refl eq_refl eq_refl Hbig Hpos (fun _ => eq_refl)).
Defined.

Lemma file_exists_logs_flags_witness :
  exists local_file_exists size_matches digest_matches w',
    file_exists sample_peer sample_utils "model.bin" "tx1" sample_world
    = (Ok (local_file_exists && size_matches && digest_matches), w')
    /\ trace w' = (trace sample_world ++
         EvGraphql (query_str "tx1")
         :: checks_made "model.bin" local_file_exists size_matches ++
         [ EvLog (log_line "model.bin" local_file_exists size_matches
                    digest_matches) ])%list
    /\ (local_file_exists = true
        <-> is_Some (files sample_world !! "model.bin"))
    /\ (size_matches = true
        <-> exists content,
              files sample_world !! "model.bin" = Some content
              /\ 2 = Z.of_nat (length content))
    /\ (local_file_exists = false -> size_matches = false)
    /\ (size_matches = false -> digest_matches = false).
Proof.
  exact (file_exists_logs_flags sample_peer sample_utils "model.bin" "tx1"
           sample_world _ 2 [("File-SHA256", "digest-of-2-bytes")]
           eq_refl eq_refl eq_refl).
Defined.

Lemma download_then_file_exists_witness :
  fst (file_exists direct_peer sample_utils "copy.bin" "tx1"
         (snd (download direct_peer sample_utils 0 "copy.bin" "tx1"
                 sample_world)))
  = Ok true.
Proof.
  exact (download_then_file_exists direct_peer sample_utils 0 "copy.bin"
           "tx1" sample_world [Byte.x41; Byte.x42] _
           [("File-SHA256", "digest-of-2-bytes")]
           eq_refl eq_refl eq_refl eq_refl eq_refl).
Defined.

End FileManagerWitnesses.

(** ** The node's tracker and retry policy *)

Section TrackerProperties.
Import Tracker.

Variables (policy : RetryPolicy) (runner : JobRunner) (poll : nat).
Variables (subs : list Subscription) (sub : Subscription).

Hypothesis poll_positive : (1 <= poll)%nat.
Hypothesis attempts_positive : (1 <= max_attempts policy)%nat.
Hypothesis redundancy_positive : (1 <= redundancy sub)%nat.
Hypothesis registered :
  subscriptions (ingest subs empty_tracker) !! id sub = Some sub.
Hypothesis always_retryable :
  forall i a, exists reason, runner (id sub) i a = RetryableFailure reason.
Hypothesis others_differ :
  forall s, In s subs -> id s <> id sub ->
    matches_give_up (identifier sub) (give_up_line (id s)) = false.

Local Abbreviation registry := (subscriptions (ingest subs empty_tracker)).
Local Abbreviation step := (tick policy runner poll).
Local Abbreviation run := (node_loop policy runner poll).
Local Abbreviation attempt_of :=
  (fun n x => attempt policy runner (fst x) (snd x) n).

(** *** The registry *)

Lemma register_lookup s t t' j s' :
  register s t = Ok t' ->
  subscriptions t' !! j = Some s' ->
  subscriptions t !! j = Some s' \/ (s' = s /\ j = id s).
Proof.
  unfold register. destruct (subscriptions t !! id s) as [known|] eqn:Hk.
  - destruct (decide (known = s)); [ | discriminate ].
    intros [= <-]. auto.
  - intros [= <-]. simpl. intros Hl.
    destruct (decide (id s = j)) as [<-|Hne].
    + rewrite lookup_insert_eq in Hl. injection Hl as <-. auto.
    + rewrite lookup_insert_ne in Hl by exact Hne. auto.
Qed.

Lemma register_states s t t' :
  register s t = Ok t' ->
  states t' = states t /\ fulfillment_count t' = fulfillment_count t.
Proof.
  unfold register. destruct (subscriptions t !! id s) as [known|].
  - destruct (decide (known = s)); [ | discriminate ]. intros [= <-]. auto.
  - intros [= <-]. auto.
Qed.

Lemma ingest_lookup l : forall t j s,
  subscriptions (ingest l t) !! j = Some s ->
  subscriptions t !! j = Some s \/ (In s l /\ j = id s).
Proof.
  induction l as [|s0 l IH]; intros t j s; [ auto | ].
  cbn [ingest fold_left]. intros Hl. apply IH in Hl.
  destruct Hl as [Hl | [Hin ->]]; [ | right; split; [ right | ]; auto ].
  destruct (register s0 t) as [t'|e] eqn:Hreg; [ | auto ].
  destruct (register_lookup _ _ _ _ _ Hreg Hl) as [H | [-> ->]]; [ auto | ].
  right. split; [ left | ]; reflexivity.
Qed.

Lemma ingest_states l : forall t,
  states (ingest l t) = states t
  /\ fulfillment_count (ingest l t) = fulfillment_count t.
Proof.
  induction l as [|s0 l IH]; intros t; [ auto | ].
  change (ingest (s0 :: l) t)
    with (ingest l (match register s0 t with
                    | Ok t' => t'
                    | Raise _ => t
                    end)).
  destruct (IH (match register s0 t with
                | Ok t' => t'
                | Raise _ => t
                end)) as [-> ->].
  destruct (register s0 t) as [t'|e] eqn:Hreg; [ | auto ].
  apply (register_states _ _ _ Hreg).
Qed.

Lemma registry_keyed j s : registry !! j = Some s -> In s subs /\ j = id s.
Proof.
  intros Hl. apply ingest_lookup in Hl. destruct Hl as [Hl | H]; [ | exact H ].
  simpl in Hl. rewrite lookup_empty in Hl. discriminate.
Qed.

Lemma same_subscription s :
  registry !! id s = Some s -> id s = id sub -> s = sub.
Proof. intros Hs Heq. rewrite Heq, registered in Hs. congruence. Qed.

(** *** One attempt *)

Lemma state_of_set_state t k st : state_of (set_state t k st) k = st.
Proof.
  unfold state_of, set_state. simpl. rewrite lookup_insert_eq. reflexivity.
Qed.

Lemma state_of_set_state_ne t k k' st :
  k <> k' -> state_of (set_state t k st) k' = state_of t k'.
Proof.
  intros Hne. unfold state_of, set_state. simpl.
  rewrite lookup_insert_ne by exact Hne. reflexivity.
Qed.

Lemma set_state_twice t k st st' :
  set_state (set_state t k st) k st' = set_state t k st'.
Proof. unfold set_state. simpl. rewrite insert_insert_eq. reflexivity. Qed.

(** An attempt either finds the interval not pending and does nothing,
    or counts the attempt, stores the state the outcome gives, and logs
    the give-up line when that state is EXHAUSTED. *)
Lemma attempt_cases s j n :
  (status (state_of (trk n) (id s, j)) <> PENDING
   /\ attempt policy runner s j n = n)
  \/ (status (state_of (trk n) (id s, j)) = PENDING
      /\ exists st',
           attempt policy runner s j n
           = {| clock := clock n;
                trk := set_state (trk n) (id s, j) st';
                log := if decide (status st' = EXHAUSTED)
                       then (log n ++ [give_up_line (id s)])%list
                       else log n |}
           /\ attempts st' = S (attempts (state_of (trk n) (id s, j)))
           /\ (forall reason,
                 runner (id s) j (S (attempts (state_of (trk n) (id s, j))))
                 = RetryableFailure reason ->
                 st' = failed_once policy (state_of (trk n) (id s, j))
                         (clock n))).
Proof.
  unfold attempt, record_attempt_start.
  destruct (status (state_of (trk n) (id s, j))) eqn:Hs;
    [ right; split; [ reflexivity | ]
    | left; split; [ discriminate | reflexivity ] ..
    ].
  cbv zeta. rewrite state_of_set_state. cbn [attempts].
  unfold record_attempt_result. rewrite state_of_set_state. cbn [status].
  destruct (runner (id s) j (S (attempts (state_of (trk n) (id s, j)))))
    as [|reason|reason] eqn:Hout.
  - eexists. rewrite set_state_twice, state_of_set_state.
    split; [ reflexivity | ]. split; [ reflexivity | ]. discriminate.
  - cbn [with_status attempts].
    destruct (bool_decide (S (attempts (state_of (trk n) (id s, j)))
                           < max_attempts policy)%nat) eqn:Hlt;
      eexists; rewrite set_state_twice, state_of_set_state;
      (split; [ reflexivity | ]); (split; [ reflexivity | ]);
      intros _ _; unfold failed_once, with_status; cbn [attempts];
      rewrite Hlt; reflexivity.
  - eexists. rewrite set_state_twice, state_of_set_state.
    split; [ reflexivity | ]. split; [ reflexivity | ]. discriminate.
Qed.

Lemma attempt_frame s j n :
  clock (attempt policy runner s j n) = clock n
  /\ subscriptions (trk (attempt policy runner s j n)) = subscriptions (trk n)
  /\ (forall k, count_of (trk (attempt policy runner s j n)) k
                = count_of (trk n) k)
  /\ (forall k, k <> (id s, j) ->
        state_of (trk (attempt policy runner s j n)) k = state_of (trk n) k)
  /\ (log (attempt policy runner s j n) = log n
      \/ log (attempt policy runner s j n)
         = (log n ++ [give_up_line (id s)])%list).
Proof.
  destruct (attempt_cases s j n) as [[_ ->] | (_ & st' & -> & _)].
  - repeat split; auto.
  - cbn [clock trk log]. repeat split; auto.
    + intros k Hk. apply state_of_set_state_ne. congruence.
    + destruct (decide (status st' = EXHAUSTED)); auto.
Qed.

(** *** Counting the intervals given up *)

Lemma filter_flip (f g : nat -> bool) (i0 : nat) : forall len start,
  (start <= i0 < start + len)%nat ->
  f i0 = false -> g i0 = true ->
  (forall i, i <> i0 -> g i = f i) ->
  length (List.filter g (seq start len))
  = S (length (List.filter f (seq start len))).
Proof.
  induction len as [|len IH]; intros start Hin Hf Hg Hext; [ lia | ].
  cbn [seq List.filter].
  destruct (decide (start = i0)) as [->|Hne].
  - rewrite Hf, Hg. cbn [length]. f_equal. f_equal.
    apply List.filter_ext_in. intros i Hi. apply in_seq in Hi.
    apply Hext. lia.
  - rewrite (Hext start Hne).
    destruct (f start); cbn [length]; rewrite (IH (S start)); auto; lia.
Qed.

Lemma given_up_same t t' :
  (forall i, status (state_of t' (id sub, i))
             = status (state_of t (id sub, i))) ->
  given_up t' sub = given_up t sub.
Proof.
  intros Hext. unfold given_up. f_equal.
  apply List.filter_ext. intros i. rewrite Hext. reflexivity.
Qed.

Lemma given_up_more t t' i0 :
  (i0 < frequency sub)%nat ->
  status (state_of t (id sub, i0)) <> EXHAUSTED ->
  status (state_of t' (id sub, i0)) = EXHAUSTED ->
  (forall i, i <> i0 ->
     status (state_of t' (id sub, i)) = status (state_of t (id sub, i))) ->
  given_up t' sub = S (given_up t sub).
Proof.
  intros Hin Hold Hnew Hext. unfold given_up.
  apply (filter_flip _ _ i0); [ lia | | | ].
  - apply bool_decide_eq_false. exact Hold.
  - apply bool_decide_eq_true. exact Hnew.
  - intros i Hi. rewrite (Hext i Hi). reflexivity.
Qed.

Lemma given_up_all t :
  (forall i, (i < frequency sub)%nat ->
     status (state_of t (id sub, i)) = EXHAUSTED) ->
  given_up t sub = frequency sub.
Proof.
  intros Hall. unfold given_up.
  rewrite forallb_filter_id; [ apply length_seq | ].
  apply forallb_forall. intros i Hi.
  apply in_seq in Hi. apply bool_decide_eq_true, Hall. lia.
Qed.

(** *** The give-up line *)

Lemma prefix_refl x : String.prefix x x = true.
Proof.
  induction x as [|c x IH]; simpl; [ reflexivity | ].
  destruct (Ascii.ascii_dec c c); [ exact IH | contradiction ].
Qed.

Lemma contains_self x : contains x x = true.
Proof.
  destruct x as [|c x]; [ reflexivity | ].
  change (contains (String c x) (String c x))
    with (String.prefix (String c x) (String c x) || contains (String c x) x).
  rewrite prefix_refl. reflexivity.
Qed.

Lemma contains_later c x hay :
  contains x hay = true -> contains x (String c hay) = true.
Proof.
  intros H.
  change (contains x (String c hay))
    with (String.prefix x (String c hay) || contains x hay).
  rewrite H. apply orb_true_r.
Qed.

Lemma give_up_line_shows s :
  give_up_line (id s) = give_up_message ++ " id=" ++ identifier s.
Proof. unfold give_up_line, identifier. destruct (id s); reflexivity. Qed.

Lemma give_up_line_matches s :
  matches_give_up (identifier s) (give_up_line (id s)) = true.
Proof.
  rewrite give_up_line_shows. unfold matches_give_up.
  change (String.prefix give_up_message
            (give_up_message ++ " id=" ++ identifier s)) with true.
  change (string_drop (String.length give_up_message)
            (give_up_message ++ " id=" ++ identifier s))
    with (String " " (String "i" (String "d" (String "=" (identifier s))))).
  rewrite andb_true_l. do 4 apply contains_later. apply contains_self.
Qed.

(** *** What an attempt keeps *)

Lemma filter_none (f : nat -> bool) (l : list nat) :
  (forall i, f i = false) -> List.filter f l = [].
Proof.
  intros Hf. induction l as [|i l IH]; [ reflexivity | ].
  cbn [List.filter]. rewrite Hf. exact IH.
Qed.

Lemma retrying_start t0 : retrying policy registry sub (start t0 subs).
Proof.
  destruct (ingest_states subs empty_tracker) as [Hst Hfc].
  assert (Hfresh : forall i,
            state_of (ingest subs empty_tracker) (id sub, i) = fresh).
  { intros i. unfold state_of. rewrite Hst. simpl. rewrite lookup_empty.
    reflexivity. }
  unfold retrying, start. cbn [trk log].
  split; [ reflexivity | ]. split; [ | split ].
  - intros i. unfold count_of. rewrite Hfc. simpl. rewrite lookup_empty.
    reflexivity.
  - intros i. left. rewrite Hfresh. simpl. split; [ reflexivity | lia ].
  - unfold given_up. rewrite filter_none; [ reflexivity | ].
    intros i. rewrite Hfresh. reflexivity.
Qed.

(** An attempt on a registered interval keeps the invariant, and takes
    no attempt back. *)
Lemma attempt_retrying s j n :
  registry !! id s = Some s -> (j < frequency s)%nat ->
  retrying policy registry sub n ->
  retrying policy registry sub (attempt policy runner s j n)
  /\ (forall i,
        (attempts (state_of (trk n) (id sub, i))
         <= attempts (state_of (trk (attempt policy runner s j n))
                        (id sub, i)))%nat).
Proof.
  intros Hreg Hj (Hsubs & Hcount & Hst & Hlog).
  destruct (attempt_frame s j n) as (_ & Hsubs' & Hcount' & Hframe & Hlog').
  destruct (decide (id s = id sub)) as [Heq|Hne].
  - pose proof (same_subscription s Hreg Heq) as ->.
    destruct (attempt_cases sub j n)
      as [[_ ->] | (Hp & st' & Hrun & _ & Hfail)];
      [ split; [ repeat split; auto | auto ] | ].
    destruct (always_retryable j
                (S (attempts (state_of (trk n) (id sub, j)))))
      as [reason Hr].
    rewrite (Hfail reason Hr) in Hrun. clear Hfail. rewrite Hrun.
    cbn [trk log]. clear Hrun Hsubs' Hcount' Hframe Hlog'.
    assert (Hlt : (attempts (state_of (trk n) (id sub, j))
                   < max_attempts policy)%nat).
    { destruct (Hst j) as [[_ H] | [H _]]; [ exact H | congruence ]. }
    assert (Hother : forall i, i <> j ->
              state_of (set_state (trk n) (id sub, j)
                          (failed_once policy (state_of (trk n) (id sub, j))
                             (clock n))) (id sub, i)
              = state_of (trk n) (id sub, i)).
    { intros i Hi. apply state_of_set_state_ne. congruence. }
    split.
    + unfold retrying. cbn [trk log].
      split; [ exact Hsubs | ]. split; [ exact Hcount | ]. split.
      * intros i. destruct (decide (i = j)) as [->|Hi].
        -- rewrite state_of_set_state. unfold failed_once. cbn [status attempts].
           destruct (bool_decide
                       (S (attempts (state_of (trk n) (id sub, j)))
                        < max_attempts policy)%nat) eqn:Hmore.
           ++ apply bool_decide_eq_true in Hmore. left. auto.
           ++ apply bool_decide_eq_false in Hmore. right.
              split; [ reflexivity | lia ].
        -- rewrite (Hother i Hi). apply Hst.
      * destruct (decide
                    (status (failed_once policy
                               (state_of (trk n) (id sub, j)) (clock n))
                     = EXHAUSTED)) as [Hex|Hnex].
        -- rewrite List.filter_app, Hlog. cbn [List.filter].
           rewrite (give_up_line_matches sub), give_up_line_shows.
           rewrite <- repeat_cons.
           change (?a :: repeat ?a ?m) with (repeat a (S m)).
           f_equal. symmetry. apply (given_up_more _ _ j Hj).
           ++ congruence.
           ++ rewrite state_of_set_state. exact Hex.
           ++ intros i Hi. rewrite (Hother i Hi). reflexivity.
        -- rewrite Hlog. f_equal. apply given_up_same. intros i.
           destruct (decide (i = j)) as [->|Hi];
             [ | rewrite (Hother i Hi); reflexivity ].
           rewrite state_of_set_state, Hp.
           unfold failed_once in Hnex |- *. cbn [status] in Hnex |- *.
           destruct (bool_decide
                       (S (attempts (state_of (trk n) (id sub, j)))
                        < max_attempts policy)%nat);
             [ reflexivity | contradiction ].
    + intros i. cbn [trk]. destruct (decide (i = j)) as [->|Hi].
      * rewrite state_of_set_state. unfold failed_once. cbn [attempts]. lia.
      * rewrite (Hother i Hi). lia.
  - assert (Hsame : forall i,
              state_of (trk (attempt policy runner s j n)) (id sub, i)
              = state_of (trk n) (id sub, i)).
    { intros i. apply Hframe. congruence. }
    split.
    + split; [ rewrite Hsubs'; exact Hsubs | ].
      split; [ intros i; rewrite Hcount'; apply Hcount | ].
      split; [ intros i; rewrite Hsame; apply Hst | ].
      rewrite (given_up_same (trk n))
        by (intros i; rewrite Hsame; reflexivity).
      destruct Hlog' as [-> | ->]; [ exact Hlog | ].
      rewrite List.filter_app, Hlog. cbn [List.filter].
      rewrite (others_differ s (proj1 (registry_keyed _ _ Hreg)) Hne).
      apply app_nil_r.
    + intros i. rewrite Hsame. lia.
Qed.

(** A pending interval whose attempt fails retryably has one attempt
    more after it. *)
Lemma attempt_pending j n :
  status (state_of (trk n) (id sub, j)) = PENDING ->
  attempts (state_of (trk (attempt policy runner sub j n)) (id sub, j))
  = S (attempts (state_of (trk n) (id sub, j))).
Proof.
  intros Hp.
  destruct (attempt_cases sub j n)
    as [[Hnp _] | (_ & st' & -> & Hatt & _)]; [ contradiction | ].
  cbn [trk]. rewrite state_of_set_state. exact Hatt.
Qed.

(** *** The attempts of a round *)

Lemma attempts_retrying l : forall n,
  Forall (tracked registry) l ->
  retrying policy registry sub n ->
  retrying policy registry sub (fold_left attempt_of l n)
  /\ clock (fold_left attempt_of l n) = clock n
  /\ (forall i,
        (attempts (state_of (trk n) (id sub, i))
         <= attempts (state_of (trk (fold_left attempt_of l n))
                        (id sub, i)))%nat).
Proof.
  induction l as [|x l IH]; intros n Hl Hn; [ simpl; auto | ].
  apply List.Forall_cons_iff in Hl. destruct Hl as [[Hreg Hj] Hl].
  destruct (attempt_retrying (fst x) (snd x) n Hreg Hj Hn) as [Hn' Hmono].
  destruct (IH _ Hl Hn') as (Hn'' & Hclock & Hmono').
  cbn [fold_left]. split; [ exact Hn'' | ]. split.
  - rewrite Hclock. apply attempt_frame.
  - intros i. specialize (Hmono i). specialize (Hmono' i). lia.
Qed.

Lemma attempts_elsewhere k l : forall n,
  Forall (fun x => k <> (id (fst x), snd x)) l ->
  state_of (trk (fold_left attempt_of l n)) k = state_of (trk n) k.
Proof.
  induction l as [|x l IH]; intros n Hl; [ reflexivity | ].
  apply List.Forall_cons_iff in Hl. destruct Hl as [Hx Hl].
  cbn [fold_left]. rewrite (IH _ Hl).
  destruct (attempt_frame (fst x) (snd x) n) as (_ & _ & _ & Hframe & _).
  apply Hframe, Hx.
Qed.

Lemma attempts_reach i l : forall n,
  Forall (tracked registry) l ->
  retrying policy registry sub n ->
  In (sub, i) l ->
  status (state_of (trk n) (id sub, i)) = PENDING ->
  (S (attempts (state_of (trk n) (id sub, i)))
   <= attempts (state_of (trk (fold_left attempt_of l n)) (id sub, i)))%nat.
Proof.
  induction l as [|x l IH]; intros n Hl Hn Hin Hp; [ contradiction | ].
  apply List.Forall_cons_iff in Hl. destruct Hl as [[Hreg Hj] Hl].
  destruct (attempt_retrying (fst x) (snd x) n Hreg Hj Hn) as [Hn' _].
  cbn [fold_left].
  destruct (decide ((id (fst x), snd x) = (id sub, i))) as [Hk|Hk].
  - injection Hk as Hid Hi.
    pose proof (same_subscription (fst x) Hreg Hid) as Hs.
    rewrite Hs, Hi.
    destruct (attempts_retrying l _ Hl
                (proj1 (attempt_retrying sub i n
                          ltac:(rewrite <- Hs; exact Hreg)
                          ltac:(rewrite <- Hs, <- Hi; exact Hj) Hn)))
      as (_ & _ & Hmono).
    specialize (Hmono i). rewrite (attempt_pending i n Hp) in Hmono.
    exact Hmono.
  - destruct (attempt_frame (fst x) (snd x) n) as (_ & _ & _ & Hframe & _).
    assert (Hsame : state_of (trk (attempt policy runner (fst x) (snd x) n))
                      (id sub, i)
                    = state_of (trk n) (id sub, i)).
    { apply Hframe. congruence. }
    rewrite <- Hsame. apply IH; [ exact Hl | exact Hn' | | ].
    + destruct Hin as [Hx|Hin]; [ | exact Hin ].
      subst x. contradiction.
    + rewrite Hsame. exact Hp.
Qed.

(** *** The intervals a round pulls *)

Lemma due_intervals_tracked n x :
  subscriptions (trk n) = registry ->
  In x (due_intervals policy (trk n) (clock n)) ->
  tracked registry x /\ is_due policy (trk n) (fst x) (snd x) (clock n) = true.
Proof.
  intros Hsubs Hin. unfold due_intervals in Hin.
  apply list_elem_of_In in Hin. rewrite merge_sort_Permutation in Hin.
  apply list_elem_of_In, filter_In in Hin. destruct Hin as [Hc Hdue].
  split; [ | exact Hdue ]. unfold candidates in Hc.
  apply in_flat_map in Hc. destruct Hc as ([j s] & Hjs & Hx).
  apply list_elem_of_In, elem_of_map_to_list in Hjs. rewrite Hsubs in Hjs.
  cbn [snd] in Hx. apply in_map_iff in Hx. destruct Hx as (i & <- & Hi).
  apply in_seq in Hi. destruct (registry_keyed _ _ Hjs) as [_ ->].
  split; [ exact Hjs | simpl; lia ].
Qed.

Lemma due_intervals_pulled n i :
  subscriptions (trk n) = registry ->
  is_due policy (trk n) sub i (clock n) = true ->
  In (sub, i) (due_intervals policy (trk n) (clock n)).
Proof.
  intros Hsubs Hdue. unfold due_intervals.
  apply list_elem_of_In. rewrite merge_sort_Permutation.
  apply list_elem_of_In, filter_In. split; [ | exact Hdue ].
  unfold candidates. apply in_flat_map. exists (id sub, sub). split.
  - apply list_elem_of_In, elem_of_map_to_list. rewrite Hsubs.
    exact registered.
  - cbn [snd]. apply in_map, in_seq.
    unfold is_due in Hdue. rewrite !andb_true_iff in Hdue.
    destruct Hdue as ((((Hi & _) & _) & _) & _).
    apply bool_decide_eq_true in Hi. lia.
Qed.

Lemma due_intervals_all_tracked n :
  subscriptions (trk n) = registry ->
  Forall (tracked registry) (due_intervals policy (trk n) (clock n)).
Proof.
  intros Hsubs. apply List.Forall_forall. intros x Hx.
  apply (due_intervals_tracked n x Hsubs Hx).
Qed.

(** *** One round *)

Lemma step_retrying n :
  retrying policy registry sub n ->
  retrying policy registry sub (step n)
  /\ clock (step n) = (clock n + poll)%nat
  /\ (forall i,
        (attempts (state_of (trk n) (id sub, i))
         <= attempts (state_of (trk (step n)) (id sub, i)))%nat).
Proof.
  intros Hn.
  destruct (attempts_retrying _ n
              (due_intervals_all_tracked n (proj1 Hn)) Hn)
    as (Hn' & Hclock & Hmono).
  unfold tick. cbn [clock trk]. rewrite Hclock.
  split; [ exact Hn' | ]. split; [ reflexivity | exact Hmono ].
Qed.

Lemma step_idle n i :
  retrying policy registry sub n ->
  is_due policy (trk n) sub i (clock n) = false ->
  state_of (trk (step n)) (id sub, i) = state_of (trk n) (id sub, i).
Proof.
  intros Hn Hdue. unfold tick. cbn [trk].
  apply attempts_elsewhere. apply List.Forall_forall. intros x Hx Hk.
  destruct (due_intervals_tracked n x (proj1 Hn) Hx) as [[Hreg _] Hxdue].
  injection Hk as Hid Hi.
  rewrite (same_subscription (fst x) Hreg (eq_sym Hid)), <- Hi in Hxdue.
  congruence.
Qed.

Lemma is_due_pending n i :
  is_due policy (trk n) sub i (clock n) = true ->
  status (state_of (trk n) (id sub, i)) = PENDING.
Proof.
  unfold is_due. rewrite !andb_true_iff, !bool_decide_eq_true. tauto.
Qed.

Lemma step_attempt n i :
  retrying policy registry sub n ->
  is_due policy (trk n) sub i (clock n) = true ->
  (S (attempts (state_of (trk n) (id sub, i)))
   <= attempts (state_of (trk (step n)) (id sub, i)))%nat.
Proof.
  intros Hn Hdue. unfold tick. cbn [trk].
  apply attempts_reach.
  - apply due_intervals_all_tracked, Hn.
  - exact Hn.
  - apply due_intervals_pulled; [ apply Hn | exact Hdue ].
  - apply is_due_pending, Hdue.
Qed.

Lemma is_due_deadline n i :
  (i < frequency sub)%nat ->
  retrying policy registry sub n ->
  status (state_of (trk n) (id sub, i)) = PENDING ->
  is_due policy (trk n) sub i (clock n) = true
  <-> (deadline policy sub i (state_of (trk n) (id sub, i)) <= clock n)%nat.
Proof.
  intros Hi (_ & Hcount & _) Hstatus. unfold is_due, eligible, deadline.
  rewrite Hcount, Hstatus.
  rewrite !andb_true_iff, orb_true_iff, !bool_decide_eq_true.
  destruct (bool_decide (attempts (state_of (trk n) (id sub, i)) = 0%nat))
    eqn:Hz.
  - apply bool_decide_eq_true in Hz. split.
    + intros ((((_ & Hd) & _) & _) & _). lia.
    + intros Hd. repeat split; auto; try lia.
  - apply bool_decide_eq_false in Hz. split.
    + intros ((((_ & Hd) & _) & _) & [Hc|Hb]); [ contradiction | lia ].
    + intros Hd. repeat split; auto; lia.
Qed.

(** *** Rounds *)

Lemma run_add a b n : run (a + b) n = run b (run a n).
Proof.
  revert n. induction a as [|a IH]; intros n; simpl; auto.
Qed.

Lemma retrying_run r : forall n,
  retrying policy registry sub n ->
  retrying policy registry sub (run r n)
  /\ (forall i,
        (attempts (state_of (trk n) (id sub, i))
         <= attempts (state_of (trk (run r n)) (id sub, i)))%nat).
Proof.
  induction r as [|r IH]; intros n Hn; [ simpl; auto | ].
  change (run (S r) n) with (run r (step n)).
  destruct (step_retrying n Hn) as (Hn' & _ & Hmono).
  destruct (IH _ Hn') as [Hn'' Hmono'].
  split; [ exact Hn'' | ].
  intros i. specialize (Hmono i). specialize (Hmono' i). lia.
Qed.

Lemma attempts_bounded n i :
  retrying policy registry sub n ->
  (attempts (state_of (trk n) (id sub, i)) <= max_attempts policy)%nat.
Proof. intros (_ & _ & Hst & _). destruct (Hst i) as [[_ H]|[_ H]]; lia. Qed.

(** A pending interval is attempted once more after finitely many
    rounds. *)
Lemma next_attempt i d : forall n,
  (i < frequency sub)%nat ->
  retrying policy registry sub n ->
  status (state_of (trk n) (id sub, i)) = PENDING ->
  (deadline policy sub i (state_of (trk n) (id sub, i)) <= clock n + d)%nat ->
  exists r,
    (S (attempts (state_of (trk n) (id sub, i)))
     <= attempts (state_of (trk (run r n)) (id sub, i)))%nat.
Proof.
  induction d as [|d IH]; intros n Hi Hn Hpending Hd.
  - exists 1%nat. change (run 1%nat n) with (step n).
    apply step_attempt; [ exact Hn | ].
    apply is_due_deadline; auto. lia.
  - destruct (is_due policy (trk n) sub i (clock n)) eqn:Hdue.
    + exists 1%nat. change (run 1%nat n) with (step n).
      apply step_attempt; assumption.
    + pose proof (step_idle n i Hn Hdue) as Hsame.
      destruct (step_retrying n Hn) as (Hn' & Hclock & _).
      destruct (IH (step n) Hi Hn') as [r Hr].
      * rewrite Hsame. exact Hpending.
      * rewrite Hsame, Hclock. lia.
      * exists (S r). change (run (S r) n) with (run r (step n)).
        rewrite Hsame in Hr. exact Hr.
Qed.

(** After finitely many rounds the attempts reach [max_attempts]. *)
Lemma attempts_exhausted i m : forall n,
  (i < frequency sub)%nat ->
  retrying policy registry sub n ->
  (max_attempts policy - attempts (state_of (trk n) (id sub, i)) <= m)%nat ->
  exists r,
    attempts (state_of (trk (run r n)) (id sub, i)) = max_attempts policy.
Proof.
  induction m as [|m IH]; intros n Hi Hn Hm.
  - exists 0%nat. change (run 0%nat n) with n.
    pose proof (attempts_bounded n i Hn). lia.
  - pose proof Hn as (_ & _ & Hst & _).
    destruct (Hst i) as [(Hpending & Hlt) | (_ & Hex)];
      [ | exists 0%nat; exact Hex ].
    destruct (next_attempt i
                (deadline policy sub i (state_of (trk n) (id sub, i)))
                n Hi Hn Hpending) as [r Hr]; [ lia | ].
    destruct (IH (run r n) Hi (proj1 (retrying_run r n Hn))) as [r' Hr'];
      [ lia | ].
    exists (r + r')%nat. rewrite run_add. exact Hr'.
Qed.

Lemma exhausted_stays r n i :
  retrying policy registry sub n ->
  attempts (state_of (trk n) (id sub, i)) = max_attempts policy ->
  attempts (state_of (trk (run r n)) (id sub, i)) = max_attempts policy.
Proof.
  intros Hn Hex. destruct (retrying_run r n Hn) as [Hn' Hmono].
  specialize (Hmono i). pose proof (attempts_bounded _ i Hn'). lia.
Qed.

(** After finitely many rounds every interval has used its attempts. *)
Lemma all_exhausted n m :
  (m <= frequency sub)%nat ->
  retrying policy registry sub n ->
  exists rounds, forall r, (rounds <= r)%nat ->
    forall i, (i < m)%nat ->
      attempts (state_of (trk (run r n)) (id sub, i)) = max_attempts policy.
Proof.
  intros Hm Hn. induction m as [|m IH].
  - exists 0%nat. intros r _ i Hi. lia.
  - destruct IH as [rounds Hrounds]; [ lia | ].
    destruct (attempts_exhausted m (max_attempts policy) n) as [r0 Hr0];
      [ lia | exact Hn | lia | ].
    exists (Nat.max rounds r0). intros r Hr i Hi.
    destruct (decide (i = m)) as [->|Hne].
    + replace r with (r0 + (r - r0))%nat by lia. rewrite run_add.
      apply exhausted_stays; [ apply retrying_run, Hn | exact Hr0 ].
    + apply Hrounds; lia.
Qed.

Lemma exhausted_status n i :
  retrying policy registry sub n ->
  status (state_of (trk n) (id sub, i)) = EXHAUSTED
  <-> attempts (state_of (trk n) (id sub, i)) = max_attempts policy.
Proof.
  intros (_ & _ & Hst & _).
  destruct (Hst i) as [[Hp Hlt]|[He Hex]]; split; intros H;
    try congruence; try lia; auto.
Qed.


End TrackerProperties.

Section TrackerWitnesses.
Import Tracker.



(** The intervals due together are pulled in the order of the
    tie-break: by [due_at], then by subscription, then by interval. *)
Example due_intervals_in_order :
  let policy := {| max_attempts := 2; backoff := fun a => a |} in
  let a := {| id := OnChainId 9; active_at := 0; period := 0;
              frequency := 2; redundancy := 1 |} in
  let b := {| id := OnChainId 4; active_at := 0; period := 3;
              frequency := 2; redundancy := 1 |} in
  due_intervals policy (trk (start 0 [a; b])) 5
  = [ (b, 0%nat); (a, 0%nat); (a, 1%nat); (b, 1%nat) ].
Proof. vm_compute. reflexivity. Qed.

End TrackerWitnesses.

(** ** config_creator.py *)

Section ConfigCreatorProperties.
Import ConfigCreator.

Lemma bind_run {S E A B} (m : stateful S E A) (k : A -> stateful S E B)
  (s s' : S) (a : A) :
  m s = (Ok a, s') -> (m ≫= k) s = k a s'.
Proof. intros H. unfold mbind, stateful_bind. rewrite H. reflexivity. Qed.

Lemma getitem_dict h l d key x :
  cells h !! l = Some (ODict d) -> dict_get d key = Some x ->
  getitem (VRef l) key h = (Ok x, h).
Proof.
  intros Hl Hk. unfold getitem, deref, mbind, stateful_bind.
  rewrite Hl, Hk. reflexivity.
Qed.

Lemma setitem_dict h l d key x :
  cells h !! l = Some (ODict d) ->
  setitem (VRef l) key x h
  = (Ok tt, {| cells := <[l := ODict (dict_set d key x)]> (cells h);
               next := next h |}).
Proof.
  intros Hl. unfold setitem, deref, mbind, stateful_bind.
  rewrite Hl. reflexivity.
Qed.

Lemma append_list h l xs x :
  cells h !! l = Some (OList xs) ->
  append (VRef l) x h
  = (Ok tt, {| cells := <[l := OList (xs ++ [x])%list]> (cells h);
               next := next h |}).
Proof.
  intros Hl. unfold append, deref, mbind, stateful_bind.
  rewrite Hl. reflexivity.
Qed.

Lemma copy_dict h l d :
  cells h !! l = Some (ODict d) ->
  copy (VRef l) h
  = (Ok (VRef (next h)),
     {| cells := <[next h := ODict d]> (cells h); next := S (next h) |}).
Proof.
  intros Hl. unfold copy, deref, mbind, stateful_bind.
  rewrite Hl. reflexivity.
Qed.

Lemma dict_get_set_ne {V} (d : pydict string V) (key key' : string) (x : V) :
  key <> key' -> dict_get (dict_set d key x) key' = dict_get d key'.
Proof.
  intros Hne. induction d as [|[k0 v0] d IH]; simpl.
  - destruct (decide (key = key')); [ contradiction | reflexivity ].
  - destruct (decide (k0 = key)) as [->|Hk]; simpl.
    + destruct (decide (key = key')); [ contradiction | reflexivity ].
    + destruct (decide (k0 = key')); [ reflexivity | exact IH ].
Qed.

(** The loop appends one entry per service to the list object the
    configuration holds under "containers", and touches no other object
    that existed before. *)
Lemma for_each_appends services : forall h lcfg lc d xs,
  cells h !! lcfg = Some (ODict d) ->
  dict_get d "containers" = Some (VRef lc) ->
  cells h !! lc = Some (OList xs) ->
  (lcfg < next h)%nat -> (lc < next h)%nat -> lcfg <> lc ->
  exists h' ys,
    for_each services (add_container (VRef lcfg)) h = (Ok tt, h')
    /\ length ys = length services
    /\ cells h' !! lc = Some (OList (xs ++ ys)%list)
    /\ (next h <= next h')%nat
    /\ (forall l, (l < next h)%nat -> l <> lc -> cells h' !! l = cells h !! l).
Proof.
  induction services as [|service services IH];
    intros h lcfg lc d xs Hcfg Hd Hlc Hlt1 Hlt2 Hne.
  - exists h, []. simpl. rewrite app_nil_r. repeat split; auto.
  - set (h1 := {| cells :=
        <[lc := OList (xs ++ [VRef (S (S (S (next h))))])%list]>
        (<[S (S (S (next h))) := ODict
             [ ("id", VStr (name service));
               ("image", VStr (image_id service));
               ("env", env_vars service);
               ("port", VInt (port service));
               ("allowed_delegate_addresses", VRef (next h));
               ("allowed_addresses", VRef (S (next h)));
               ("allowed_ips", VRef (S (S (next h))));
               ("command", VStr "--bind=0.0.0.0:3000 --workers=2");
               ("external", VBool true) ]]>
        (<[S (S (next h)) := OList []]>
        (<[S (next h) := OList []]>
        (<[next h := OList []]> (cells h)))));
        next := S (S (S (S (next h)))) |}).
    assert (Hbody : add_container (VRef lcfg) service h = (Ok tt, h1)).
    { unfold add_container.
      rewrite (bind_run _ _ _ _ _ (getitem_dict h lcfg d _ _ Hcfg Hd)).
      unfold alloc at 1 2 3 4. unfold mbind at 1 2 3 4, stateful_bind. simpl.
      rewrite (append_list _ lc xs).
      - reflexivity.
      - simpl. rewrite !lookup_insert_ne by lia. exact Hlc. }
    destruct (IH h1 lcfg lc d (xs ++ [VRef (S (S (S (next h))))])%list)
      as (h' & ys & Hrun & Hlen & Hlc' & Hnext & Hframe).
    + subst h1. simpl. rewrite !lookup_insert_ne by lia. exact Hcfg.
    + exact Hd.
    + subst h1. simpl. apply lookup_insert_eq.
    + subst h1. simpl. lia.
    + subst h1. simpl. lia.
    + exact Hne.
    + exists h', (VRef (S (S (S (next h)))) :: ys).
      split; [ | split; [ | split; [ | split ] ] ].
      * simpl. fold (add_container (VRef lcfg) service).
        rewrite (bind_run _ _ _ _ _ Hbody). exact Hrun.
      * simpl. lia.
      * rewrite Hlc', <- app_assoc. reflexivity.
      * subst h1. simpl in Hnext. lia.
      * intros l Hl Hll. rewrite Hframe.
        -- subst h1. simpl. rewrite !lookup_insert_ne by lia. reflexivity.
        -- subst h1. simpl. lia.
        -- exact Hll.
Qed.

Lemma loaded_shape :
  exists h0, loaded = (Ok (VRef 7), h0) /\ base_shape h0 [].
Proof.
  eexists. split; [ vm_compute; reflexivity | ].
  split; [ simpl; lia | ].
  eexists _, _, _. repeat split; vm_compute; reflexivity.
Qed.

(** From any heap in which [base_config] has its shape, [get_config]
    returns a configuration that holds the very list of [base_config],
    grown by one entry per service. *)
Lemma get_config_appends services
  private_key coordinator_address payment_address rpc_url h xs :
  base_shape h xs ->
  exists cfg h' ys,
    get_config (VRef 7) services private_key coordinator_address
      payment_address rpc_url h = (Ok cfg, h')
    /\ length ys = length services
    /\ base_shape h' (xs ++ ys)%list
    /\ fst (getitem cfg "containers" h') = Ok (VRef 6)
    /\ fst (getitem (VRef 7) "containers" h') = Ok (VRef 6).
Proof.
  intros (Hnext & dbase & dchain & dwallet
          & Hbase & Hcont & Hchain & Hch & Hwallet & Hw & Hlist).
  set (lcfg := next h).
  set (h1 := {| cells := <[lcfg := ODict dbase]> (cells h); next := S lcfg |}).
  destruct (for_each_appends services h1 lcfg 6%nat dbase xs)
    as (h2 & ys & Hloop & Hlen & Hlist2 & Hnext2 & Hframe).
  { subst h1. simpl. apply lookup_insert_eq. }
  { exact Hcont. }
  { subst h1 lcfg. simpl. rewrite lookup_insert_ne by lia. exact Hlist. }
  { subst h1. simpl. lia. }
  { subst h1 lcfg. simpl. lia. }
  { subst lcfg. lia. }
  assert (Hcfg2 : cells h2 !! lcfg = Some (ODict dbase)).
  { rewrite Hframe; subst h1 lcfg; simpl; try lia. apply lookup_insert_eq. }
  assert (Hold : forall l, (l < 8)%nat -> l <> 6%nat ->
                           cells h2 !! l = cells h !! l).
  { intros l Hl Hl6. rewrite Hframe; subst h1 lcfg; simpl; try lia.
    apply lookup_insert_ne. lia. }
  set (dw1 := dict_set dwallet "private_key" (VStr private_key)).
  set (dw2 := dict_set dw1 "payment_address" (VStr payment_address)).
  set (dc1 := dict_set dchain "coordinator_address" (VStr coordinator_address)).
  set (dc2 := dict_set dc1 "rpc_url" (VStr rpc_url)).
  set (h3 := {| cells := <[2%nat := ODict dw1]> (cells h2); next := next h2 |}).
  set (h4 := {| cells := <[2%nat := ODict dw2]> (cells h3); next := next h3 |}).
  set (h5 := {| cells := <[3%nat := ODict dc1]> (cells h4); next := next h4 |}).
  set (h6 := {| cells := <[3%nat := ODict dc2]> (cells h5); next := next h5 |}).
  assert (Hrun : get_config (VRef 7) services private_key coordinator_address
                   payment_address rpc_url h = (Ok (VRef lcfg), h6)).
  { unfold get_config.
    rewrite (bind_run _ _ _ _ _ (copy_dict h 7 dbase Hbase)). fold lcfg h1.
    fold (add_container (VRef lcfg)).
    rewrite (bind_run _ _ _ _ _ Hloop).
    rewrite (bind_run _ _ _ _ _ (getitem_dict h2 lcfg dbase _ _ Hcfg2 Hchain)).
    rewrite (bind_run _ _ h2 h2 (VRef 2)).
    2: { apply (getitem_dict h2 3 dchain); [ | exact Hwallet ].
         rewrite Hold by lia. exact Hch. }
    rewrite (bind_run _ _ h2 h3 tt).
    2: { apply (setitem_dict h2 2 dwallet). rewrite Hold by lia. exact Hw. }
    rewrite (bind_run _ _ h3 h3 (VRef 3)).
    2: { apply (getitem_dict h3 lcfg dbase); [ | exact Hchain ].
         subst h3 lcfg. simpl. rewrite lookup_insert_ne by lia. exact Hcfg2. }
    rewrite (bind_run _ _ h3 h3 (VRef 2)).
    2: { apply (getitem_dict h3 3 dchain); [ | exact Hwallet ].
         subst h3. simpl. rewrite lookup_insert_ne by lia.
         rewrite Hold by lia. exact Hch. }
    rewrite (bind_run _ _ h3 h4 tt).
    2: { apply (setitem_dict h3 2 dw1). subst h3. simpl.
         apply lookup_insert_eq. }
    rewrite (bind_run _ _ h4 h4 (VRef 3)).
    2: { apply (getitem_dict h4 lcfg dbase); [ | exact Hchain ].
         subst h4 h3 lcfg. simpl. rewrite !lookup_insert_ne by lia.
         exact Hcfg2. }
    rewrite (bind_run _ _ h4 h5 tt).
    2: { apply (setitem_dict h4 3 dchain). subst h4 h3. simpl.
         rewrite !lookup_insert_ne by lia. rewrite Hold by lia. exact Hch. }
    rewrite (bind_run _ _ h5 h5 (VRef 3)).
    2: { apply (getitem_dict h5 lcfg dbase); [ | exact Hchain ].
         subst h5 h4 h3 lcfg. simpl. rewrite !lookup_insert_ne by lia.
         exact Hcfg2. }
    rewrite (bind_run _ _ h5 h6 tt).
    2: { apply (setitem_dict h5 3 dc1). subst h5. simpl.
         apply lookup_insert_eq. }
    reflexivity. }
  assert (Hbase6 : cells h6 !! 7%nat = Some (ODict dbase)).
  { subst h6 h5 h4 h3. simpl. rewrite !lookup_insert_ne by lia.
    rewrite Hold by lia. exact Hbase. }
  assert (Hcfg6 : cells h6 !! lcfg = Some (ODict dbase)).
  { subst h6 h5 h4 h3 lcfg. simpl. rewrite !lookup_insert_ne by lia.
    exact Hcfg2. }
  exists (VRef lcfg), h6, ys.
  split; [ exact Hrun | ]. split; [ exact Hlen | ].
  split; [ | split ].
  - split.
    + subst h6 h5 h4 h3 h1 lcfg. simpl in *. lia.
    + exists dbase, dc2, dw2. repeat split; auto.
      * subst h6. simpl. apply lookup_insert_eq.
      * subst dc2 dc1. rewrite !dict_get_set_ne by discriminate. exact Hwallet.
      * subst h6 h5 h4. simpl. rewrite !lookup_insert_ne by lia.
        apply lookup_insert_eq.
      * subst h6 h5 h4 h3. simpl. rewrite !lookup_insert_ne by lia.
        exact Hlist2.
  - rewrite (getitem_dict h6 lcfg dbase _ _ Hcfg6 Hcont). reflexivity.
  - rewrite (getitem_dict h6 7 dbase _ _ Hbase6 Hcont). reflexivity.
Qed.

Lemma base_shape_containers_len h xs v :
  base_shape h xs ->
  fst (getitem v "containers" h) = Ok (VRef 6) ->
  containers_len h v = Some (length xs).
Proof.
  intros (_ & dbase & dchain & dwallet & _ & _ & _ & _ & _ & _ & Hlist) Hget.
  unfold containers_len. rewrite Hget, Hlist. reflexivity.
Qed.

(** [get_config] works on a shallow copy of [base_config]: the list
    under "containers" is shared with it. A call with one service on the
    freshly loaded module returns a configuration with one container
    entry and leaves one entry in [base_config], whose list was empty;
    the same call made again returns two entries. *)
Example get_config_twice
  (service : ServiceConfig)
  (private_key coordinator_address payment_address rpc_url : string) :
  exists base h0 cfg1 h1 cfg2 h2,
    loaded = (Ok base, h0)
    /\ get_config base [service] private_key coordinator_address
         payment_address rpc_url h0 = (Ok cfg1, h1)
    /\ get_config base [service] private_key coordinator_address
         payment_address rpc_url h1 = (Ok cfg2, h2)
    /\ containers_len h0 base = Some 0%nat
    /\ containers_len h1 cfg1 = Some 1%nat
    /\ containers_len h1 base = Some 1%nat
    /\ containers_len h2 cfg2 = Some 2%nat
    /\ fst (getitem cfg1 "containers" h1) = fst (getitem base "containers" h1)
    /\ fst (getitem cfg2 "containers" h2) = fst (getitem base "containers" h2).
Proof.
  eexists _, _, _, _, _, _.
  split; [ vm_compute; reflexivity | ].
  split; [ vm_compute; reflexivity | ].
  split; [ vm_compute; reflexivity | ].
  repeat split; vm_compute; reflexivity.
Qed.

(** C8. What the code does, against the claim: [get_config] has hidden
    state. For any two lists of services, the first call on the freshly
    loaded module returns one entry per service but leaves those entries
    in the "containers" list of [base_config], which was empty, and the
    second call returns them together with its own entries. *)
Theorem get_config_accumulates
  (services1 services2 : list ServiceConfig)
  (private_key coordinator_address payment_address rpc_url : string) :
  exists base h0 cfg1 h1 cfg2 h2,
    loaded = (Ok base, h0)
    /\ get_config base services1 private_key coordinator_address
         payment_address rpc_url h0 = (Ok cfg1, h1)
    /\ get_config base services2 private_key coordinator_address
         payment_address rpc_url h1 = (Ok cfg2, h2)
    /\ containers_len h0 base = Some 0%nat
    /\ containers_len h1 cfg1 = Some (length services1)
    /\ containers_len h1 base = Some (length services1)
    /\ containers_len h2 cfg2 = Some (length services1 + length services2)%nat.
Proof.
  destruct loaded_shape as (h0 & Hloaded & Hshape0).
  destruct (get_config_appends services1 private_key coordinator_address
              payment_address rpc_url h0 [] Hshape0)
    as (cfg1 & h1 & ys1 & Hrun1 & Hlen1 & Hshape1 & Hc1 & Hb1).
  destruct (get_config_appends services2 private_key coordinator_address
              payment_address rpc_url h1 _ Hshape1)
    as (cfg2 & h2 & ys2 & Hrun2 & Hlen2 & Hshape2 & Hc2 & Hb2).
  exists (VRef 7), h0, cfg1, h1, cfg2, h2.
  split; [ exact Hloaded | ]. split; [ exact Hrun1 | ].
  split; [ exact Hrun2 | ].
  split; [ | split; [ | split ] ].
  - apply (base_shape_containers_len h0 []); [ exact Hshape0 | ].
    destruct Hshape0 as (_ & dbase & ? & ? & Hbase & Hcont & _).
    rewrite (getitem_dict h0 7 dbase _ _ Hbase Hcont). reflexivity.
  - rewrite (base_shape_containers_len h1 _ cfg1 Hshape1 Hc1).
    simpl. rewrite Hlen1. reflexivity.
  - rewrite (base_shape_containers_len h1 _ (VRef 7) Hshape1 Hb1).
    simpl. rewrite Hlen1. reflexivity.
  - rewrite (base_shape_containers_len h2 _ cfg2 Hshape2 Hc2).
    simpl. rewrite length_app, Hlen1, Hlen2. reflexivity.
Qed.

(** *** Further properties of config_creator.py *)

Lemma holds_entry_frame h h' services refs :
  (forall l, In l (flat_map objects_of refs) -> cells h' !! l = cells h !! l) ->
  Forall2 (holds_entry h) services refs ->
  Forall2 (holds_entry h') services refs.
Proof.
  intros Hframe Hholds. revert Hframe.
  induction Hholds as [|service r services refs Hr Hholds IH]; intros Hframe;
    constructor.
  - destruct Hr as (He & Ha & Hb & Hc). unfold holds_entry.
    rewrite !Hframe by (cbn [flat_map]; apply in_or_app; left; simpl; tauto).
    auto.
  - apply IH. intros l Hl. apply Hframe. cbn [flat_map].
    apply in_or_app. right. exact Hl.
Qed.

Lemma entries_at_frame lo lo' h h' services ys :
  (lo' <= lo)%nat -> (next h <= next h')%nat ->
  (forall l, (lo <= l < next h)%nat -> cells h' !! l = cells h !! l) ->
  entries_at lo h services ys -> entries_at lo' h' services ys.
Proof.
  intros Hlo Hnext Hframe (refs & -> & Hholds & Hnodup & Hrange).
  exists refs. split; [ reflexivity | ].
  rewrite List.Forall_forall in Hrange.
  split; [ | split; [ exact Hnodup | ] ].
  - apply (holds_entry_frame h); [ | exact Hholds ].
    intros l Hl. apply Hframe, Hrange, Hl.
  - apply List.Forall_forall. intros l Hl. specialize (Hrange l Hl). lia.
Qed.

Lemma entries_at_length lo h services ys :
  entries_at lo h services ys -> length ys = length services.
Proof.
  intros (refs & -> & Hholds & _). rewrite length_map.
  symmetry. exact (Forall2_length _ _ _ Hholds).
Qed.

(** The loop appends, in order, an entry for each service. *)
Lemma for_each_entries services : forall h lcfg lc d xs,
  cells h !! lcfg = Some (ODict d) ->
  dict_get d "containers" = Some (VRef lc) ->
  cells h !! lc = Some (OList xs) ->
  (lcfg < next h)%nat -> (lc < next h)%nat -> lcfg <> lc ->
  exists h' ys,
    for_each services (add_container (VRef lcfg)) h = (Ok tt, h')
    /\ entries_at (next h) h' services ys
    /\ cells h' !! lc = Some (OList (xs ++ ys)%list)
    /\ (next h <= next h')%nat
    /\ (forall l, (l < next h)%nat -> l <> lc -> cells h' !! l = cells h !! l).
Proof.
  induction services as [|service services IH];
    intros h lcfg lc d xs Hcfg Hd Hlc Hlt1 Hlt2 Hne.
  - exists h, []. simpl. rewrite app_nil_r.
    split; [ reflexivity | ]. split; [ | auto ].
    exists []. repeat split; constructor.
  - set (n := next h).
    set (h1 := {| cells :=
        <[lc := OList (xs ++ [VRef (S (S (S n)))])%list]>
        (<[S (S (S n)) := container_entry service n (S n) (S (S n))]>
        (<[S (S n) := OList []]>
        (<[S n := OList []]>
        (<[n := OList []]> (cells h)))));
        next := S (S (S (S n))) |}).
    assert (Hbody : add_container (VRef lcfg) service h = (Ok tt, h1)).
    { unfold add_container.
      rewrite (bind_run _ _ _ _ _ (getitem_dict h lcfg d _ _ Hcfg Hd)).
      unfold alloc at 1 2 3 4. unfold mbind at 1 2 3 4, stateful_bind. simpl.
      rewrite (append_list _ lc xs).
      - reflexivity.
      - simpl. rewrite !lookup_insert_ne by lia. exact Hlc. }
    destruct (IH h1 lcfg lc d (xs ++ [VRef (S (S (S n)))])%list)
      as (h' & ys & Hrun & Hys & Hlc' & Hnext & Hframe).
    + subst h1 n. simpl. rewrite !lookup_insert_ne by lia. exact Hcfg.
    + exact Hd.
    + subst h1. simpl. apply lookup_insert_eq.
    + subst h1 n. simpl. lia.
    + subst h1 n. simpl. lia.
    + exact Hne.
    + exists h', (VRef (S (S (S n))) :: ys).
      assert (Hnext1 : next h1 = S (S (S (S n)))) by reflexivity.
      rewrite Hnext1 in Hnext.
      destruct Hys as (refs & -> & Hholds & Hnodup & Hrange).
      rewrite Hnext1 in Hrange. rewrite List.Forall_forall in Hrange.
      split; [ | split; [ | split; [ | split ] ] ].
      * simpl. rewrite (bind_run _ _ _ _ _ Hbody). exact Hrun.
      * exists ({| entry_ref := S (S (S n));
                   delegate_addresses_ref := n;
                   addresses_ref := S n;
                   ips_ref := S (S n) |} :: refs).
        split; [ reflexivity | ]. split; [ | split ].
        -- constructor; [ | exact Hholds ].
           unfold holds_entry. cbn [entry_ref delegate_addresses_ref
                                    addresses_ref ips_ref].
           rewrite !Hframe by (rewrite ?Hnext1; subst n; lia).
           subst h1. simpl.
           repeat first [ rewrite lookup_insert_eq
                        | rewrite lookup_insert_ne by (subst n; lia) ].
           auto.
        -- cbn [flat_map objects_of entry_ref delegate_addresses_ref
                addresses_ref ips_ref app].
           repeat (constructor;
                   [ intros Hin; simpl in Hin;
                     repeat (destruct Hin as [Hin|Hin]; [ lia | ]);
                     specialize (Hrange _ Hin); lia | ]).
           exact Hnodup.
        -- apply List.Forall_forall. intros l Hl.
           cbn [flat_map objects_of entry_ref delegate_addresses_ref
                addresses_ref ips_ref app] in Hl. fold n.
           simpl in Hl.
           repeat (destruct Hl as [Hl|Hl]; [ lia | ]).
           specialize (Hrange _ Hl). lia.
      * rewrite Hlc', <- app_assoc. reflexivity.
      * fold n. lia.
      * intros l Hl Hll. rewrite Hframe by (rewrite ?Hnext1; fold n in Hl; lia).
        subst h1. simpl. fold n in Hl.
        rewrite !lookup_insert_ne by lia. reflexivity.
Qed.


(** [get_config] from a heap in which [base_config] has its shape: the
    heap it leaves and the entries it appends. *)
Lemma get_config_heap services
  private_key coordinator_address payment_address rpc_url h xs :
  base_shape h xs ->
  exists cfg h' ys,
    get_config (VRef 7) services private_key coordinator_address
      payment_address rpc_url h = (Ok cfg, h')
    /\ configured h' cfg (xs ++ ys)%list private_key coordinator_address
         payment_address rpc_url
    /\ entries_at (next h) h' services ys
    /\ (next h <= next h')%nat
    /\ (forall l, (8 <= l < next h)%nat -> cells h' !! l = cells h !! l).
Proof.
  intros (Hnext & dbase & dchain & dwallet
          & Hbase & Hcont & Hchain & Hch & Hwallet & Hw & Hlist).
  set (lcfg := next h).
  set (h1 := {| cells := <[lcfg := ODict dbase]> (cells h); next := S lcfg |}).
  destruct (for_each_entries services h1 lcfg 6%nat dbase xs)
    as (h2 & ys & Hloop & Hys & Hlist2 & Hnext2 & Hframe).
  { subst h1. simpl. apply lookup_insert_eq. }
  { exact Hcont. }
  { subst h1 lcfg. simpl. rewrite lookup_insert_ne by lia. exact Hlist. }
  { subst h1. simpl. lia. }
  { subst h1 lcfg. simpl. lia. }
  { subst lcfg. lia. }
  assert (Hnext1 : next h1 = S lcfg) by reflexivity.
  assert (Hcfg2 : cells h2 !! lcfg = Some (ODict dbase)).
  { rewrite Hframe by (rewrite ?Hnext1; subst lcfg; lia).
    subst h1. simpl. apply lookup_insert_eq. }
  assert (Hold : forall l, (l < lcfg)%nat -> l <> 6%nat ->
                           cells h2 !! l = cells h !! l).
  { intros l Hl Hl6. rewrite Hframe by (rewrite ?Hnext1; lia).
    subst h1. simpl. apply lookup_insert_ne. lia. }
  set (dw1 := dict_set dwallet "private_key" (VStr private_key)).
  set (dw2 := dict_set dw1 "payment_address" (VStr payment_address)).
  set (dc1 := dict_set dchain "coordinator_address" (VStr coordinator_address)).
  set (dc2 := dict_set dc1 "rpc_url" (VStr rpc_url)).
  set (h3 := {| cells := <[2%nat := ODict dw1]> (cells h2); next := next h2 |}).
  set (h4 := {| cells := <[2%nat := ODict dw2]> (cells h3); next := next h3 |}).
  set (h5 := {| cells := <[3%nat := ODict dc1]> (cells h4); next := next h4 |}).
  set (h6 := {| cells := <[3%nat := ODict dc2]> (cells h5); next := next h5 |}).
  assert (Hrun : get_config (VRef 7) services private_key coordinator_address
                   payment_address rpc_url h = (Ok (VRef lcfg), h6)).
  { unfold get_config.
    rewrite (bind_run _ _ _ _ _ (copy_dict h 7 dbase Hbase)). fold lcfg h1.
    rewrite (bind_run _ _ _ _ _ Hloop).
    rewrite (bind_run _ _ _ _ _ (getitem_dict h2 lcfg dbase _ _ Hcfg2 Hchain)).
    rewrite (bind_run _ _ h2 h2 (VRef 2)).
    2: { apply (getitem_dict h2 3 dchain); [ | exact Hwallet ].
         rewrite Hold by (subst lcfg; lia). exact Hch. }
    rewrite (bind_run _ _ h2 h3 tt).
    2: { apply (setitem_dict h2 2 dwallet).
         rewrite Hold by (subst lcfg; lia). exact Hw. }
    rewrite (bind_run _ _ h3 h3 (VRef 3)).
    2: { apply (getitem_dict h3 lcfg dbase); [ | exact Hchain ].
         subst h3 lcfg. simpl. rewrite lookup_insert_ne by lia. exact Hcfg2. }
    rewrite (bind_run _ _ h3 h3 (VRef 2)).
    2: { apply (getitem_dict h3 3 dchain); [ | exact Hwallet ].
         subst h3. simpl. rewrite lookup_insert_ne by lia.
         rewrite Hold by (subst lcfg; lia). exact Hch. }
    rewrite (bind_run _ _ h3 h4 tt).
    2: { apply (setitem_dict h3 2 dw1). subst h3. simpl.
         apply lookup_insert_eq. }
    rewrite (bind_run _ _ h4 h4 (VRef 3)).
    2: { apply (getitem_dict h4 lcfg dbase); [ | exact Hchain ].
         subst h4 h3 lcfg. simpl. rewrite !lookup_insert_ne by lia.
         exact Hcfg2. }
    rewrite (bind_run _ _ h4 h5 tt).
    2: { apply (setitem_dict h4 3 dchain). subst h4 h3. simpl.
         rewrite !lookup_insert_ne by lia.
         rewrite Hold by (subst lcfg; lia). exact Hch. }
    rewrite (bind_run _ _ h5 h5 (VRef 3)).
    2: { apply (getitem_dict h5 lcfg dbase); [ | exact Hchain ].
         subst h5 h4 h3 lcfg. simpl. rewrite !lookup_insert_ne by lia.
         exact Hcfg2. }
    rewrite (bind_run _ _ h5 h6 tt).
    2: { apply (setitem_dict h5 3 dc1). subst h5. simpl.
         apply lookup_insert_eq. }
    reflexivity. }
  assert (Hnext6 : next h6 = next h2) by reflexivity.
  assert (Hhigh : forall l, (8 <= l)%nat -> cells h6 !! l = cells h2 !! l).
  { intros l Hl. subst h6 h5 h4 h3. simpl.
    rewrite !lookup_insert_ne by lia. reflexivity. }
  exists (VRef lcfg), h6, ys.
  split; [ exact Hrun | ]. split; [ | split; [ | split ] ].
  - exists lcfg, dbase, dc2, dw2.
    split; [ reflexivity | ].
    split; [ rewrite Hnext6; rewrite Hnext1 in Hnext2; subst lcfg; lia | ].
    split; [ rewrite Hhigh by (subst lcfg; lia); exact Hcfg2 | ].
    split.
    { subst h6 h5 h4 h3. simpl. rewrite !lookup_insert_ne by lia.
      rewrite Hold by (subst lcfg; lia). exact Hbase. }
    split; [ exact Hcont | ]. split; [ exact Hchain | ].
    split; [ subst h6; simpl; apply lookup_insert_eq | ].
    split.
    { subst dc2 dc1. rewrite !dict_get_set_other by discriminate.
      exact Hwallet. }
    split; [ subst dc2; apply dict_get_set_eq | ].
    split.
    { subst dc2 dc1. rewrite dict_get_set_other by discriminate.
      apply dict_get_set_eq. }
    split.
    { subst h6 h5 h4. simpl. rewrite !lookup_insert_ne by lia.
      apply lookup_insert_eq. }
    split.
    { subst dw2 dw1. rewrite dict_get_set_other by discriminate.
      apply dict_get_set_eq. }
    split; [ subst dw2; apply dict_get_set_eq | ].
    subst h6 h5 h4 h3. simpl. rewrite !lookup_insert_ne by lia. exact Hlist2.
  - eapply entries_at_frame; [ | | | exact Hys ].
    + rewrite Hnext1. subst lcfg. lia.
    + rewrite Hnext6. lia.
    + intros l Hl. apply Hhigh. rewrite Hnext1 in Hl. subst lcfg. lia.
  - rewrite Hnext6. rewrite Hnext1 in Hnext2. subst lcfg. lia.
  - intros l Hl. rewrite Hhigh by lia. apply Hold; fold lcfg in Hl; lia.
Qed.

Lemma configured_base_shape h cfg xs pk ca pa rpc :
  configured h cfg xs pk ca pa rpc -> base_shape h xs.
Proof.
  intros (lcfg & dbase & dchain & dwallet & -> & Hl & _ & Hbase & Hcont
          & Hchain & Hch & Hwallet & _ & _ & Hw & _ & _ & Hlist).
  split; [ lia | ]. exists dbase, dchain, dwallet. repeat split; assumption.
Qed.

Lemma read_two h v l d l' d' key key' x :
  v = VRef l -> cells h !! l = Some (ODict d) ->
  dict_get d key = Some (VRef l') ->
  cells h !! l' = Some (ODict d') -> dict_get d' key' = Some x ->
  fst (read v [key; key'] h) = Ok x.
Proof.
  intros -> Hl Hk Hl' Hk'. cbn [read].
  rewrite (bind_run _ _ _ _ _ (getitem_dict h l d _ _ Hl Hk)).
  rewrite (bind_run _ _ _ _ _ (getitem_dict h l' d' _ _ Hl' Hk')).
  reflexivity.
Qed.

Lemma read_three h v l d l' d' l'' d'' key key' key'' x :
  v = VRef l -> cells h !! l = Some (ODict d) ->
  dict_get d key = Some (VRef l') ->
  cells h !! l' = Some (ODict d') -> dict_get d' key' = Some (VRef l'') ->
  cells h !! l'' = Some (ODict d'') -> dict_get d'' key'' = Some x ->
  fst (read v [key; key'; key''] h) = Ok x.
Proof.
  intros -> Hl Hk Hl' Hk' Hl'' Hk''. cbn [read].
  rewrite (bind_run _ _ _ _ _ (getitem_dict h l d _ _ Hl Hk)).
  rewrite (bind_run _ _ _ _ _ (getitem_dict h l' d' _ _ Hl' Hk')).
  rewrite (bind_run _ _ _ _ _ (getitem_dict h l'' d'' _ _ Hl'' Hk'')).
  reflexivity.
Qed.

(** The four settings, read from [v] in the heap [h]. *)
Lemma configured_reads h cfg xs pk ca pa rpc v l d :
  configured h cfg xs pk ca pa rpc ->
  v = VRef l -> cells h !! l = Some (ODict d) ->
  dict_get d "chain" = Some (VRef 3) ->
  fst (read v ["chain"; "rpc_url"] h) = Ok (VStr rpc)
  /\ fst (read v ["chain"; "coordinator_address"] h) = Ok (VStr ca)
  /\ fst (read v ["chain"; "wallet"; "private_key"] h) = Ok (VStr pk)
  /\ fst (read v ["chain"; "wallet"; "payment_address"] h) = Ok (VStr pa).
Proof.
  intros (lcfg & dbase & dchain & dwallet & _ & _ & _ & _ & _
          & _ & Hch & Hwallet & Hrpc & Hca & Hw & Hpk & Hpa & _) Hv Hl Hd.
  repeat split.
  - eapply read_two; eauto.
  - eapply read_two; eauto.
  - eapply read_three; eauto.
  - eapply read_three; eauto.
Qed.


Lemma loaded_base_shape : base_shape (snd loaded) [].
Proof.
  destruct loaded_shape as (h0 & Hloaded & Hshape).
  rewrite Hloaded. exact Hshape.
Qed.

Lemma configured_containers_of h cfg xs pk ca pa rpc :
  configured h cfg xs pk ca pa rpc ->
  containers_of h cfg = Some xs /\ containers_of h (VRef 7) = Some xs.
Proof.
  intros (lcfg & dbase & dchain & dwallet & -> & _ & Hcfg & Hbase & Hcont
          & _ & _ & _ & _ & _ & _ & _ & _ & Hlist).
  unfold containers_of.
  rewrite (getitem_dict h lcfg dbase _ _ Hcfg Hcont),
    (getitem_dict h 7 dbase _ _ Hbase Hcont).
  simpl. rewrite Hlist. auto.
Qed.

(** X16. Whenever [base_config] has the shape the module gives it,
    [get_config] returns a configuration in which the four settings read
    back as given: [cfg["chain"]["rpc_url"]],
    [cfg["chain"]["coordinator_address"]],
    [cfg["chain"]["wallet"]["private_key"]] and
    [cfg["chain"]["wallet"]["payment_address"]]. The same four reads on
    [base_config] give the same values: the call has written the settings
    into the module's own dictionaries. *)
Theorem get_config_writes_settings
  (services : list ServiceConfig)
  (private_key coordinator_address payment_address rpc_url : string)
  (h : heap) (xs : list value) :
  base_shape h xs ->
  exists cfg h',
    get_config (VRef 7) services private_key coordinator_address
      payment_address rpc_url h = (Ok cfg, h')
    /\ (fst (read cfg ["chain"; "rpc_url"] h') = Ok (VStr rpc_url)
        /\ fst (read cfg ["chain"; "coordinator_address"] h')
           = Ok (VStr coordinator_address)
        /\ fst (read cfg ["chain"; "wallet"; "private_key"] h')
           = Ok (VStr private_key)
        /\ fst (read cfg ["chain"; "wallet"; "payment_address"] h')
           = Ok (VStr payment_address))
    /\ (fst (read (VRef 7) ["chain"; "rpc_url"] h') = Ok (VStr rpc_url)
        /\ fst (read (VRef 7) ["chain"; "coordinator_address"] h')
           = Ok (VStr coordinator_address)
        /\ fst (read (VRef 7) ["chain"; "wallet"; "private_key"] h')
           = Ok (VStr private_key)
        /\ fst (read (VRef 7) ["chain"; "wallet"; "payment_address"] h')
           = Ok (VStr payment_address)).
Proof.
  intros Hshape.
  destruct (get_config_heap services private_key coordinator_address
              payment_address rpc_url h xs Hshape)
    as (cfg & h' & ys & Hrun & Hconf & _).
  exists cfg, h'. split; [ exact Hrun | ].
  pose proof Hconf as (lcfg & dbase & dchain & dwallet & Hcfg & _ & Hl & Hbase
                       & _ & Hchain & _).
  split.
  - exact (configured_reads _ _ _ _ _ _ _ cfg lcfg dbase Hconf Hcfg Hl Hchain).
  - exact (configured_reads _ _ _ _ _ _ _ (VRef 7) 7%nat dbase Hconf eq_refl
             Hbase Hchain).
Qed.


(** X18. [get_config] appends to the "containers" list one entry per
    service, in the order of the services: the entry of a service is a
    dictionary that holds its name under "id", its image, environment and
    port, the fixed command, [True] under "external", and three empty
    lists. The dictionaries and lists of all the entries are new objects,
    allocated by the call, and they are pairwise distinct: no list is
    shared between two keys or between two entries. The list the
    configuration holds is what [base_config] held before, followed by
    these entries. *)
Theorem get_config_appends_entries
  (services : list ServiceConfig)
  (private_key coordinator_address payment_address rpc_url : string)
  (h : heap) (xs : list value) :
  base_shape h xs ->
  exists cfg h' refs,
    get_config (VRef 7) services private_key coordinator_address
      payment_address rpc_url h = (Ok cfg, h')
    /\ containers_of h' cfg = Some (xs ++ map entry_value refs)%list
    /\ Forall2 (holds_entry h') services refs
    /\ List.NoDup (flat_map objects_of refs)
    /\ Forall (fun l => (next h <= l < next h')%nat)
         (flat_map objects_of refs).
Proof.
  intros Hshape.
  destruct (get_config_heap services private_key coordinator_address
              payment_address rpc_url h xs Hshape)
    as (cfg & h' & ys & Hrun & Hconf & (refs & -> & Hholds & Hnodup & Hrange)
        & _).
  exists cfg, h', refs. split; [ exact Hrun | ].
  split; [ | auto ].
  apply (configured_containers_of _ _ _ _ _ _ _ Hconf).
Qed.

Lemma get_config_writes_settings_witness :
  exists cfg h',
    get_config (VRef 7) [echo_service] "0xkey" "0xcoordinator" "0xpayee"
      "http://localhost:8545" (snd loaded) = (Ok cfg, h')
    /\ (fst (read cfg ["chain"; "rpc_url"] h')
        = Ok (VStr "http://localhost:8545")
        /\ fst (read cfg ["chain"; "coordinator_address"] h')
           = Ok (VStr "0xcoordinator")
        /\ fst (read cfg ["chain"; "wallet"; "private_key"] h')
           = Ok (VStr "0xkey")
        /\ fst (read cfg ["chain"; "wallet"; "payment_address"] h')
           = Ok (VStr "0xpayee"))
    /\ (fst (read (VRef 7) ["chain"; "rpc_url"] h')
        = Ok (VStr "http://localhost:8545")
        /\ fst (read (VRef 7) ["chain"; "coordinator_address"] h')
           = Ok (VStr "0xcoordinator")
        /\ fst (read (VRef 7) ["chain"; "wallet"; "private_key"] h')
           = Ok (VStr "0xkey")
        /\ fst (read (VRef 7) ["chain"; "wallet"; "payment_address"] h')
           = Ok (VStr "0xpayee")).
Proof.
  exact (get_config_writes_settings [echo_service] "0xkey" "0xcoordinator"
           "0xpayee" "http://localhost:8545" (snd loaded) []
           loaded_base_shape).
Defined.

Lemma get_config_appends_entries_witness :
  exists cfg h' refs,
    get_config (VRef 7) [echo_service; echo_service] "0xkey" "0xcoordinator"
      "0xpayee" "http://localhost:8545" (snd loaded) = (Ok cfg, h')
    /\ containers_of h' cfg = Some ([] ++ map entry_value refs)%list
    /\ Forall2 (holds_entry h') [echo_service; echo_service] refs
    /\ List.NoDup (flat_map objects_of refs)
    /\ Forall (fun l => (next (snd loaded) <= l < next h')%nat)
         (flat_map objects_of refs).
Proof.
  exact (get_config_appends_entries [echo_service; echo_service] "0xkey"
           "0xcoordinator" "0xpayee" "http://localhost:8545" (snd loaded) []
           loaded_base_shape).
Defined.

Example get_config_two_entries :
  let h' := snd (get_config (VRef 7) [echo_service; echo_service] "0xkey"
                   "0xcoordinator" "0xpayee" "http://localhost:8545"
                   (snd loaded)) in
  containers_of h' (VRef 8) = Some [VRef 12; VRef 16]
  /\ cells h' !! 12%nat = Some (container_entry echo_service 9 10 11)
  /\ cells h' !! 16%nat = Some (container_entry echo_service 13 14 15).
Proof. vm_compute. auto. Qed.



End ConfigCreatorProperties.

(** ** config_creator.py: the configuration file and its path *)

Section ConfigFileProperties.
Import ConfigFile.

Lemma find_port_skips int service_name before containers :
  Forall (other_service service_name) before ->
  find_port int (before ++ containers) service_name
  = find_port int containers service_name.
Proof.
  induction 1 as [|container before (id & Hid & Hne) _ IH]; simpl;
    [ reflexivity | ].
  rewrite Hid. simpl. rewrite Hne. exact IH.
Qed.

(** X19. [get_service_port] returns the port of the first container of
    the configuration file whose "id" is the service name, and does not
    look at the containers after it, so of two entries with the same id
    the first one decides; when no container has that id it raises
    [ValueError]. *)
Theorem get_service_port_first_match
  (int : json -> result exn Z) (config_file : result exn json)
  (service_name : string) (cfg : json) (containers : list json) :
  config_file = Ok cfg ->
  getitem cfg "containers" = Ok (JList containers) ->
  (forall before container after,
     containers = (before ++ container :: after)%list ->
     Forall (other_service service_name) before ->
     getitem container "id" = Ok (JStr service_name) ->
     get_service_port int config_file service_name
     = (port ← getitem container "port"; int port))
  /\ (Forall (other_service service_name) containers ->
      get_service_port int config_file service_name
      = Raise (ValueError (not_found_message service_name))).
Proof.
  intros -> Hcs. unfold get_service_port.
  rewrite bind_Ok, Hcs, bind_Ok. cbn [iterate]. rewrite bind_Ok. split.
  - intros before container after -> Hbefore Hid.
    rewrite (find_port_skips _ _ _ _ Hbefore). cbn [find_port].
    rewrite Hid, bind_Ok. cbn [equals_str].
    rewrite bool_decide_eq_true_2 by reflexivity. reflexivity.
  - intros Hall.
    rewrite <- (app_nil_r containers), (find_port_skips _ _ _ _ Hall).
    reflexivity.
Qed.

Lemma get_service_port_first_match_witness :
  (forall before container after,
     [ JDict [("id", JStr "torch"); ("port", JInt 3001)];
       JDict [("id", JStr "echo"); ("port", JInt 3000)];
       JDict [("id", JStr "echo"); ("port", JInt 3002)] ]
     = (before ++ container :: after)%list ->
     Forall (other_service "echo") before ->
     getitem container "id" = Ok (JStr "echo") ->
     get_service_port int_of_json (Ok two_echo_entries) "echo"
     = (port ← getitem container "port"; int_of_json port))
  /\ (Forall (other_service "echo")
        [ JDict [("id", JStr "torch"); ("port", JInt 3001)];
          JDict [("id", JStr "echo"); ("port", JInt 3000)];
          JDict [("id", JStr "echo"); ("port", JInt 3002)] ] ->
      get_service_port int_of_json (Ok two_echo_entries) "echo"
      = Raise (ValueError (not_found_message "echo"))).
Proof.
  exact (get_service_port_first_match int_of_json (Ok two_echo_entries)
           "echo" two_echo_entries _ eq_refl eq_refl).
Defined.

Example get_service_port_duplicate_id :
  get_service_port int_of_json (Ok two_echo_entries) "echo" = Ok 3000.
Proof. reflexivity. Qed.

Lemma removelast_take {A} (l : list A) :
  List.removelast l = take (length l - 1) l.
Proof.
  induction l as [|x [|y l] IH]; try reflexivity.
  change (List.removelast (x :: y :: l)) with (x :: List.removelast (y :: l)).
  rewrite IH. simpl. rewrite Nat.sub_0_r. reflexivity.
Qed.

Lemma climb_finds (k : nat) : forall top n fuel,
  (n + k = length top)%nat -> (k <= fuel)%nat ->
  contains "infernet-monorepo" (basename (take n top)) = true ->
  (forall m, (n < m <= length top)%nat ->
             contains "infernet-monorepo" (basename (take m top)) = false) ->
  climb fuel top = Some (take n top).
Proof.
  induction k as [|k IH]; intros top n fuel Hlen Hfuel Hn Hbelow.
  - assert (Htop : take n top = top) by (apply firstn_all2; lia).
    rewrite Htop in *. destruct fuel; simpl; rewrite Hn; reflexivity.
  - assert (Hself : contains "infernet-monorepo" (basename top) = false).
    { rewrite <- (firstn_all top). apply Hbelow. lia. }
    destruct fuel as [|fuel]; [ lia | ].
    simpl. rewrite Hself. unfold dirname. rewrite removelast_take.
    assert (Hlen' : length (take (length top - 1) top) = (length top - 1)%nat)
      by (rewrite length_take; lia).
    rewrite (IH (take (length top - 1) top) n fuel).
    + rewrite take_take.
      replace (n `min` (length top - 1))%nat with n by lia. reflexivity.
    + rewrite Hlen'. lia.
    + lia.
    + rewrite take_take. replace (n `min` (length top - 1))%nat with n by lia.
      exact Hn.
    + intros m Hm. rewrite Hlen' in Hm. rewrite take_take.
      replace (m `min` (length top - 1))%nat with m by lia.
      apply Hbelow. lia.
Qed.

(** X20. [monorepo_dir] returns the nearest directory, from the parent of
    the module's directory upwards, whose name contains
    "infernet-monorepo": when the first [n] components of that parent
    name such a directory and no longer prefix does, the loop exits with
    that directory within as many iterations as there are components
    between them. *)
Theorem monorepo_dir_nearest
  (file : list string) (n fuel : nat) :
  let start := dirname (dirname file) in
  (n <= length start)%nat ->
  (length start - n <= fuel)%nat ->
  contains "infernet-monorepo" (basename (take n start)) = true ->
  (forall m, (n < m <= length start)%nat ->
             contains "infernet-monorepo" (basename (take m start)) = false) ->
  monorepo_dir fuel file = Some (take n start).
Proof.
  cbv zeta. intros Hn Hfuel Hfound Hbelow. unfold monorepo_dir.
  apply (climb_finds (length (dirname (dirname file)) - n)); auto. lia.
Qed.

Lemma monorepo_dir_nearest_witness :
  monorepo_dir 2 module_file = Some ["home"; "ci"; "infernet-monorepo"].
Proof.
  refine (monorepo_dir_nearest module_file 3 2 _ _ eq_refl _).
  - simpl. lia.
  - simpl. lia.
  - intros m Hm. simpl in Hm.
    assert (Hcases : m = 4%nat \/ m = 5%nat) by lia.
    destruct Hcases as [-> | ->]; reflexivity.
Defined.

Lemma basename_In (p : list string) :
  basename p = "" \/ In (basename p) p.
Proof.
  unfold basename. destruct p as [|c p]; [ left; reflexivity | right ].
  revert c. induction p as [|c' p IH]; intros c.
  - left. reflexivity.
  - right. exact (IH c').
Qed.

Lemma Forall_removelast {A} (P : A -> Prop) (l : list A) :
  Forall P l -> Forall P (List.removelast l).
Proof.
  rewrite removelast_take. apply Forall_take.
Qed.

(** X21. Outside a checkout [monorepo_dir] does not return: when no
    directory above the module's directory has a name containing
    "infernet-monorepo", the loop reaches the root, whose name is empty
    and whose parent is the root itself, and stays there. *)
Theorem monorepo_dir_spins
  (file : list string) :
  Forall (fun c => contains "infernet-monorepo" c = false)
    (dirname (dirname file)) ->
  forall fuel, monorepo_dir fuel file = None.
Proof.
  unfold monorepo_dir. generalize (dirname (dirname file)) as top.
  intros top Htop fuel. revert top Htop.
  induction fuel as [|fuel IH]; intros top Htop;
    assert (Hself : contains "infernet-monorepo" (basename top) = false)
      by (destruct (basename_In top) as [-> | Hin];
          [ reflexivity
          | rewrite Forall_forall in Htop; apply list_elem_of_In in Hin;
            exact (Htop _ Hin) ]);
    simpl; rewrite Hself; [ reflexivity | ].
  apply IH. apply Forall_removelast. exact Htop.
Qed.

Lemma monorepo_dir_spins_witness :
  Forall (fun c => contains "infernet-monorepo" c = false)
    (dirname (dirname ["tmp"; "build"; "test_library"; "config_creator.py"]))
  /\ forall fuel,
       monorepo_dir fuel ["tmp"; "build"; "test_library"; "config_creator.py"]
       = None.
Proof.
  assert (H : Forall (fun c => contains "infernet-monorepo" c = false)
                (dirname (dirname
                   ["tmp"; "build"; "test_library"; "config_creator.py"]))).
  { repeat constructor. }
  split; [ exact H | ].
  exact (monorepo_dir_spins
           ["tmp"; "build"; "test_library"; "config_creator.py"] H).
Defined.

Example config_path_in_checkout :
  config_path 2 module_file
  = Some [ "home"; "ci"; "infernet-monorepo"; "infernet_services"; "deploy";
           "config.json" ].
Proof. reflexivity. Qed.

End ConfigFileProperties.
